(** * ICC profile extraction and decoding (lib/image/icc_profile.js)

    A shallow embedding of the [ICCProfile] class: the two container
    scanners [extractFromJPEG] and [extractFromPNG] and the decoder
    [_parse], over a model of the parts of the JavaScript runtime they
    use (Node's [Buffer] reads and slices, string decoding, [trim],
    [toLowerCase], plain objects used as maps). *)

From Stdlib Require Import ZArith List Lia Strings.Byte Strings.String.
From stdpp Require Import gmap strings list fin_maps.

Local Open Scope Z_scope.

(** ** JavaScript values *)

(** A JavaScript string is a sequence of UTF-16 code units; a [Buffer]
    is a sequence of bytes.  Numbers are the integers the code computes
    with (all far below 2^53, so exact). *)
Abbreviation jsstring := (list Z).
Abbreviation Buffer := (list byte).

(** A string literal of the source, as code units. *)
Definition js (s : string) : jsstring :=
  map (λ b, Z.of_N (Byte.to_N b)) (list_byte_of_string s).

(** The bytes of an ASCII literal, for building buffers. *)
Definition bytes (s : string) : Buffer := list_byte_of_string s.

(** A byte from its number (used to write buffers down). *)
Definition byte_of (n : Z) : byte :=
  match Byte.of_N (Z.to_N n) with Some b => b | None => "000"%byte end.

Definition byte_val (b : byte) : Z := Z.of_N (Byte.to_N b).

#[global] Instance byte_eq_decision : EqDecision byte := Byte.byte_eq_dec.

(** What a call can throw: [new Error(message)] of the source, or the
    [RangeError] Node raises from a fixed-width read that does not fit
    in the buffer. *)
Inductive exn : Type :=
| Error (message : jsstring)
| RangeError.

Inductive completion (A : Type) : Type :=
| Return (a : A)
| Throw (e : exn).
Arguments Return {A} a.
Arguments Throw {A} e.

#[global] Instance completion_ret : MRet completion := λ A a, Return a.
#[global] Instance completion_bind : MBind completion := λ A B k m,
  match m with
  | Return a => k a
  | Throw e => Throw e
  end.

(** Property values: [undefined] or a string. *)
Inductive value : Type :=
| VUndefined
| VString (s : jsstring).

(** ** Buffer *)

Definition buf_length (buf : Buffer) : Z := Z.of_nat (length buf).

(** [buf[i]]: [None] stands for [undefined]. *)
Definition at_index (buf : Buffer) (i : Z) : option byte :=
  if i <? 0 then None else buf !! Z.to_nat i.

(** [buf.readUInt16BE(offset)] *)
Definition readUInt16BE (buf : Buffer) (offset : Z) : completion Z :=
  match at_index buf offset, at_index buf (offset + 1) with
  | Some first, Some last => Return (byte_val first * 2 ^ 8 + byte_val last)
  | _, _ => Throw RangeError
  end.

(** [buf.readUInt32BE(offset)] *)
Definition readUInt32BE (buf : Buffer) (offset : Z) : completion Z :=
  match at_index buf offset, at_index buf (offset + 3) with
  | Some first, Some last =>
      match at_index buf (offset + 1), at_index buf (offset + 2) with
      | Some b1, Some b2 =>
          Return (byte_val first * 2 ^ 24 + byte_val b1 * 2 ^ 16
                  + byte_val b2 * 2 ^ 8 + byte_val last)
      | _, _ => Throw RangeError
      end
  | _, _ => Throw RangeError
  end.

(** Index normalisation of [slice]: negative indices count from the end,
    everything is clamped to the buffer. *)
Definition adjust_offset (len i : Z) : Z :=
  if i <? 0 then Z.max (len + i) 0 else Z.min i len.

(** [buf.slice(start, end)] *)
Definition slice (buf : Buffer) (start end_ : Z) : Buffer :=
  let len := buf_length buf in
  let s := adjust_offset len start in
  let e := adjust_offset len end_ in
  take (Z.to_nat (e - s)) (drop (Z.to_nat s) buf).

(** [buf.slice(start)] *)
Definition slice_from (buf : Buffer) (start : Z) : Buffer :=
  slice buf start (buf_length buf).

(** [buf.indexOf(v)] for a byte value [v]: first index, or -1. *)
Fixpoint indexOf_from (buf : Buffer) (v : Z) (i : Z) : Z :=
  match buf with
  | [] => -1
  | b :: rest => if byte_val b =? v then i else indexOf_from rest v (i + 1)
  end.
Definition indexOf (buf : Buffer) (v : Z) : Z := indexOf_from buf v 0.

(** ['ascii'] decoding: the top bit of each byte is cleared. *)
Definition asciiSlice (buf : Buffer) : jsstring :=
  map (λ b, Z.land (byte_val b) 127) buf.

(** [buf.toString('ascii', start, end)] *)
Definition toString_ascii_range (buf : Buffer) (start end_ : Z) : jsstring :=
  let len := buf_length buf in
  if (0 <? start) && (len <=? start) then []
  else
    let start := if start <=? 0 then 0 else start in
    let end_ := if len <? end_ then len else end_ in
    if end_ <=? start then []
    else asciiSlice (take (Z.to_nat (end_ - start)) (drop (Z.to_nat start) buf)).

(** [buf.toString('ascii')] *)
Definition toString_ascii (buf : Buffer) : jsstring := asciiSlice buf.

(** *** UTF-8 decoding ([buf.toString()])

    Ill-formed input is replaced by U+FFFD, one per maximal ill-formed
    prefix; code points above U+FFFF become a surrogate pair. *)

Definition replacement : Z := 0xFFFD.

Definition code_units (cp : Z) : jsstring :=
  if cp <? 0x10000 then [cp]
  else [0xD800 + Z.shiftr (cp - 0x10000) 10; 0xDC00 + Z.land (cp - 0x10000) 0x3FF].

(** A multi-byte sequence in progress: continuation bytes still needed,
    the code point so far, and the range allowed for the next byte. *)
Record pending : Type := Pending {
  needed : nat;
  code_point : Z;
  lower : Z;
  upper : Z
}.

(** A byte met with no sequence in progress. *)
Definition utf8_lead (b : Z) : jsstring * option pending :=
  if b <=? 0x7F then ([b], None)
  else if (0xC2 <=? b) && (b <=? 0xDF) then
    ([], Some (Pending 1 (Z.land b 0x1F) 0x80 0xBF))
  else if (0xE0 <=? b) && (b <=? 0xEF) then
    ([], Some (Pending 2 (Z.land b 0xF)
                 (if b =? 0xE0 then 0xA0 else 0x80)
                 (if b =? 0xED then 0x9F else 0xBF)))
  else if (0xF0 <=? b) && (b <=? 0xF4) then
    ([], Some (Pending 3 (Z.land b 0x7)
                 (if b =? 0xF0 then 0x90 else 0x80)
                 (if b =? 0xF4 then 0x8F else 0xBF)))
  else ([replacement], None).

Fixpoint utf8_decode (st : option pending) (buf : Buffer) : jsstring :=
  match buf with
  | [] => match st with None => [] | Some _ => [replacement] end
  | b :: rest =>
      let v := byte_val b in
      match st with
      | None => let '(out, st') := utf8_lead v in out ++ utf8_decode st' rest
      | Some p =>
          if (lower p <=? v) && (v <=? upper p) then
            let cp := Z.lor (Z.shiftl (code_point p) 6) (Z.land v 0x3F) in
            match needed p with
            | S (S n) => utf8_decode (Some (Pending (S n) cp 0x80 0xBF)) rest
            | _ => code_units cp ++ utf8_decode None rest
            end
          else
            let '(out, st') := utf8_lead v in
            replacement :: out ++ utf8_decode st' rest
      end
  end.

(** [buf.toString()] *)
Definition toString (buf : Buffer) : jsstring := utf8_decode None buf.

(** ** Strings *)

(** [s.startsWith(prefix)] *)
Fixpoint startsWith (s prefix : jsstring) : bool :=
  match prefix, s with
  | [], _ => true
  | p :: prefix', c :: s' => (c =? p) && startsWith s' prefix'
  | _ :: _, [] => false
  end.

(** White space and line terminators, the code units [trim] removes. *)
Definition is_white_space (c : Z) : bool :=
  ((0x09 <=? c) && (c <=? 0x0D)) || (c =? 0x20) || (c =? 0xA0)
  || (c =? 0x1680) || ((0x2000 <=? c) && (c <=? 0x200A))
  || (c =? 0x2028) || (c =? 0x2029) || (c =? 0x202F) || (c =? 0x205F)
  || (c =? 0x3000) || (c =? 0xFEFF).

Fixpoint trimStart (s : jsstring) : jsstring :=
  match s with
  | c :: s' => if is_white_space c then trimStart s' else s
  | [] => []
  end.

(** [s.trim()] *)
Definition trim (s : jsstring) : jsstring :=
  rev (trimStart (rev (trimStart s))).

(** [s.toLowerCase()], exact on ASCII and on the two other code units
    whose lower case contains an ASCII letter (KELVIN SIGN, and capital I
    with dot above); the remaining non-ASCII letters are left in place:
    their lower case is never ASCII, and the only use here is a lookup
    among ASCII keys. *)
Definition lower_unit (c : Z) : jsstring :=
  if (0x41 <=? c) && (c <=? 0x5A) then [c + 32]
  else if c =? 0x212A then [0x6B]
  else if c =? 0x130 then [0x69; 0x307]
  else [c].

Definition toLowerCase (s : jsstring) : jsstring := concat (map lower_unit s).

(** [String.fromCharCode(n)] for an integer [n] *)
Definition fromCharCode (n : Z) : jsstring := [n mod 65536].

(** ** extractFromJPEG *)

(** One turn of the [while] loop, entered with the loop condition true. *)
Definition jpeg_body (jpeg : Buffer) (pos : Z) (buffers : list Buffer)
  : completion (Z * list Buffer) :=
  marker ← readUInt16BE jpeg pos;
  length ← readUInt16BE jpeg (pos + 2);
  let buffers :=
    if marker =? 0xffe2 then
      let signature := toString_ascii_range jpeg (pos + 4) (pos + 18) in
      if startsWith signature (js "ICC_PROFILE") then
        let data := slice jpeg (pos + 18) (pos + length + 2) in
        buffers ++ [data]
      else buffers
    else buffers in
  Return (pos + length + 2, buffers).

(** The loop; [None] when [fuel] turns do not reach its end. *)
Definition jpeg_cond (jpeg : Buffer) (pos : Z) : bool :=
  pos <? buf_length jpeg - 4.

Fixpoint jpeg_while (fuel : nat) (jpeg : Buffer) (pos : Z) (buffers : list Buffer)
  : option (completion (list Buffer)) :=
  if jpeg_cond jpeg pos then
    match fuel with
    | O => None
    | S fuel' =>
        match jpeg_body jpeg pos buffers with
        | Return (pos', buffers') => jpeg_while fuel' jpeg pos' buffers'
        | Throw e => Some (Throw e)
        end
    end
  else Some (Return buffers).

(** [ICCProfile.extractFromJPEG(jpeg)]; [Return None] is the [undefined]
    of a bare [return]. *)
Definition extractFromJPEG (jpeg : Buffer) : option (completion (option Buffer)) :=
  match jpeg_while (length jpeg) jpeg 2 [] with
  | None => None
  | Some (Throw e) => Some (Throw e)
  | Some (Return buffers) =>
      if Nat.eqb (length buffers) 0 then Some (Return None)
      else Some (Return (Some (concat buffers)))
  end.

(** [a === b] on strings *)
Definition str_eq (a b : jsstring) : bool := bool_decide (a = b).

(** ** extractFromPNG *)

(** How one turn of the chunk loop ends: on to the next chunk, [break],
    or [return iccProfile]. *)
Inductive png_turn : Type :=
| PngContinue (offset : Z)
| PngBreak
| PngReturn (iccProfile : Buffer).

Section ExtractFromPNG.

(** [zlib.inflateSync]: the inflated bytes, or the message of the error
    it throws. *)
Variable inflateSync : Buffer → jsstring + Buffer.

Definition png_body (pngBuffer : Buffer) (offset : Z) : completion png_turn :=
  chunkLength ← readUInt32BE pngBuffer offset;
  let chunkType := toString_ascii (slice pngBuffer (offset + 4) (offset + 8)) in
  if str_eq chunkType (js "IEND") then Return PngBreak
  else if str_eq chunkType (js "iCCP") then
    let dataStart := offset + 8 in
    let dataEnd := dataStart + chunkLength in
    let data := slice pngBuffer dataStart dataEnd in
    let nullPos := indexOf data 0 in
    if (nullPos =? -1) || (nullPos =? buf_length data - 1) then
      Throw (Error (js "Invalid iCCP chunk format"))
    else
      let compressionMethod := at_index data (nullPos + 1) in
      if negb (bool_decide (byte_val <$> compressionMethod = Some 0)) then
        Throw (Error (js "Unsupported compression method"))
      else
        let compressedProfile := slice_from data (nullPos + 2) in
        match inflateSync compressedProfile with
        | inr iccProfile => Return (PngReturn iccProfile)
        | inl message =>
            Throw (Error (js "Failed to decompress ICC profile: " ++ message))
        end
  else Return (PngContinue (offset + chunkLength + 12)).

Definition png_cond (pngBuffer : Buffer) (offset : Z) : bool :=
  offset <? buf_length pngBuffer.

(** The chunk loop; [None] when [fuel] turns do not reach its end.  A
    result [Return None] leaves the loop towards the [console.log]. *)
Fixpoint png_while (fuel : nat) (pngBuffer : Buffer) (offset : Z)
  : option (completion (option Buffer)) :=
  if png_cond pngBuffer offset then
    match fuel with
    | O => None
    | S fuel' =>
        match png_body pngBuffer offset with
        | Return (PngContinue offset') => png_while fuel' pngBuffer offset'
        | Return PngBreak => Some (Return None)
        | Return (PngReturn iccProfile) => Some (Return (Some iccProfile))
        | Throw e => Some (Throw e)
        end
    end
  else Some (Return None).

(** [ICCProfile.extractFromPNG(pngBuffer)]: what was written to the
    console, and the completion. *)
Definition extractFromPNG (pngBuffer : Buffer)
  : option (list jsstring * completion (option Buffer)) :=
  match png_while (length pngBuffer) pngBuffer 8 with
  | None => None
  | Some (Return None) => Some ([js "No iCCP chunk found"], Return None)
  | Some c => Some ([], c)
  end.

End ExtractFromPNG.

(** ** The decoder: constructor and _parse *)

Definition versionMap : gmap Z jsstring :=
  list_to_map [
    (0x02000000, js "2.0"); (0x02100000, js "2.1"); (0x02400000, js "2.4");
    (0x04000000, js "4.0"); (0x04200000, js "4.2"); (0x04300000, js "4.3")].

Definition intentMap : gmap Z jsstring :=
  list_to_map [
    (0, js "Perceptual"); (1, js "Relative");
    (2, js "Saturation"); (3, js "Absolute")].

Definition valueMap : gmap jsstring jsstring :=
  list_to_map [
    (js "scnr", js "Scanner"); (js "mntr", js "Monitor");
    (js "prtr", js "Printer"); (js "link", js "Link");
    (js "abst", js "Abstract"); (js "spac", js "Space");
    (js "nmcl", js "Named color");
    (js "appl", js "Apple"); (js "adbe", js "Adobe");
    (js "msft", js "Microsoft"); (js "sunw", js "Sun Microsystems");
    (js "sgi", js "Silicon Graphics"); (js "tgnt", js "Taligent")].

Definition tagMap : gmap jsstring jsstring :=
  list_to_map [
    (js "desc", js "description"); (js "cprt", js "copyright");
    (js "dmdd", js "deviceModelDescription");
    (js "vued", js "viewingConditionsDescription")].

(** [map[key]] read as a property value. *)
Definition get `{Countable K} (m : gmap K jsstring) (key : K) : value :=
  match m !! key with
  | Some s => VString s
  | None => VUndefined
  end.

(** The strings read here have at most four code units and the values of
    [valueMap] are no property of [Object.prototype], so [in] is a lookup
    among the object's own keys. *)
Definition getContentAtOffsetAsString (buffer : Buffer) (offset : Z) : jsstring :=
  let value := trim (toString (slice buffer offset (offset + 4))) in
  match valueMap !! toLowerCase value with
  | Some name => name
  | None => value
  end.

Definition hasContentAtOffset (buffer : Buffer) (offset : Z) : completion bool :=
  v ← readUInt32BE buffer offset;
  Return (negb (v =? 0)).

(** The loop of [readStringUTF16BE] over [data], two bytes a turn.  With
    an odd length the last turn reads [data[i + 1]] as [undefined]: the
    sum is [NaN], and [String.fromCharCode(NaN)] is the code unit 0. *)
Fixpoint utf16be_units (data : Buffer) : jsstring :=
  match data with
  | hi :: lo :: rest =>
      fromCharCode (byte_val hi * 256 + byte_val lo) ++ utf16be_units rest
  | [_] => [0]
  | [] => []
  end.

Definition readStringUTF16BE (buffer : Buffer) (start end_ : Z) : jsstring :=
  let data := slice buffer start end_ in
  utf16be_units data.

Definition invalid (reason : jsstring) : exn :=
  Error (js "Invalid ICC profile: " ++ reason).

Definition fourByteAttributes : list (Z * jsstring) :=
  [ (4, js "cmm"); (12, js "deviceClass"); (16, js "colorSpace");
    (20, js "connectionSpace"); (40, js "platform");
    (48, js "manufacturer"); (52, js "model"); (80, js "creator") ].

(** The [forEach] over the four-byte string attributes. *)
Fixpoint forEach_attr (attrs : list (Z * jsstring)) (buffer : Buffer)
    (profile : gmap jsstring value) : completion (gmap jsstring value) :=
  match attrs with
  | [] => Return profile
  | attr :: rest =>
      has ← hasContentAtOffset buffer attr.1;
      let profile :=
        if (has : bool) then
          <[attr.2 := VString (getContentAtOffsetAsString buffer attr.1)]> profile
        else profile in
      forEach_attr rest buffer profile
  end.

(** The body of the [for] loop over the tag table, up to the update of
    [tagHeaderOffset]. *)
Definition tag_body (buffer : Buffer) (tagHeaderOffset : Z)
    (profile : gmap jsstring value) : completion (gmap jsstring value) :=
  let tagSignature := getContentAtOffsetAsString buffer tagHeaderOffset in
  match tagMap !! tagSignature with
  | None => Return profile
  | Some attribute =>
      tagOffset ← readUInt32BE buffer (tagHeaderOffset + 4);
      tagSize ← readUInt32BE buffer (tagHeaderOffset + 8);
      if buf_length buffer <? tagOffset then
        Throw (invalid (js "tag offset out of bounds"))
      else
        let tagType := getContentAtOffsetAsString buffer tagOffset in
        (* desc *)
        profile ←
          (if str_eq tagType (js "desc") then
             tagValueSize ← readUInt32BE buffer (tagOffset + 8);
             if tagSize <? tagValueSize then
               Throw (invalid (js "description tag value size out of bounds for "
                               ++ tagSignature))
             else
               Return (<[attribute :=
                          VString (toString (slice buffer (tagOffset + 12)
                                               (tagOffset + tagValueSize + 11)))]>
                         profile)
           else Return profile);
        (* text *)
        let profile :=
          if str_eq tagType (js "text") then
            <[attribute :=
               VString (toString (slice buffer (tagOffset + 8)
                                    (tagOffset + tagSize - 7)))]> profile
          else profile in
        if str_eq tagType (js "mluc") && bool_decide (is_Some (tagMap !! tagSignature))
        then
          numberOfNames ← readUInt32BE buffer (tagOffset + 8);
          nameRecordSize ← readUInt32BE buffer (tagOffset + 12);
          if negb (nameRecordSize =? 12) then
            Throw (invalid (js "mluc name record size must be 12 for tag "
                            ++ tagSignature))
          else if 0 <? numberOfNames then
            nameLength ← readUInt32BE buffer (tagOffset + 20);
            nameOffset ← readUInt32BE buffer (tagOffset + 24);
            let nameStart := tagOffset + nameOffset in
            let nameStop := nameStart + nameLength in
            Return (<[attribute :=
                       VString (readStringUTF16BE buffer nameStart nameStop)]>
                      profile)
          else Return profile
        else Return profile
  end.

(** [for (let i = 0; i < tagCount; i++)], [count] turns left. *)
Fixpoint tags_for (count : nat) (buffer : Buffer) (tagHeaderOffset : Z)
    (profile : gmap jsstring value) : completion (gmap jsstring value) :=
  match count with
  | O => Return profile
  | S count' =>
      profile' ← tag_body buffer tagHeaderOffset profile;
      tags_for count' buffer (tagHeaderOffset + 12) profile'
  end.

Definition parse (buffer : Buffer) : completion (gmap jsstring value) :=
  (* Verify expected length *)
  size ← readUInt32BE buffer 0;
  if negb (size =? buf_length buffer) then Throw (invalid (js "length mismatch"))
  else
    (* Verify 'acsp' signature *)
    let signature := toString (slice buffer 36 40) in
    if negb (str_eq signature (js "acsp")) then
      Throw (invalid (js "missing signature"))
    else
      (* Integer attributes *)
      version ← readUInt32BE buffer 8;
      intent ← readUInt32BE buffer 64;
      let profile : gmap jsstring value :=
        <[js "intent" := get intentMap intent]>
          (<[js "version" := get versionMap version]> ∅) in
      (* Four-byte string attributes *)
      profile ← forEach_attr fourByteAttributes buffer profile;
      (* Tags *)
      tagCount ← readUInt32BE buffer 128;
      tags_for (Z.to_nat tagCount) buffer 132 profile.

(** An [ICCProfile] object: [this.buffer] and [this.data]. *)
Record ICCProfile : Type := {
  buffer : Buffer;
  data : gmap jsstring value
}.

Definition _parse (this_buffer : Buffer) : completion (gmap jsstring value) :=
  parse this_buffer.

(** [new ICCProfile(buffer)] *)
Definition constructor (buffer : Buffer) : completion ICCProfile :=
  data ← _parse buffer;
  Return {| buffer := buffer; data := data |}.

(** ** Container framing and test vectors *)

(** Big-endian fields, as the containers store them. *)
Definition be16 (n : Z) : Buffer := [byte_of (n / 2 ^ 8); byte_of (n mod 2 ^ 8)].
Definition be32 (n : Z) : Buffer :=
  [byte_of (n / 2 ^ 24); byte_of (n / 2 ^ 16 mod 2 ^ 8);
   byte_of (n / 2 ^ 8 mod 2 ^ 8); byte_of (n mod 2 ^ 8)].

Definition zeros (n : nat) : Buffer := replicate n Byte.x00.

(** A JPEG marker segment: the second byte of its marker (the first is
    0xFF) and the payload after the two-byte length field. *)
Record segment : Type := Segment {
  marker_code : byte;
  payload : Buffer
}.

Definition encode_segment (s : segment) : Buffer :=
  [Byte.xff; marker_code s] ++ be16 (buf_length (payload s) + 2) ++ payload s.

Definition encode_segments (segs : list segment) : Buffer :=
  concat (map encode_segment segs).

(** The length field has two bytes. *)
Definition segment_fits (s : segment) : Prop :=
  buf_length (payload s) + 2 < 65536.

(** An APP2 segment whose payload starts with the bytes of ICC_PROFILE. *)
Definition is_icc_segment (s : segment) : bool :=
  bool_decide (marker_code s = Byte.xe2)
  && bool_decide (take 11 (payload s) = bytes "ICC_PROFILE").

(** An APP2 segment whose payload starts with ICC_PROFILE once the top
    bit of each byte is cleared, which is what the scan compares. *)
Definition is_icc_segment_ascii (s : segment) : bool :=
  bool_decide (marker_code s = Byte.xe2)
  && startsWith (asciiSlice (payload s)) (js "ICC_PROFILE").

(** The fragment of a segment: its payload from byte 14 on. *)
Definition fragment (s : segment) : Buffer := drop 14 (payload s).

(** What may follow the last segment: nothing, or up to four bytes
    starting a marker (the end-of-image marker). *)
Definition jpeg_tail (tail : Buffer) : Prop :=
  (length tail ≤ 4)%nat ∧ (tail = [] ∨ head tail = Some Byte.xff).

(** The segment at [pos] of any buffer is taken for an ICC fragment. *)
Definition icc_at (jpeg : Buffer) (pos : Z) : bool :=
  match readUInt16BE jpeg pos with
  | Return marker =>
      (marker =? 0xffe2)
      && startsWith (toString_ascii_range jpeg (pos + 4) (pos + 18)) (js "ICC_PROFILE")
  | Throw _ => false
  end.

(** The bytes collected from the segment at [pos]: from 18 bytes after
    the marker to the end the length field gives, within the buffer. *)
Definition fragment_at (jpeg : Buffer) (pos : Z) : Buffer :=
  match readUInt16BE jpeg (pos + 2) with
  | Return len => slice jpeg (pos + 18) (pos + len + 2)
  | Throw _ => []
  end.

(** The segment headers of any buffer: the positions chained from [pos]
    by the length fields, while more than four bytes remain. *)
Fixpoint jpeg_chain (fuel : nat) (jpeg : Buffer) (pos : Z) : list Z :=
  match fuel with
  | O => []
  | S fuel' =>
      if buf_length jpeg - pos <=? 4 then []
      else
        match readUInt16BE jpeg (pos + 2) with
        | Return len => pos :: jpeg_chain fuel' jpeg (pos + len + 2)
        | Throw _ => [pos]
        end
  end.

(** A PNG chunk. *)
Record chunk : Type := Chunk {
  chunk_type : Buffer;
  chunk_data : Buffer;
  chunk_crc : Buffer
}.

Definition encode_chunk (c : chunk) : Buffer :=
  be32 (buf_length (chunk_data c)) ++ chunk_type c ++ chunk_data c ++ chunk_crc c.

Definition encode_chunks (cs : list chunk) : Buffer :=
  concat (map encode_chunk cs).

Definition is_letter (b : byte) : Prop :=
  65 ≤ byte_val b ≤ 90 ∨ 97 ≤ byte_val b ≤ 122.

(** Well-formed framing of one chunk: a type of four ASCII letters, a
    length that fits the four-byte field, a four-byte CRC. *)
Definition chunk_wf (c : chunk) : Prop :=
  length (chunk_type c) = 4%nat ∧ Forall is_letter (chunk_type c)
  ∧ buf_length (chunk_data c) < 2 ^ 32 ∧ length (chunk_crc c) = 4%nat.

(** The chunk headers of any buffer: the offsets chained from [offset]
    by the length fields, up to IEND or the end of the buffer. *)
Fixpoint png_chain (fuel : nat) (png : Buffer) (offset : Z) : list Z :=
  match fuel with
  | O => []
  | S fuel' =>
      if buf_length png <=? offset then []
      else
        match readUInt32BE png offset with
        | Return chunkLength =>
            if bool_decide (asciiSlice (slice png (offset + 4) (offset + 8)) = js "IEND")
            then [offset]
            else offset :: png_chain fuel' png (offset + chunkLength + 12)
        | Throw _ => [offset]
        end
  end.

(** The type field of the chunk header at [offset] reads iCCP. *)
Definition iccp_at (png : Buffer) (offset : Z) : bool :=
  bool_decide (asciiSlice (slice png (offset + 4) (offset + 8)) = js "iCCP").

(** Test vectors. *)

(** SOI, one APP2 ICC_PROFILE segment of length 20 carrying DATA, EOI. *)
Definition jpeg_one_fragment : Buffer :=
  [Byte.xff; Byte.xd8]
  ++ encode_segment (Segment Byte.xe2 (bytes "ICC_PROFILE" ++ [Byte.x00; Byte.x01; Byte.x01] ++ bytes "DATA"))
  ++ [Byte.xff; Byte.xd9].

(** SOI and a segment with an empty payload: four bytes after SOI. *)
Definition jpeg_four_left : Buffer :=
  [Byte.xff; Byte.xd8] ++ encode_segment (Segment Byte.xfe []).

(** SOI and an APP2 ICC_PROFILE segment whose length field says 256
    while only 18 bytes follow it. *)
Definition jpeg_truncated : Buffer :=
  [Byte.xff; Byte.xd8; Byte.xff; Byte.xe2] ++ be16 256
  ++ bytes "ICC_PROFILE" ++ [Byte.x00; Byte.x01; Byte.x01] ++ bytes "DATA".

(** SOI, an APP2 ICC_PROFILE segment carrying DATA, an APP2 segment whose
    payload starts with 0xC9 (the letter I with its top bit set) followed
    by CC_PROFILE, carrying MORE, EOI. *)
Definition jpeg_segment_genuine : segment :=
  Segment Byte.xe2 (bytes "ICC_PROFILE" ++ [Byte.x00; Byte.x01; Byte.x01] ++ bytes "DATA").
Definition jpeg_segment_high_bit : segment :=
  Segment Byte.xe2 ([Byte.xc9] ++ bytes "CC_PROFILE" ++ [Byte.x00; Byte.x01; Byte.x01] ++ bytes "MORE").
Definition jpeg_high_bit : Buffer :=
  [Byte.xff; Byte.xd8]
  ++ encode_segments [jpeg_segment_genuine; jpeg_segment_high_bit]
  ++ [Byte.xff; Byte.xd9].

Definition png_signature : Buffer :=
  [Byte.x89; Byte.x50; Byte.x4e; Byte.x47; Byte.x0d; Byte.x0a; Byte.x1a; Byte.x0a].

Definition png_IHDR : chunk :=
  Chunk (bytes "IHDR") (zeros 13) (zeros 4).

(** The signature, an IHDR chunk, and two stray bytes where the next
    chunk header should be: no iCCP chunk, truncated framing. *)
Definition png_truncated : Buffer :=
  png_signature ++ encode_chunk png_IHDR ++ [Byte.x00; Byte.x00].

(** The signature, IHDR and IEND: no iCCP chunk, sound framing. *)
Definition png_plain : Buffer :=
  png_signature ++ encode_chunk png_IHDR ++ encode_chunk (Chunk (bytes "IEND") [] (zeros 4)).

(** A stand-in for [zlib.inflateSync] where the payload is never
    inflated: it rejects everything. *)
Definition inflate_rejects : Buffer → jsstring + Buffer :=
  λ _, inl (js "incorrect header check").

(** A stand-in that accepts stored data as it is. *)
Definition inflate_stored : Buffer → jsstring + Buffer :=
  λ compressed, inr compressed.

(** The signature, IHDR, an iCCP chunk named "sRGB" whose payload is
    PROFILE, then bytes that are no chunk at all. *)
Definition png_with_iCCP : Buffer :=
  png_signature ++ encode_chunks [png_IHDR]
  ++ encode_chunk (Chunk (bytes "iCCP")
                     (bytes "sRGB" ++ [Byte.x00; Byte.x00] ++ bytes "PROFILE")
                     (zeros 4))
  ++ [Byte.xff].

(** ** Outcomes of the decoder *)

Definition tag_signatures : list jsstring :=
  [js "desc"; js "cprt"; js "dmdd"; js "vued"].

Definition tag_attributes : list jsstring :=
  [js "description"; js "copyright"; js "deviceModelDescription";
   js "viewingConditionsDescription"].



(** An ICC profile for tests: the size field, then [fields] (everything
    from offset 4 on). *)
Definition icc_of (fields : Buffer) : Buffer :=
  be32 (4 + buf_length fields) ++ fields.

(** The header fields from offset 4 to 127, all zero but the signature
    and the given device class (offset 12), colour space (offset 16) and
    manufacturer (offset 48). *)
Definition icc_header (deviceClass colorSpace manufacturer : Buffer) : Buffer :=
  zeros 8 ++ deviceClass ++ colorSpace ++ zeros 16 ++ bytes "acsp"
  ++ zeros 8 ++ manufacturer ++ zeros 76.



(** The value of a four-byte code, from its bytes: what
    [getContentAtOffsetAsString] computes from the slice. *)
Definition code_value (code : Buffer) : jsstring :=
  let value := trim (toString code) in
  match valueMap !! toLowerCase value with
  | Some name => name
  | None => value
  end.

(** The value of a four-byte code as the specification words it: each
    byte a character, trailing spaces and nulls stripped, then the
    case-insensitive lookup. *)
Fixpoint strip_start (s : jsstring) : jsstring :=
  match s with
  | c :: s' => if (c =? 0x20) || (c =? 0) then strip_start s' else s
  | [] => []
  end.

Definition code_value_spec (code : Buffer) : jsstring :=
  let value := rev (strip_start (rev (map byte_val code))) in
  match valueMap !! toLowerCase value with
  | Some name => name
  | None => value
  end.

(** An ASCII letter in lower case. *)
Definition ascii_lower (b : byte) : Z :=
  let v := byte_val b in
  if (65 <=? v) && (v <=? 90) then v + 32 else v.

(** A profile of 132 bytes with no tags: device class MnTr, colour space
    "RGB " and manufacturer "HP" padded with two nulls. *)
Definition icc_plain : Buffer :=
  icc_of (icc_header (bytes "MnTr") (bytes "RGB ") (bytes "HP" ++ zeros 2)
          ++ be32 0).

(** The recognised tag signatures with the attribute each one sets. *)
Definition recognized_tags : list (string * string) :=
  [ ("desc", "description"); ("cprt", "copyright");
    ("dmdd", "deviceModelDescription");
    ("vued", "viewingConditionsDescription") ]%string.

(** A profile with one tag-table entry ([signature], data at offset 144,
    declared size [tagSize]) and the tag data [tagData]. *)
Definition icc_one_tag (signature : string) (tagSize : Z) (tagData : Buffer) : Buffer :=
  icc_of (icc_header (bytes "mntr") (bytes "RGB ") (zeros 4)
          ++ be32 1 ++ bytes signature ++ be32 144 ++ be32 tagSize ++ tagData).

(** A desc entry of type mluc with one name record: "Hi" in UTF-16BE at
    offset 28 of the tag. *)
Definition icc_mluc : Buffer :=
  icc_one_tag "desc" 32
    (bytes "mluc" ++ zeros 4 ++ be32 1 ++ be32 12
     ++ bytes "enUS" ++ be32 4 ++ be32 28
     ++ [Byte.x00; byte_of 72; Byte.x00; byte_of 105]).

(** A desc entry of type desc: declared size 12, value size 100, and
    five bytes of text before the buffer ends. *)
Definition icc_desc_oversize : Buffer :=
  icc_one_tag "desc" 12 (bytes "desc" ++ zeros 4 ++ be32 100 ++ bytes "Hello").

(** A cprt entry of type text: declared size 64, and nine bytes of text
    before the buffer ends. *)
Definition icc_text_truncated : Buffer :=
  icc_one_tag "cprt" 64 (bytes "text" ++ zeros 4 ++ bytes "Copyright").

(** A cprt entry of type desc: value size 10 and the nine bytes of
    "Copyright" with their terminator. *)
Definition icc_desc_copyright : Buffer :=
  icc_one_tag "cprt" 22
    (bytes "desc" ++ zeros 4 ++ be32 10 ++ bytes "Copyright" ++ zeros 1).

(** mluc entries with no name, and with a name record size of 10. *)
Definition icc_mluc_no_name : Buffer :=
  icc_one_tag "desc" 16 (bytes "mluc" ++ zeros 4 ++ be32 0 ++ be32 12).
Definition icc_mluc_record_10 : Buffer :=
  icc_one_tag "desc" 16 (bytes "mluc" ++ zeros 4 ++ be32 1 ++ be32 10).

(** An mluc entry with no name whose data ends after the number of
    names: the buffer has 156 bytes, and the record size would start at
    byte 156. *)
Definition icc_mluc_zero_names : Buffer :=
  icc_one_tag "desc" 12 (bytes "mluc" ++ zeros 4 ++ be32 0).

(** An mluc entry whose name record declares 100 bytes at offset 28 of
    the tag, where the buffer has the four bytes of "Hi" in UTF-16BE and
    ends. *)
Definition icc_mluc_name_clamped : Buffer :=
  icc_one_tag "desc" 128
    (bytes "mluc" ++ zeros 4 ++ be32 1 ++ be32 12
     ++ bytes "enUS" ++ be32 100 ++ be32 28
     ++ [Byte.x00; byte_of 72; Byte.x00; byte_of 105]).

(** An entry whose data offset is far past the buffer end. *)
Definition icc_tag_offset_past_end : Buffer :=
  icc_of (icc_header (bytes "mntr") (bytes "RGB ") (zeros 4)
          ++ be32 1 ++ bytes "desc" ++ be32 4096 ++ be32 16).

(** The attribute [name] of a decode that returned. *)
Definition attribute_of (c : completion (gmap jsstring value)) (name : string)
  : option value :=
  match c with
  | Return profile => profile !! js name
  | Throw _ => None
  end.
(** ** Further definitions for the properties beyond the claims *)

(** An APP2 segment carrying one piece of a profile: the literal, three
    header bytes (its terminator and the two sequence fields) and the
    piece. *)
Definition icc_segment (part : Buffer * Buffer) : segment :=
  Segment Byte.xe2 (bytes "ICC_PROFILE" ++ part.1 ++ part.2).

(** What a call of [extractFromPNG] can end in: "none" after the log
    line, the output of the decompressor, the runtime's [RangeError], or
    one of the three errors the function throws itself. *)
Definition png_outcome (inflateSync : Buffer → jsstring + Buffer)
    (r : list jsstring * completion (option Buffer)) : Prop :=
  r = ([js "No iCCP chunk found"], Return None)
  ∨ (∃ compressed iccProfile,
       inflateSync compressed = inr iccProfile
       ∧ r = ([], Return (Some iccProfile)))
  ∨ r = ([], Throw RangeError)
  ∨ r = ([], Throw (Error (js "Invalid iCCP chunk format")))
  ∨ r = ([], Throw (Error (js "Unsupported compression method")))
  ∨ (∃ compressed message,
       inflateSync compressed = inl message
       ∧ r = ([], Throw (Error (js "Failed to decompress ICC profile: "
                                ++ message)))).

(** The signature, IHDR, IEND, and an iCCP chunk after it. *)
Definition png_iCCP_after_IEND : Buffer :=
  png_signature ++ encode_chunks [png_IHDR]
  ++ encode_chunk (Chunk (bytes "IEND") [] (zeros 4))
  ++ encode_chunk (Chunk (bytes "iCCP")
                     (bytes "sRGB" ++ [Byte.x00; Byte.x00] ++ bytes "PROFILE")
                     (zeros 4)).

(** iCCP chunks after IHDR: a name with no terminator, and a
    compression method of 1. *)
Definition png_iCCP_no_terminator : Buffer :=
  png_signature ++ encode_chunks [png_IHDR]
  ++ encode_chunk (Chunk (bytes "iCCP") (bytes "sRGB") (zeros 4))
  ++ [].
Definition png_iCCP_method_1 : Buffer :=
  png_signature ++ encode_chunks [png_IHDR]
  ++ encode_chunk (Chunk (bytes "iCCP")
                     (bytes "sRGB" ++ [Byte.x00; Byte.x01] ++ bytes "PROFILE")
                     (zeros 4))
  ++ [].

(** The fourteen attribute names a decoded profile can have. *)
Definition recognized_fields : list jsstring :=
  [js "version"; js "intent"] ++ map snd fourByteAttributes ++ tag_attributes.

(** An entry of a decoded profile: a recognised name, and a string
    unless the name is version or intent. *)
Definition field_ok (key : jsstring) (v : value) : Prop :=
  In key recognized_fields
  ∧ (v = VUndefined → key = js "version" ∨ key = js "intent").

(** The reasons thrown from within the tag loop. *)
Definition tag_reasons : list jsstring :=
  [js "tag offset out of bounds"]
  ++ map (λ sig, js "description tag value size out of bounds for " ++ sig)
       tag_signatures
  ++ map (λ sig, js "mluc name record size must be 12 for tag " ++ sig)
       tag_signatures.

(** Four bytes saying 4, and nothing else. *)
Definition icc_four_bytes : Buffer := be32 4.

(** A profile of 132 bytes whose tag count says 1000. *)
Definition icc_count_without_table : Buffer :=
  icc_of (icc_header (bytes "mntr") (bytes "RGB ") (zeros 4) ++ be32 1000).

(** A profile whose only entry has an unknown signature and a data
    offset far past the end. *)
Definition icc_unknown_tag : Buffer :=
  icc_of (icc_header (bytes "mntr") (bytes "RGB ") (zeros 4)
          ++ be32 1 ++ bytes "wtpt" ++ be32 4096 ++ be32 20).

(** A desc entry whose data offset is exactly the buffer length. *)
Definition icc_tag_offset_at_end : Buffer :=
  icc_of (icc_header (bytes "mntr") (bytes "RGB ") (zeros 4)
          ++ be32 1 ++ bytes "desc" ++ be32 144 ++ be32 16).

(** A cprt entry of type text, declared size 24, with the nine bytes of
    "Copyright", a terminator and six bytes more. *)
Definition icc_text_copyright : Buffer :=
  icc_one_tag "cprt" 24
    (bytes "text" ++ zeros 4 ++ bytes "Copyright" ++ zeros 7).

(** The CMM field reads "text", and a cprt entry points at it (data
    offset 4) with declared size 0. *)
Definition icc_text_at_cmm : Buffer :=
  icc_of (bytes "text" ++ zeros 4 ++ bytes "mntr" ++ bytes "RGB " ++ zeros 16
          ++ bytes "acsp" ++ zeros 88
          ++ be32 1 ++ bytes "cprt" ++ be32 4 ++ be32 0).

(** * Properties *)

(** ** The runtime model *)

Lemma byte_val_range (b : byte) : 0 ≤ byte_val b < 256.
Proof.
  unfold byte_val. pose proof (Byte.to_N_bounded b). lia.
Qed.

Lemma at_index_is_Some (buf : Buffer) (i : Z) :
  0 ≤ i < buf_length buf → is_Some (at_index buf i).
Proof.
  intros Hi. unfold at_index, buf_length in *.
  destruct (Z.ltb_spec i 0); [lia|].
  apply lookup_lt_is_Some. lia.
Qed.

Lemma at_index_None (buf : Buffer) (i : Z) :
  i < 0 ∨ buf_length buf ≤ i → at_index buf i = None.
Proof.
  intros Hi. unfold at_index, buf_length in *.
  destruct (Z.ltb_spec i 0); [done|].
  apply lookup_ge_None. lia.
Qed.

Lemma readUInt16BE_in (buf : Buffer) (offset : Z) :
  0 ≤ offset → offset + 2 ≤ buf_length buf →
  ∃ v, readUInt16BE buf offset = Return v ∧ 0 ≤ v < 65536.
Proof.
  intros H0 Hlen. unfold readUInt16BE.
  destruct (at_index_is_Some buf offset) as [b0 ->]; [lia|].
  destruct (at_index_is_Some buf (offset + 1)) as [b1 ->]; [lia|].
  eexists; split; [done|].
  pose proof (byte_val_range b0). pose proof (byte_val_range b1). lia.
Qed.

Lemma readUInt32BE_in (buf : Buffer) (offset : Z) :
  0 ≤ offset → offset + 4 ≤ buf_length buf →
  ∃ v, readUInt32BE buf offset = Return v ∧ 0 ≤ v < 2 ^ 32.
Proof.
  intros H0 Hlen. unfold readUInt32BE.
  destruct (at_index_is_Some buf offset) as [b0 ->]; [lia|].
  destruct (at_index_is_Some buf (offset + 3)) as [b3 ->]; [lia|].
  destruct (at_index_is_Some buf (offset + 1)) as [b1 ->]; [lia|].
  destruct (at_index_is_Some buf (offset + 2)) as [b2 ->]; [lia|].
  eexists; split; [done|].
  pose proof (byte_val_range b0). pose proof (byte_val_range b1).
  pose proof (byte_val_range b2). pose proof (byte_val_range b3). lia.
Qed.

Lemma readUInt32BE_out (buf : Buffer) (offset : Z) :
  buf_length buf < offset + 4 → readUInt32BE buf offset = Throw RangeError.
Proof.
  intros Hlen. unfold readUInt32BE.
  rewrite (at_index_None buf (offset + 3)) by lia.
  by destruct (at_index buf offset).
Qed.

Lemma readUInt32BE_range (buf : Buffer) (offset v : Z) :
  readUInt32BE buf offset = Return v →
  0 ≤ v < 2 ^ 32 ∧ 0 ≤ offset ∧ offset + 4 ≤ buf_length buf.
Proof.
  intros Hr.
  destruct (Z.lt_ge_cases (buf_length buf) (offset + 4)) as [Hlt|Hge].
  { by rewrite readUInt32BE_out in Hr. }
  destruct (Z.lt_ge_cases offset 0) as [Hneg|Hpos].
  { unfold readUInt32BE in Hr. by rewrite (at_index_None buf offset) in Hr by lia. }
  destruct (readUInt32BE_in buf offset) as (v' & Hv' & ?); [lia..|].
  rewrite Hr in Hv'. injection Hv' as ->. lia.
Qed.

Lemma byte_val_of (n : Z) : 0 ≤ n < 256 → byte_val (byte_of n) = n.
Proof.
  intros Hn. unfold byte_val, byte_of.
  destruct (Byte.of_N (Z.to_N n)) as [b|] eqn:Hb.
  - apply Byte.to_of_N in Hb. lia.
  - apply Byte.of_N_None_iff in Hb. lia.
Qed.

Lemma byte_val_inj (a b : byte) : byte_val a = byte_val b → a = b.
Proof.
  unfold byte_val. intros H. apply N2Z.inj in H.
  pose proof (Byte.of_to_N a) as Ha. pose proof (Byte.of_to_N b) as Hb.
  congruence.
Qed.

Lemma js_bytes (s : string) : js s = map byte_val (bytes s).
Proof. reflexivity. Qed.

Lemma map_byte_val_inj (a b : Buffer) :
  map byte_val a = map byte_val b → a = b.
Proof.
  revert b. induction a as [|x a IH]; intros [|y b] H; try done.
  simpl in H. injection H as Hx Hab. f_equal; [by apply byte_val_inj|by apply IH].
Qed.

Lemma buf_length_app (a b : Buffer) :
  buf_length (a ++ b) = buf_length a + buf_length b.
Proof. unfold buf_length. rewrite length_app. lia. Qed.

Lemma buf_length_nonneg (a : Buffer) : 0 ≤ buf_length a.
Proof. unfold buf_length. lia. Qed.

Lemma at_index_app (pre l : Buffer) (i k : Z) :
  i = buf_length pre + k → 0 ≤ k → at_index (pre ++ l) i = at_index l k.
Proof.
  intros -> Hk. unfold at_index, buf_length.
  destruct (Z.ltb_spec (Z.of_nat (length pre) + k) 0); [lia|].
  destruct (Z.ltb_spec k 0); [lia|].
  rewrite lookup_app_r by lia. f_equal. lia.
Qed.

Lemma readUInt16BE_app (pre rest : Buffer) (b0 b1 : byte) (pos : Z) :
  pos = buf_length pre →
  readUInt16BE (pre ++ b0 :: b1 :: rest) pos
  = Return (byte_val b0 * 2 ^ 8 + byte_val b1).
Proof.
  intros ->. unfold readUInt16BE.
  rewrite (at_index_app pre _ (buf_length pre) 0) by lia.
  rewrite (at_index_app pre _ (buf_length pre + 1) 1) by lia.
  reflexivity.
Qed.

Lemma readUInt32BE_app (pre rest : Buffer) (b0 b1 b2 b3 : byte) (pos : Z) :
  pos = buf_length pre →
  readUInt32BE (pre ++ b0 :: b1 :: b2 :: b3 :: rest) pos
  = Return (byte_val b0 * 2 ^ 24 + byte_val b1 * 2 ^ 16
            + byte_val b2 * 2 ^ 8 + byte_val b3).
Proof.
  intros ->. unfold readUInt32BE.
  rewrite (at_index_app pre _ (buf_length pre) 0) by lia.
  rewrite (at_index_app pre _ (buf_length pre + 1) 1) by lia.
  rewrite (at_index_app pre _ (buf_length pre + 2) 2) by lia.
  rewrite (at_index_app pre _ (buf_length pre + 3) 3) by lia.
  reflexivity.
Qed.

Lemma readUInt16BE_be16 (pre rest : Buffer) (n pos : Z) :
  pos = buf_length pre → 0 ≤ n < 65536 →
  readUInt16BE (pre ++ be16 n ++ rest) pos = Return n.
Proof.
  intros Hpos Hn.
  change (be16 n ++ rest) with (byte_of (n / 256) :: byte_of (n mod 256) :: rest).
  rewrite readUInt16BE_app by done.
  rewrite !byte_val_of by (Z.div_mod_to_equations; lia).
  f_equal. change (2 ^ 8) with 256. Z.div_mod_to_equations. lia.
Qed.

Lemma readUInt32BE_be32 (pre rest : Buffer) (n pos : Z) :
  pos = buf_length pre → 0 ≤ n < 2 ^ 32 →
  readUInt32BE (pre ++ be32 n ++ rest) pos = Return n.
Proof.
  intros Hpos Hn. change (2 ^ 32) with 4294967296 in Hn.
  change (be32 n ++ rest)
    with (byte_of (n / 16777216) :: byte_of (n / 65536 mod 256)
          :: byte_of (n / 256 mod 256) :: byte_of (n mod 256) :: rest).
  rewrite readUInt32BE_app by done.
  rewrite !byte_val_of by (Z.div_mod_to_equations; lia).
  f_equal. change (2 ^ 8) with 256. change (2 ^ 16) with 65536.
  change (2 ^ 24) with 16777216. Z.div_mod_to_equations. lia.
Qed.

(** With indices that are not negative, a slice is a [take] of a [drop]:
    only the clamping to the buffer end is left. *)
Lemma slice_nonneg (buf : Buffer) (start end_ : Z) :
  0 ≤ start → 0 ≤ end_ →
  slice buf start end_
  = take (Z.to_nat (end_ - start)) (drop (Z.to_nat start) buf).
Proof.
  intros Hs He. unfold slice, adjust_offset, buf_length.
  destruct (Z.ltb_spec start 0); [lia|].
  destruct (Z.ltb_spec end_ 0); [lia|].
  destruct (Z.le_gt_cases (Z.of_nat (length buf)) start) as [Hge|Hlt].
  - rewrite (Z.min_r start) by lia.
    rewrite !drop_ge by lia. by rewrite !take_nil.
  - rewrite (Z.min_l start) by lia.
    destruct (Z.le_gt_cases end_ (Z.of_nat (length buf))).
    + by rewrite (Z.min_l end_) by lia.
    + rewrite (Z.min_r end_) by lia.
      rewrite !take_ge; [done|rewrite length_drop; lia..].
Qed.

Lemma toString_ascii_range_nonneg (buf : Buffer) (start end_ : Z) :
  0 ≤ start →
  toString_ascii_range buf start end_
  = asciiSlice (take (Z.to_nat (end_ - start)) (drop (Z.to_nat start) buf)).
Proof.
  intros Hs. unfold toString_ascii_range, buf_length.
  assert ((if start <=? 0 then 0 else start) = start) as ->.
  { destruct (Z.leb_spec start 0); lia. }
  repeat (match goal with
          | |- context [Z.ltb ?a ?b] => destruct (Z.ltb_spec a b)
          | |- context [Z.leb ?a ?b] => destruct (Z.leb_spec a b)
          end; simpl in *); try lia;
    first [ done
          | rewrite drop_ge by lia; by rewrite take_nil
          | by replace (Z.to_nat (end_ - start)) with 0%nat by lia
          | f_equal; rewrite !take_ge; [done|rewrite length_drop; lia..] ].
Qed.

Lemma drop_app_buf (pre l : Buffer) (pos k : Z) :
  pos = buf_length pre + k → 0 ≤ k →
  drop (Z.to_nat pos) (pre ++ l) = drop (Z.to_nat k) l.
Proof.
  intros -> Hk. unfold buf_length.
  replace (Z.to_nat (Z.of_nat (length pre) + k)) with (length pre + Z.to_nat k)%nat by lia.
  by rewrite drop_app_add.
Qed.

(** ** The JPEG scan *)

(** One turn of the JPEG loop never throws: both reads are inside the
    buffer whenever the loop condition holds. *)
Lemma jpeg_body_Return (jpeg : Buffer) (pos : Z) (buffers : list Buffer) :
  0 ≤ pos → jpeg_cond jpeg pos = true →
  ∃ marker len buffers',
    readUInt16BE jpeg pos = Return marker ∧
    readUInt16BE jpeg (pos + 2) = Return len ∧ 0 ≤ len < 65536 ∧
    jpeg_body jpeg pos buffers = Return (pos + len + 2, buffers').
Proof.
  intros H0 Hc. unfold jpeg_cond in Hc. apply Z.ltb_lt in Hc.
  destruct (readUInt16BE_in jpeg pos) as (marker & Hm & _); [lia..|].
  destruct (readUInt16BE_in jpeg (pos + 2)) as (len & Hl & Hrange); [lia..|].
  unfold jpeg_body. rewrite Hm, Hl. simpl.
  exists marker, len. eexists. split_and!; try reflexivity; lia.
Qed.

Lemma jpeg_while_Return (jpeg : Buffer) (fuel : nat) :
  ∀ pos buffers,
    0 ≤ pos → buf_length jpeg - 4 - pos ≤ 2 * Z.of_nat fuel →
    ∃ r, jpeg_while fuel jpeg pos buffers = Some (Return r).
Proof.
  induction fuel as [|fuel IH]; intros pos buffers H0 Hfuel; simpl.
  - destruct (jpeg_cond jpeg pos) eqn:Hc; [|eauto].
    unfold jpeg_cond in Hc. apply Z.ltb_lt in Hc. lia.
  - destruct (jpeg_cond jpeg pos) eqn:Hc; [|eauto].
    destruct (jpeg_body_Return jpeg pos buffers H0 Hc)
      as (marker & len & buffers' & _ & _ & Hlen & ->).
    apply IH; lia.
Qed.

Lemma jpeg_while_fuel (jpeg : Buffer) (fuel : nat) :
  ∀ pos buffers r,
    jpeg_while fuel jpeg pos buffers = Some r →
    ∀ fuel', (fuel ≤ fuel')%nat → jpeg_while fuel' jpeg pos buffers = Some r.
Proof.
  induction fuel as [|fuel IH]; intros pos buffers r Hr fuel' Hle; simpl in Hr.
  - destruct fuel'; simpl; destruct (jpeg_cond jpeg pos); done.
  - destruct fuel' as [|fuel']; [lia|]. simpl.
    destruct (jpeg_cond jpeg pos); [|done].
    destruct (jpeg_body jpeg pos buffers) as [[pos' buffers']|e]; [|done].
    apply (IH _ _ _ Hr). lia.
Qed.

Lemma extractFromJPEG_Return (jpeg : Buffer) :
  ∃ r, extractFromJPEG jpeg = Some (Return r).
Proof.
  unfold extractFromJPEG.
  destruct (jpeg_while_Return jpeg (length jpeg) 2 []) as [r ->];
    [lia | unfold buf_length; lia |].
  destruct (Nat.eqb _ _); eauto.
Qed.

(** ** The PNG scan *)

Section PNGScan.

Variable inflateSync : Buffer → jsstring + Buffer.

(** A turn of the PNG loop that goes on moves at least 12 bytes ahead. *)
Lemma png_body_Continue (png : Buffer) (offset offset' : Z) :
  png_body inflateSync png offset = Return (PngContinue offset') →
  ∃ chunkLength,
    readUInt32BE png offset = Return chunkLength ∧ 0 ≤ chunkLength < 2 ^ 32 ∧
    offset' = offset + chunkLength + 12.
Proof.
  unfold png_body. intros Hb.
  destruct (readUInt32BE png offset) as [chunkLength|e] eqn:Hr; [|done].
  pose proof (readUInt32BE_range _ _ _ Hr) as (Hrange & _).
  exists chunkLength. split; [done|]. split; [done|].
  simpl in Hb.
  repeat (case_match; simplify_eq/=; try done).
Qed.

Lemma png_while_Some (png : Buffer) (fuel : nat) :
  ∀ offset,
    buf_length png - offset ≤ 12 * Z.of_nat fuel →
    ∃ r, png_while inflateSync fuel png offset = Some r.
Proof.
  induction fuel as [|fuel IH]; intros offset Hfuel; simpl.
  - destruct (png_cond png offset) eqn:Hc; [|eauto].
    unfold png_cond in Hc. apply Z.ltb_lt in Hc. lia.
  - destruct (png_cond png offset) eqn:Hc; [|eauto].
    destruct (png_body inflateSync png offset) as [[offset'| |p]|e] eqn:Hb; eauto.
    apply png_body_Continue in Hb as (n & _ & Hn & ->).
    apply IH. lia.
Qed.

Lemma png_while_fuel (png : Buffer) (fuel : nat) :
  ∀ offset r,
    png_while inflateSync fuel png offset = Some r →
    ∀ fuel', (fuel ≤ fuel')%nat → png_while inflateSync fuel' png offset = Some r.
Proof.
  induction fuel as [|fuel IH]; intros offset r Hr fuel' Hle; simpl in Hr.
  - destruct fuel'; simpl; destruct (png_cond png offset); done.
  - destruct fuel' as [|fuel']; [lia|]. simpl.
    destruct (png_cond png offset); [|done].
    destruct (png_body inflateSync png offset) as [[offset'| |p]|e]; try done.
    apply (IH _ _ Hr). lia.
Qed.

Lemma extractFromPNG_Some (png : Buffer) :
  ∃ r, extractFromPNG inflateSync png = Some r.
Proof.
  unfold extractFromPNG.
  destruct (png_while_Some png (length png) 8) as [r ->];
    [unfold buf_length; lia|].
  destruct r as [[p|]|e]; eauto.
Qed.

End PNGScan.

(** ** Claims on the JPEG scan *)

(** C10. Both container scans terminate on every buffer: a turn of the
    JPEG loop moves the position ahead by the 16-bit length plus 2, so by
    at least 2; a turn of the PNG loop that goes on moves the offset
    ahead by at least 12; hence the JPEG loop ends within [length/2]
    turns and the PNG loop within [length/12] turns (rounded up), with a
    result that no further fuel changes. *)
Theorem scans_terminate (inflateSync : Buffer → jsstring + Buffer) (buf : Buffer) :
  (∀ pos buffers, 0 ≤ pos → jpeg_cond buf pos = true →
     ∃ len buffers', readUInt16BE buf (pos + 2) = Return len ∧ 0 ≤ len < 65536 ∧
       jpeg_body buf pos buffers = Return (pos + len + 2, buffers') ∧
       pos + 2 ≤ pos + len + 2)
  ∧ (∃ r, ∀ fuel, (length buf ≤ 2 * fuel)%nat →
       jpeg_while fuel buf 2 [] = Some (Return r))
  ∧ (∃ r, extractFromJPEG buf = Some r)
  ∧ (∀ offset offset',
       png_body inflateSync buf offset = Return (PngContinue offset') →
       offset + 12 ≤ offset')
  ∧ (∃ r, ∀ fuel, (length buf ≤ 12 * fuel)%nat →
       png_while inflateSync fuel buf 8 = Some r)
  ∧ (∃ r, extractFromPNG inflateSync buf = Some r).
Proof.
  split_and!.
  - intros pos buffers H0 Hc.
    destruct (jpeg_body_Return buf pos buffers H0 Hc)
      as (marker & len & buffers' & _ & Hl & Hrange & Hb).
    exists len, buffers'. split_and!; try done; lia.
  - destruct (jpeg_while_Return buf (length buf) 2 []) as [r Hr];
      [lia | unfold buf_length; lia |].
    exists r. intros fuel Hfuel.
    destruct (jpeg_while_Return buf fuel 2 []) as [r' Hr'];
      [lia | unfold buf_length; lia |].
    pose proof (jpeg_while_fuel _ _ _ _ _ Hr (Nat.max fuel (length buf))
                  ltac:(lia)) as H1.
    pose proof (jpeg_while_fuel _ _ _ _ _ Hr' (Nat.max fuel (length buf))
                  ltac:(lia)) as H2.
    congruence.
  - destruct (extractFromJPEG_Return buf) as [r Hr]. eauto.
  - intros offset offset' Hb.
    apply png_body_Continue in Hb as (n & _ & Hn & ->). lia.
  - destruct (png_while_Some inflateSync buf (length buf) 8) as [r Hr];
      [unfold buf_length; lia|].
    exists r. intros fuel Hfuel.
    destruct (png_while_Some inflateSync buf fuel 8) as [r' Hr'];
      [unfold buf_length; lia|].
    pose proof (png_while_fuel _ _ _ _ _ Hr (Nat.max fuel (length buf))
                  ltac:(lia)) as H1.
    pose proof (png_while_fuel _ _ _ _ _ Hr' (Nat.max fuel (length buf))
                  ltac:(lia)) as H2.
    congruence.
  - apply extractFromPNG_Some.
Qed.

Lemma scans_terminate_witness :
  (∃ len buffers',
     readUInt16BE jpeg_one_fragment (2 + 2) = Return len ∧ 0 ≤ len < 65536
     ∧ jpeg_body jpeg_one_fragment 2 [] = Return (2 + len + 2, buffers')
     ∧ 2 + 2 ≤ 2 + len + 2)
  ∧ (∃ r, jpeg_while 13 jpeg_one_fragment 2 [] = Some (Return r))
  ∧ 8 + 12 ≤ 33
  ∧ (∃ r, png_while inflate_stored 4 png_plain 8 = Some r).
Proof.
  split_and!.
  - apply (proj1 (scans_terminate inflate_stored jpeg_one_fragment) 2 []);
      [lia | vm_compute; reflexivity].
  - destruct (proj1 (proj2 (scans_terminate inflate_stored jpeg_one_fragment)))
      as [r Hr].
    exists r. apply Hr. vm_compute. repeat constructor.
  - apply (proj1 (proj2 (proj2 (proj2
             (scans_terminate inflate_stored png_plain)))) 8 33).
    vm_compute. reflexivity.
  - destruct (proj1 (proj2 (proj2 (proj2 (proj2
                (scans_terminate inflate_stored png_plain))))))
      as [r Hr].
    exists r. apply Hr. vm_compute. repeat constructor.
Defined.

(** C4, as stated, fails.  In [jpeg_one_fragment] the segment at
    position 2 has length field 20 and the turn ends at position 24, not
    22; in [jpeg_four_left] the loop stops at position 2 (no turn is run,
    whatever the fuel) although four bytes, not fewer, remain. *)
Lemma jpeg_advance_counterexample :
  jpeg_cond jpeg_one_fragment 2 = true
  ∧ readUInt16BE jpeg_one_fragment (2 + 2) = Return 20
  ∧ jpeg_body jpeg_one_fragment 2 [] = Return (24, [bytes "DATA"])
  ∧ 24 ≠ 2 + 20
  ∧ jpeg_while 1 jpeg_four_left 2 [] = Some (Return [])
  ∧ ¬ (buf_length jpeg_four_left - 2 < 4).
Proof.
  split_and!; try (vm_compute; reflexivity); vm_compute; discriminate.
Qed.

(** C4, amended.  A turn of the JPEG loop moves the position ahead by the
    value of the two-byte big-endian length field plus 2 (the marker),
    and the loop stops exactly when four bytes or fewer remain before
    the buffer end. *)
Theorem jpeg_scan_step (jpeg : Buffer) (pos : Z) (buffers : list Buffer) :
  0 ≤ pos →
  (jpeg_cond jpeg pos = false ↔ buf_length jpeg - pos ≤ 4)
  ∧ (jpeg_cond jpeg pos = false →
       ∀ fuel, jpeg_while fuel jpeg pos buffers = Some (Return buffers))
  ∧ (jpeg_cond jpeg pos = true →
       ∃ len buffers',
         readUInt16BE jpeg (pos + 2) = Return len
         ∧ jpeg_body jpeg pos buffers = Return (pos + len + 2, buffers')
         ∧ ∀ fuel, jpeg_while (S fuel) jpeg pos buffers
                   = jpeg_while fuel jpeg (pos + len + 2) buffers').
Proof.
  intros H0. split_and!.
  - unfold jpeg_cond. rewrite Z.ltb_ge. lia.
  - intros Hc fuel. destruct fuel; simpl; by rewrite Hc.
  - intros Hc.
    destruct (jpeg_body_Return jpeg pos buffers H0 Hc)
      as (marker & len & buffers' & _ & Hl & _ & Hb).
    exists len, buffers'. split_and!; try done.
    intros fuel. simpl. by rewrite Hc, Hb.
Qed.

Lemma jpeg_scan_step_witness :
  ∃ len buffers',
    readUInt16BE jpeg_one_fragment (2 + 2) = Return len
    ∧ jpeg_body jpeg_one_fragment 2 [] = Return (2 + len + 2, buffers')
    ∧ ∀ fuel, jpeg_while (S fuel) jpeg_one_fragment 2 []
              = jpeg_while fuel jpeg_one_fragment (2 + len + 2) buffers'.
Proof.
  apply (jpeg_scan_step jpeg_one_fragment 2 []); [lia | vm_compute; reflexivity].
Defined.

(** *** Segments of a well-framed file *)

Lemma asciiSlice_take (n : nat) (buf : Buffer) :
  asciiSlice (take n buf) = take n (asciiSlice buf).
Proof. unfold asciiSlice. by rewrite firstn_map. Qed.

Lemma startsWith_take (n : nat) (lit : jsstring) :
  ∀ s, (length lit ≤ n)%nat → startsWith (take n s) lit = startsWith s lit.
Proof.
  revert n. induction lit as [|p lit IH]; intros n s Hn.
  - by destruct (take n s), s.
  - destruct n as [|n]; [simpl in Hn; lia|].
    destruct s as [|c s]; [done|]. simpl. f_equal. apply IH. simpl in Hn. lia.
Qed.

(** A payload shorter than the literal cannot be completed by what
    follows it, when that is the 0xFF of the next marker: with its top
    bit cleared it is 0x7F, which the literal does not contain. *)
Lemma startsWith_boundary (lit : jsstring) (rest : Buffer) :
  Forall (λ c, c ≠ 127) lit →
  rest = [] ∨ head rest = Some Byte.xff →
  ∀ payload,
    startsWith (asciiSlice (payload ++ rest)) lit
    = startsWith (asciiSlice payload) lit.
Proof.
  intros Hlit Hrest payload. revert lit Hlit.
  induction payload as [|b payload IH]; intros lit Hlit.
  - destruct lit as [|p lit]; [by destruct (asciiSlice _)|].
    destruct Hrest as [->|Hh]; [done|].
    destruct rest as [|r rest]; [done|]. simpl in Hh. injection Hh as ->.
    inversion Hlit; subst.
    change (startsWith (asciiSlice ([] ++ Byte.xff :: rest)) (p :: lit))
      with ((127 =? p) && startsWith (asciiSlice rest) lit).
    destruct (Z.eqb_spec 127 p); [congruence|done].
  - destruct lit as [|p lit]; [done|]. simpl.
    inversion Hlit; subst. f_equal. by apply IH.
Qed.

Lemma encode_segment_length (s : segment) :
  buf_length (encode_segment s) = buf_length (payload s) + 4.
Proof.
  unfold encode_segment, be16. rewrite !buf_length_app.
  unfold buf_length at 1 2. simpl. lia.
Qed.

Lemma encode_segments_head (segs : list segment) (tail : Buffer) :
  tail = [] ∨ head tail = Some Byte.xff →
  encode_segments segs ++ tail = [] ∨
  head (encode_segments segs ++ tail) = Some Byte.xff.
Proof.
  intros Htail. destruct segs as [|s segs]; [done|]. by right.
Qed.

(** One turn of the loop on a segment, whatever follows it: the 14
    bytes compared with the literal are read from the payload and, if
    the payload is shorter, from what follows. *)
Lemma jpeg_body_segment_any (pre rest : Buffer) (s : segment) (buffers : list Buffer) :
  segment_fits s →
  jpeg_body (pre ++ encode_segment s ++ rest) (buf_length pre) buffers
  = Return (buf_length (pre ++ encode_segment s),
            if bool_decide (marker_code s = Byte.xe2)
               && startsWith (asciiSlice (payload s ++ rest)) (js "ICC_PROFILE")
            then buffers ++ [fragment s] else buffers).
Proof.
  intros Hfit. unfold segment_fits in *.
  set (n := buf_length (payload s) + 2) in *.
  pose proof (buf_length_nonneg (payload s)) as Hp.
  pose proof (buf_length_nonneg pre) as Hpre.
  assert (Hend : buf_length (pre ++ encode_segment s) = buf_length pre + n + 2).
  { rewrite buf_length_app, encode_segment_length. lia. }
  rewrite Hend.
  remember (pre ++ encode_segment s ++ rest) as file eqn:Hfile.
  assert (Hfile' : file = (pre ++ [Byte.xff; marker_code s] ++ be16 n)
                          ++ payload s ++ rest).
  { subst file. unfold encode_segment. fold n. by rewrite <- !app_assoc. }
  assert (Hhdr : buf_length (pre ++ [Byte.xff; marker_code s] ++ be16 n)
                 = buf_length pre + 4).
  { rewrite buf_length_app. unfold be16, buf_length at 2. simpl. lia. }
  assert (Hmarker : readUInt16BE file (buf_length pre)
                    = Return (255 * 2 ^ 8 + byte_val (marker_code s))).
  { subst file. unfold encode_segment. simpl. by rewrite readUInt16BE_app. }
  assert (Hlen : readUInt16BE file (buf_length pre + 2) = Return n).
  { subst file. unfold encode_segment. fold n.
    replace (pre ++ ([Byte.xff; marker_code s] ++ be16 n ++ payload s) ++ rest)
      with ((pre ++ [Byte.xff; marker_code s]) ++ be16 n ++ payload s ++ rest)
      by (by rewrite <- !app_assoc).
    rewrite readUInt16BE_be16; [done| |lia].
    rewrite buf_length_app. unfold buf_length at 3. simpl. lia. }
  assert (Hsig : toString_ascii_range file (buf_length pre + 4) (buf_length pre + 18)
                 = take 14 (asciiSlice (payload s ++ rest))).
  { rewrite toString_ascii_range_nonneg by lia. rewrite Hfile'.
    rewrite (drop_app_buf _ _ (buf_length pre + 4) 0) by lia.
    replace (Z.to_nat (buf_length pre + 18 - (buf_length pre + 4)))
      with 14%nat by lia.
    by rewrite asciiSlice_take. }
  assert (Hdata : slice file (buf_length pre + 18) (buf_length pre + n + 2)
                  = fragment s).
  { rewrite slice_nonneg by lia. rewrite Hfile'.
    rewrite (drop_app_buf _ _ (buf_length pre + 18) 14) by lia.
    change (Z.to_nat 14) with 14%nat. unfold fragment.
    rewrite drop_app.
    destruct (Z.le_gt_cases 14 (buf_length (payload s))) as [Hge|Hlt].
    - rewrite take_app_length'; [done|].
      rewrite length_drop. unfold n, buf_length in *. lia.
    - replace (Z.to_nat (buf_length pre + n + 2 - (buf_length pre + 18)))
        with 0%nat by (unfold n; lia).
      rewrite drop_ge by (unfold buf_length in *; lia). done. }
  unfold jpeg_body. rewrite Hmarker, Hlen. simpl.
  rewrite Hsig, Hdata.
  rewrite startsWith_take by (vm_compute; lia).
  assert (Hm : (255 * 2 ^ 8 + byte_val (marker_code s) =? 65506)
               = bool_decide (marker_code s = Byte.xe2)).
  { destruct (decide (marker_code s = Byte.xe2)) as [->|Hne].
    - by rewrite bool_decide_eq_true_2.
    - rewrite bool_decide_eq_false_2 by done.
      apply Z.eqb_neq. intros Heq. apply Hne, byte_val_inj.
      change (byte_val Byte.xe2) with 226. lia. }
  rewrite Hm.
  destruct (bool_decide (marker_code s = Byte.xe2)); [|done]. simpl.
  by destruct (startsWith _ _).
Qed.


(** One turn of the loop on a segment of a well-framed file. *)
Lemma jpeg_body_segment (pre rest : Buffer) (s : segment) (buffers : list Buffer) :
  segment_fits s →
  rest = [] ∨ head rest = Some Byte.xff →
  jpeg_body (pre ++ encode_segment s ++ rest) (buf_length pre) buffers
  = Return (buf_length (pre ++ encode_segment s),
            if is_icc_segment_ascii s then buffers ++ [fragment s] else buffers).
Proof.
  intros Hfit Hrest. rewrite jpeg_body_segment_any by done.
  rewrite startsWith_boundary;
    [done | repeat constructor; vm_compute; discriminate | done].
Qed.

Lemma encode_segments_length (segs : list segment) :
  (length segs ≤ length (encode_segments segs))%nat.
Proof.
  induction segs as [|s segs IH]; [done|].
  unfold encode_segments in *. simpl. rewrite !length_app. simpl. lia.
Qed.

Lemma jpeg_while_segments (tail : Buffer) :
  jpeg_tail tail →
  ∀ segs pre buffers,
    Forall segment_fits segs →
    jpeg_while (length segs) (pre ++ encode_segments segs ++ tail)
      (buf_length pre) buffers
    = Some (Return (buffers
                    ++ map fragment (List.filter is_icc_segment_ascii segs))).
Proof.
  intros [Hlen Hhead].
  induction segs as [|s segs IH]; intros pre buffers Hfit.
  - simpl. unfold jpeg_cond.
    destruct (Z.ltb_spec (buf_length pre) (buf_length (pre ++ tail) - 4)) as [Hlt|_].
    + rewrite buf_length_app in Hlt. unfold buf_length in Hlt. lia.
    + by rewrite app_nil_r.
  - inversion Hfit as [|? ? Hs Hsegs]; subst.
    change (encode_segments (s :: segs))
      with (encode_segment s ++ encode_segments segs).
    rewrite <- (app_assoc (encode_segment s)).
    change (length (s :: segs)) with (S (length segs)).
    cbn [jpeg_while].
    destruct (jpeg_cond _ _) eqn:Hc.
    + rewrite jpeg_body_segment by (done || by apply encode_segments_head).
      rewrite (app_assoc pre). rewrite IH by done.
      cbn [List.filter]. destruct (is_icc_segment_ascii s); [|done].
      by rewrite <- app_assoc.
    + unfold jpeg_cond in Hc. apply Z.ltb_ge in Hc.
      rewrite !buf_length_app, encode_segment_length in Hc.
      pose proof (buf_length_nonneg (payload s)).
      pose proof (buf_length_nonneg (encode_segments segs)).
      pose proof (buf_length_nonneg tail).
      assert (Hp : payload s = []).
      { apply length_zero_iff_nil. unfold buf_length in *. lia. }
      assert (Hsegs' : segs = []).
      { pose proof (encode_segments_length segs).
        apply length_zero_iff_nil. unfold buf_length in *. lia. }
      subst segs. cbn [List.filter].
      unfold is_icc_segment_ascii. rewrite Hp.
      rewrite andb_false_r. by rewrite app_nil_r.
Qed.

(** What the JPEG loop collects from any buffer, along the chain of
    segment headers. *)
Lemma jpeg_while_chain (jpeg : Buffer) (fuel : nat) :
  ∀ pos buffers r,
    jpeg_while fuel jpeg pos buffers = Some (Return r) →
    r = buffers ++ map (fragment_at jpeg)
                     (List.filter (icc_at jpeg) (jpeg_chain fuel jpeg pos)).
Proof.
  induction fuel as [|fuel IH]; intros pos buffers r Hr; simpl in Hr.
  - destruct (jpeg_cond jpeg pos); [done|].
    injection Hr as <-. simpl. by rewrite app_nil_r.
  - cbn [jpeg_chain]. unfold jpeg_cond in Hr.
    destruct (Z.ltb_spec pos (buf_length jpeg - 4)) as [Hlt|Hge].
    + destruct (Z.leb_spec (buf_length jpeg - pos) 4); [lia|].
      unfold jpeg_body in Hr.
      destruct (readUInt16BE jpeg pos) as [marker|e] eqn:Hm; [|done].
      destruct (readUInt16BE jpeg (pos + 2)) as [len|e] eqn:Hl; [|done].
      simpl in Hr. apply IH in Hr. subst r.
      cbn [List.filter]. unfold icc_at at 2, fragment_at. rewrite Hm.
      destruct ((marker =? 65506) && _) eqn:Hicc.
      * apply andb_true_iff in Hicc as [-> ->]. simpl. rewrite Hl.
        by rewrite <- app_assoc.
      * destruct (marker =? 65506); [|done]. simpl in Hicc. by rewrite Hicc.
    + destruct (Z.leb_spec (buf_length jpeg - pos) 4); [|lia].
      injection Hr as <-. simpl. by rewrite app_nil_r.
Qed.

Lemma filter_all_false {A} (f : A → bool) (l : list A) :
  Forall (λ x, f x = false) l → List.filter f l = [].
Proof.
  induction 1 as [|x l Hx _ IH]; [done|]. simpl. by rewrite Hx.
Qed.

Lemma asciiSlice_7bit (buf : Buffer) :
  Forall (λ b, byte_val b < 128) buf → asciiSlice buf = map byte_val buf.
Proof.
  induction 1 as [|b buf Hb _ IH]; [done|].
  unfold asciiSlice in *. simpl. rewrite IH. f_equal.
  change 127 with (Z.ones 7). rewrite Z.land_ones by lia.
  pose proof (byte_val_range b).
  apply Z.mod_small. change (2 ^ 7) with 128. lia.
Qed.

Lemma startsWith_short (lit : jsstring) :
  ∀ s, (length s ≤ length lit)%nat →
       startsWith s lit = bool_decide (s = lit).
Proof.
  induction lit as [|p lit IH]; intros s Hlen.
  - destruct s; [done|simpl in Hlen; lia].
  - destruct s as [|c s]; [done|]. simpl in *.
    rewrite IH by lia.
    destruct (Z.eqb_spec c p) as [->|Hne]; simpl.
    + apply bool_decide_ext. split; [by intros ->|by intros [= ->]].
    + symmetry. apply bool_decide_eq_false_2. by intros [= -> _].
Qed.

(** On a payload whose first 11 bytes are below 0x80, the comparison of
    the scan is a comparison with the bytes of the literal. *)
Lemma is_icc_segment_7bit (s : segment) :
  Forall (λ b, byte_val b < 128) (take 11 (payload s)) →
  is_icc_segment_ascii s = is_icc_segment s.
Proof.
  intros H7. unfold is_icc_segment_ascii, is_icc_segment. f_equal.
  rewrite <- (startsWith_take 11) by (vm_compute; lia).
  rewrite <- asciiSlice_take, asciiSlice_7bit by done.
  rewrite startsWith_short.
  - rewrite js_bytes. apply bool_decide_ext.
    split; [apply map_byte_val_inj|by intros ->].
  - rewrite length_map, length_take. vm_compute length. lia.
Qed.

(** C5.  The comparison with the literal misses the bytes above 0x7F.
    [jpeg_high_bit] is a well-framed file (SOI, two APP2 segments, EOI)
    with exactly one APP2 segment whose payload begins with the bytes of
    ICC_PROFILE, carrying DATA; the payload of the other segment begins
    with 0xC9 and CC_PROFILE and carries MORE.  The scan compares the
    payload after ['ascii'] decoding, which clears the top bit of each
    byte, so it takes the second segment (at position 24) for a fragment
    too and returns DATAMORE, where the bytes of the one ICC_PROFILE
    segment are DATA. *)
Theorem extractFromJPEG_high_bit :
  List.filter is_icc_segment [jpeg_segment_genuine; jpeg_segment_high_bit]
  = [jpeg_segment_genuine]
  ∧ fragment jpeg_segment_genuine = bytes "DATA"
  ∧ take 11 (payload jpeg_segment_high_bit) ≠ bytes "ICC_PROFILE"
  ∧ slice jpeg_high_bit (24 + 4) (24 + 4 + 11) = take 11 (payload jpeg_segment_high_bit)
  ∧ icc_at jpeg_high_bit 24 = true
  ∧ extractFromJPEG jpeg_high_bit = Some (Return (Some (bytes "DATAMORE")))
  ∧ extractFromJPEG jpeg_high_bit
    ≠ Some (Return (Some (fragment jpeg_segment_genuine))).
Proof.
  split_and!; try (vm_compute; reflexivity); vm_compute; discriminate.
Qed.

(** C2, as stated, fails.  In [jpeg_truncated] the APP2 ICC_PROFILE
    segment at position 2 declares a length of 256, past the end of the
    24-byte buffer; the call returns the four bytes that are there and
    throws nothing. *)
Lemma jpeg_truncated_counterexample :
  icc_at jpeg_truncated 2 = true
  ∧ readUInt16BE jpeg_truncated (2 + 2) = Return 256
  ∧ buf_length jpeg_truncated < 2 + 256 + 2
  ∧ extractFromJPEG jpeg_truncated = Some (Return (Some (bytes "DATA")))
  ∧ ∀ e, extractFromJPEG jpeg_truncated ≠ Some (Throw e).
Proof.
  split_and!; try (vm_compute; reflexivity).
  intros e. vm_compute. discriminate.
Qed.

(** C2, amended.  [extractFromJPEG] throws on no buffer; an APP2
    ICC_PROFILE segment whose length field points past the end of the
    buffer contributes the bytes from 18 after its marker to the buffer
    end (the slice is clamped), and the scan stops there. *)
Theorem extractFromJPEG_clamps (jpeg : Buffer) :
  (∃ r, extractFromJPEG jpeg = Some (Return r))
  ∧ ∀ pos len buffers fuel,
      0 ≤ pos → jpeg_cond jpeg pos = true → icc_at jpeg pos = true →
      readUInt16BE jpeg (pos + 2) = Return len →
      buf_length jpeg < pos + len + 2 →
      jpeg_while (S fuel) jpeg pos buffers
      = Some (Return (buffers ++ [drop (Z.to_nat (pos + 18)) jpeg])).
Proof.
  split; [apply extractFromJPEG_Return|].
  intros pos len buffers fuel H0 Hc Hicc Hl Hpast.
  cbn [jpeg_while]. rewrite Hc. unfold jpeg_body, icc_at in *.
  destruct (readUInt16BE jpeg pos) as [marker|e]; [|done].
  rewrite Hl. simpl. apply andb_true_iff in Hicc as [-> ->].
  assert (Hstop : jpeg_cond jpeg (pos + len + 2) = false).
  { unfold jpeg_cond. apply Z.ltb_ge. lia. }
  assert (Hdata : slice jpeg (pos + 18) (pos + len + 2)
                  = drop (Z.to_nat (pos + 18)) jpeg).
  { pose proof (readUInt16BE_in jpeg (pos + 2)) as Hin.
    unfold jpeg_cond in Hc. apply Z.ltb_lt in Hc.
    destruct Hin as (len' & Hl' & Hrange); [lia..|].
    rewrite Hl in Hl'. injection Hl' as <-.
    rewrite slice_nonneg by lia.
    apply take_ge. rewrite length_drop. unfold buf_length in *. lia. }
  rewrite Hdata. destruct fuel; simpl; by rewrite Hstop.
Qed.

Lemma extractFromJPEG_clamps_witness :
  jpeg_while 1 jpeg_truncated 2 []
  = Some (Return ([] ++ [drop (Z.to_nat (2 + 18)) jpeg_truncated])).
Proof.
  apply (proj2 (extractFromJPEG_clamps jpeg_truncated) 2 256 [] 0%nat);
    [lia | vm_compute; reflexivity ..].
Defined.

(** ** Claims on absence *)

Section PNGChain.

Variable inflateSync : Buffer → jsstring + Buffer.

(** What the PNG loop does on any buffer with no iCCP header along the
    chain of chunk headers: it reaches IEND or the end, or it meets a
    header whose length field does not fit in the buffer. *)
Lemma png_while_no_iccp (png : Buffer) (fuel : nat) :
  ∀ offset r,
    0 ≤ offset →
    Forall (λ p, iccp_at png p = false) (png_chain fuel png offset) →
    png_while inflateSync fuel png offset = Some r →
    (Forall (λ p, p + 4 ≤ buf_length png) (png_chain fuel png offset)
     ∧ r = Return None)
    ∨ (Exists (λ p, buf_length png < p + 4) (png_chain fuel png offset)
       ∧ r = Throw RangeError).
Proof.
  induction fuel as [|fuel IH]; intros offset r H0 Hno Hr; simpl in Hr.
  - destruct (png_cond png offset); [done|]. left. simpl. split; [done|congruence].
  - cbn [png_chain] in *. unfold png_cond in Hr.
    destruct (Z.ltb_spec offset (buf_length png)) as [Hlt|Hge].
    2:{ destruct (Z.leb_spec (buf_length png) offset); [|lia].
        left. split; [done|congruence]. }
    destruct (Z.leb_spec (buf_length png) offset); [lia|].
    unfold png_body in Hr.
    destruct (readUInt32BE png offset) as [chunkLength|e] eqn:Hread.
    + pose proof (readUInt32BE_range _ _ _ Hread) as (Hn & _ & Hin).
      simpl in Hr. unfold str_eq, toString_ascii in Hr.
      destruct (bool_decide (asciiSlice _ = js "IEND")) eqn:Hiend.
      * left. split; [by constructor|congruence].
      * apply Forall_cons in Hno as [Hhere Hno]. unfold iccp_at in Hhere.
        rewrite Hhere in Hr.
        assert (Hnext : 0 ≤ offset + chunkLength + 12) by lia.
        destruct (IH _ _ Hnext Hno Hr) as [[Hall ->]|[Hex ->]].
        -- left. split; [by constructor|done].
        -- right. split; [by apply Exists_cons_tl|done].
    + right. simpl in Hr. injection Hr as <-.
      destruct (Z.lt_ge_cases (buf_length png) (offset + 4)) as [Hshort|Hfits].
      * rewrite readUInt32BE_out in Hread by done. injection Hread as <-.
        split; [by apply Exists_cons_hd|done].
      * destruct (readUInt32BE_in png offset) as (v & Hv & _); [lia..|].
        congruence.
Qed.

End PNGChain.

(** C3, as stated, fails for PNG.  [png_truncated] has no iCCP chunk
    (no chunk header of the chain reads iCCP) and two stray bytes where
    the second header should start: the length read throws. *)
Lemma png_truncated_counterexample :
  png_chain (length png_truncated) png_truncated 8 = [8; 33]
  ∧ iccp_at png_truncated 8 = false
  ∧ iccp_at png_truncated 33 = false
  ∧ extractFromPNG inflate_rejects png_truncated = Some ([], Throw RangeError)
  ∧ extractFromPNG inflate_rejects png_truncated
    ≠ Some ([js "No iCCP chunk found"], Return None).
Proof.
  split_and!; try (vm_compute; reflexivity). vm_compute. discriminate.
Qed.

(** C3, amended.  On every buffer in which no segment reached by the
    JPEG scan is an APP2 ICC_PROFILE segment, [extractFromJPEG] returns
    the "none" outcome, also with truncated or inconsistent framing.  On
    every buffer in which no chunk header reached by the PNG scan reads
    iCCP, [extractFromPNG] returns "none" (after logging) when the length
    field of every header reached lies inside the buffer, and otherwise
    throws the runtime's [RangeError]. *)
Theorem absence_outcome (inflateSync : Buffer → jsstring + Buffer)
    (jpeg png : Buffer) :
  (Forall (λ pos, icc_at jpeg pos = false) (jpeg_chain (length jpeg) jpeg 2) →
   extractFromJPEG jpeg = Some (Return None))
  ∧ (Forall (λ p, iccp_at png p = false) (png_chain (length png) png 8) →
     (Forall (λ p, p + 4 ≤ buf_length png) (png_chain (length png) png 8)
      ∧ extractFromPNG inflateSync png
        = Some ([js "No iCCP chunk found"], Return None))
     ∨ (Exists (λ p, buf_length png < p + 4) (png_chain (length png) png 8)
        ∧ extractFromPNG inflateSync png = Some ([], Throw RangeError))).
Proof.
  split.
  - intros Hno. unfold extractFromJPEG.
    destruct (jpeg_while_Return jpeg (length jpeg) 2 []) as [r Hr];
      [lia | unfold buf_length; lia |].
    rewrite Hr. apply jpeg_while_chain in Hr.
    rewrite filter_all_false in Hr by done. by subst r.
  - intros Hno. unfold extractFromPNG.
    destruct (png_while_Some inflateSync png (length png) 8) as [r Hr];
      [unfold buf_length; lia|].
    rewrite Hr.
    destruct (png_while_no_iccp inflateSync png _ 8 r ltac:(lia) Hno Hr)
      as [[Hall ->]|[Hex ->]]; [by left|by right].
Qed.

Lemma absence_outcome_witness :
  extractFromJPEG jpeg_four_left = Some (Return None)
  ∧ ((Forall (λ p, p + 4 ≤ buf_length png_plain)
        (png_chain (length png_plain) png_plain 8)
      ∧ extractFromPNG inflate_rejects png_plain
        = Some ([js "No iCCP chunk found"], Return None))
     ∨ (Exists (λ p, buf_length png_plain < p + 4)
          (png_chain (length png_plain) png_plain 8)
        ∧ extractFromPNG inflate_rejects png_plain = Some ([], Throw RangeError))).
Proof.
  split.
  - apply (proj1 (absence_outcome inflate_rejects jpeg_four_left png_plain)).
    vm_compute. repeat constructor.
  - apply (proj2 (absence_outcome inflate_rejects jpeg_four_left png_plain)).
    vm_compute. repeat constructor.
Defined.

(** ** The iCCP chunk of a well-framed PNG file *)

Lemma asciiSlice_letters (ty : Buffer) :
  Forall is_letter ty → asciiSlice ty = map byte_val ty.
Proof.
  induction 1 as [|b ty Hb _ IH]; [done|].
  unfold asciiSlice in *. simpl. rewrite IH. f_equal.
  change 127 with (Z.ones 7). rewrite Z.land_ones by lia.
  apply Z.mod_small. unfold is_letter in Hb. change (2 ^ 7) with 128. lia.
Qed.

(** On a type field made of letters the comparison of the scan, done on
    the decoded string, is a comparison of the bytes. *)
Lemma chunk_type_test (ty : Buffer) (lit : string) :
  Forall is_letter ty →
  bool_decide (asciiSlice ty = js lit) = bool_decide (ty = bytes lit).
Proof.
  intros Hty. rewrite asciiSlice_letters, js_bytes by done.
  apply bool_decide_ext. split; [apply map_byte_val_inj|by intros ->].
Qed.

Lemma indexOf_from_first (name rest : Buffer) (i : Z) :
  Forall (λ b, b ≠ Byte.x00) name →
  indexOf_from (name ++ Byte.x00 :: rest) 0 i = i + buf_length name.
Proof.
  intros Hname. revert i.
  induction Hname as [|b name Hb _ IH]; intros i.
  - simpl. unfold buf_length. simpl. lia.
  - cbn [app indexOf_from].
    destruct (Z.eqb_spec (byte_val b) 0) as [Heq|_].
    + exfalso. apply Hb, byte_val_inj. by rewrite Heq.
    + rewrite IH. unfold buf_length. simpl. lia.
Qed.

Lemma encode_chunk_length (c : chunk) :
  buf_length (encode_chunk c)
  = 4 + buf_length (chunk_type c) + buf_length (chunk_data c)
    + buf_length (chunk_crc c).
Proof.
  unfold encode_chunk. rewrite !buf_length_app.
  unfold be32, buf_length at 1. simpl. lia.
Qed.

(** The three reads of a turn of the PNG loop, on a chunk in place. *)
Lemma png_chunk_reads (pre rest : Buffer) (c : chunk) :
  length (chunk_type c) = 4%nat → buf_length (chunk_data c) < 2 ^ 32 →
  let png := pre ++ encode_chunk c ++ rest in
  readUInt32BE png (buf_length pre) = Return (buf_length (chunk_data c))
  ∧ slice png (buf_length pre + 4) (buf_length pre + 8) = chunk_type c
  ∧ slice png (buf_length pre + 8)
      (buf_length pre + 8 + buf_length (chunk_data c))
    = chunk_data c.
Proof.
  intros Hty Hlen png.
  pose proof (buf_length_nonneg pre). pose proof (buf_length_nonneg (chunk_data c)).
  set (n := buf_length (chunk_data c)) in *.
  assert (H4 : png = (pre ++ be32 n)
                     ++ chunk_type c ++ chunk_data c ++ chunk_crc c ++ rest).
  { unfold png, encode_chunk. fold n. by rewrite <- !app_assoc. }
  assert (H8 : png = (pre ++ be32 n ++ chunk_type c)
                     ++ chunk_data c ++ chunk_crc c ++ rest).
  { unfold png, encode_chunk. fold n. by rewrite <- !app_assoc. }
  assert (L4 : buf_length (pre ++ be32 n) = buf_length pre + 4).
  { rewrite buf_length_app. unfold be32, buf_length at 2. simpl. lia. }
  assert (L8 : buf_length (pre ++ be32 n ++ chunk_type c) = buf_length pre + 8).
  { rewrite !buf_length_app. unfold be32, buf_length at 2 3. simpl. lia. }
  split_and!.
  - unfold png, encode_chunk. fold n. rewrite <- !app_assoc.
    by apply readUInt32BE_be32.
  - rewrite slice_nonneg by lia. rewrite H4.
    rewrite (drop_app_buf _ _ (buf_length pre + 4) 0) by lia.
    change (Z.to_nat 0) with 0%nat. rewrite drop_0.
    apply take_app_length'. lia.
  - rewrite slice_nonneg by lia. rewrite H8.
    rewrite (drop_app_buf _ _ (buf_length pre + 8) 0) by lia.
    change (Z.to_nat 0) with 0%nat. rewrite drop_0.
    apply take_app_length'. unfold n, buf_length. lia.
Qed.

Lemma encode_chunks_count (cs : list chunk) :
  (length cs ≤ length (encode_chunks cs))%nat.
Proof.
  induction cs as [|c cs IH]; [done|].
  unfold encode_chunks in *. simpl. rewrite !length_app. simpl. lia.
Qed.

Section PNGFile.

Variable inflateSync : Buffer → jsstring + Buffer.

(** A turn on a chunk that is neither IEND nor iCCP goes on to the next
    chunk. *)
Lemma png_body_skip (pre rest : Buffer) (c : chunk) :
  chunk_wf c → chunk_type c ≠ bytes "IEND" → chunk_type c ≠ bytes "iCCP" →
  png_body inflateSync (pre ++ encode_chunk c ++ rest) (buf_length pre)
  = Return (PngContinue (buf_length (pre ++ encode_chunk c))).
Proof.
  intros (Hty & Hletters & Hlen & Hcrc) Hiend Hiccp.
  destruct (png_chunk_reads pre rest c Hty Hlen) as (Hread & Htype & _).
  unfold png_body. rewrite Hread. cbn [mbind completion_bind]. rewrite Htype.
  unfold str_eq, toString_ascii. rewrite !chunk_type_test by done.
  rewrite !bool_decide_eq_false_2 by done.
  do 2 f_equal. rewrite buf_length_app, encode_chunk_length.
  unfold buf_length. lia.
Qed.

(** The turn on an iCCP chunk whose data is a name without zero byte, a
    zero byte, the method byte 0 and a payload. *)
Lemma png_body_iCCP (pre rest name compressed crc : Buffer) :
  Forall (λ b, b ≠ Byte.x00) name →
  buf_length (name ++ [Byte.x00; Byte.x00] ++ compressed) < 2 ^ 32 →
  png_body inflateSync
    (pre ++ encode_chunk (Chunk (bytes "iCCP")
                            (name ++ [Byte.x00; Byte.x00] ++ compressed) crc)
         ++ rest)
    (buf_length pre)
  = match inflateSync compressed with
    | inr iccProfile => Return (PngReturn iccProfile)
    | inl message =>
        Throw (Error (js "Failed to decompress ICC profile: " ++ message))
    end.
Proof.
  intros Hname Hlen.
  pose proof (png_chunk_reads pre rest
                (Chunk (bytes "iCCP") (name ++ [Byte.x00; Byte.x00] ++ compressed) crc)
                eq_refl Hlen) as (Hread & Htype & Hdata).
  cbn [chunk_type chunk_data] in Hread, Htype, Hdata.
  pose proof (buf_length_nonneg name) as Hn.
  pose proof (buf_length_nonneg compressed) as Hc.
  assert (Hlen' : buf_length (name ++ [Byte.x00; Byte.x00] ++ compressed)
                  = buf_length name + 2 + buf_length compressed).
  { rewrite !buf_length_app. unfold buf_length at 2. simpl. lia. }
  assert (Hnull : indexOf (name ++ [Byte.x00; Byte.x00] ++ compressed) 0
                  = buf_length name).
  { unfold indexOf.
    change (name ++ [Byte.x00; Byte.x00] ++ compressed)
      with (name ++ Byte.x00 :: Byte.x00 :: compressed).
    rewrite indexOf_from_first by done. lia. }
  assert (Hmethod : at_index (name ++ [Byte.x00; Byte.x00] ++ compressed)
                      (buf_length name + 1) = Some Byte.x00).
  { by rewrite (at_index_app name _ _ 1) by lia. }
  assert (Hrest : slice_from (name ++ [Byte.x00; Byte.x00] ++ compressed)
                    (buf_length name + 2) = compressed).
  { unfold slice_from. rewrite slice_nonneg by lia.
    rewrite (drop_app_buf name _ _ 2) by lia.
    change (drop (Z.to_nat 2) ([Byte.x00; Byte.x00] ++ compressed)) with compressed.
    apply take_ge. unfold buf_length in *. lia. }
  remember (name ++ [Byte.x00; Byte.x00] ++ compressed) as data eqn:Edata.
  remember (pre ++ encode_chunk (Chunk (bytes "iCCP") data crc) ++ rest)
    as png eqn:Epng.
  clear Epng Edata.
  unfold png_body. rewrite Hread. cbn [mbind completion_bind].
  rewrite Htype, Hdata, Hnull, Hmethod, Hrest.
  change (str_eq (toString_ascii (bytes "iCCP")) (js "IEND")) with false.
  change (str_eq (toString_ascii (bytes "iCCP")) (js "iCCP")) with true.
  cbn iota.
  destruct (Z.eqb_spec (buf_length name) (-1)); [lia|].
  destruct (Z.eqb_spec (buf_length name) (buf_length data - 1)); [lia|].
  done.
Qed.

Lemma png_while_skip (rest : Buffer) :
  ∀ before pre fuel,
    Forall chunk_wf before →
    Forall (λ c, chunk_type c ≠ bytes "IEND" ∧ chunk_type c ≠ bytes "iCCP")
      before →
    png_while inflateSync (length before + fuel)
      (pre ++ encode_chunks before ++ rest) (buf_length pre)
    = png_while inflateSync fuel
        (pre ++ encode_chunks before ++ rest)
        (buf_length (pre ++ encode_chunks before)).
Proof.
  induction before as [|c before IH]; intros pre fuel Hwf Hty.
  - simpl. by rewrite app_nil_r.
  - inversion Hwf as [|? ? Hc Hwf']; subst.
    inversion Hty as [|? ? [Hiend Hiccp] Hty']; subst.
    change (encode_chunks (c :: before))
      with (encode_chunk c ++ encode_chunks before).
    change (length (c :: before) + fuel)%nat with (S (length before + fuel)).
    cbn [png_while].
    assert (Hcond : png_cond (pre ++ (encode_chunk c ++ encode_chunks before) ++ rest)
                      (buf_length pre) = true).
    { unfold png_cond. apply Z.ltb_lt.
      rewrite !buf_length_app, encode_chunk_length.
      pose proof (buf_length_nonneg (chunk_type c)).
      pose proof (buf_length_nonneg (chunk_data c)).
      pose proof (buf_length_nonneg (chunk_crc c)).
      pose proof (buf_length_nonneg (encode_chunks before)).
      pose proof (buf_length_nonneg rest). lia. }
    rewrite Hcond. rewrite <- (app_assoc (encode_chunk c)).
    rewrite png_body_skip by done.
    rewrite !(app_assoc pre (encode_chunk c)). by rewrite IH.
Qed.

End PNGFile.

(** C6. In a PNG buffer with well-formed chunk framing whose first iCCP
    chunk holds a name, a zero byte that is not its last byte, the
    compression-method byte 0 and a compressed payload, [extractFromPNG]
    returns the inflated payload of that chunk when zlib inflates it, and
    throws the error "Failed to decompress ICC profile: " followed by
    the decompressor's message when it does not; whatever follows the
    data of that chunk ([crc] and [rest], arbitrary bytes) is not looked
    at, and nothing is logged. *)
Theorem extractFromPNG_first_iCCP (inflateSync : Buffer → jsstring + Buffer)
    (sig : Buffer) (before : list chunk) (name compressed crc rest : Buffer) :
  length sig = 8%nat →
  Forall chunk_wf before →
  Forall (λ c, chunk_type c ≠ bytes "IEND" ∧ chunk_type c ≠ bytes "iCCP") before →
  Forall (λ b, b ≠ Byte.x00) name →
  buf_length (name ++ [Byte.x00; Byte.x00] ++ compressed) < 2 ^ 32 →
  extractFromPNG inflateSync
    (sig ++ encode_chunks before
         ++ encode_chunk (Chunk (bytes "iCCP")
                            (name ++ [Byte.x00; Byte.x00] ++ compressed) crc)
         ++ rest)
  = Some ([],
          match inflateSync compressed with
          | inr iccProfile => Return (Some iccProfile)
          | inl message =>
              Throw (Error (js "Failed to decompress ICC profile: " ++ message))
          end).
Proof.
  intros Hsig Hwf Hty Hname Hlen.
  set (iccp := Chunk (bytes "iCCP") (name ++ [Byte.x00; Byte.x00] ++ compressed) crc).
  set (png := sig ++ encode_chunks before ++ encode_chunk iccp ++ rest).
  assert (H12 : 4 ≤ buf_length (encode_chunk iccp)).
  { rewrite encode_chunk_length.
    pose proof (buf_length_nonneg (chunk_type iccp)).
    pose proof (buf_length_nonneg (chunk_data iccp)).
    pose proof (buf_length_nonneg (chunk_crc iccp)). lia. }
  assert (Hwhile : png_while inflateSync (length before + 1) png 8
                   = Some match inflateSync compressed with
                          | inr iccProfile => Return (Some iccProfile)
                          | inl message =>
                              Throw (Error (js "Failed to decompress ICC profile: "
                                            ++ message))
                          end).
  { replace 8 with (buf_length sig) by (unfold buf_length; lia).
    unfold png. rewrite png_while_skip by done.
    cbn [png_while].
    assert (Hcond : png_cond (sig ++ encode_chunks before ++ encode_chunk iccp ++ rest)
                      (buf_length (sig ++ encode_chunks before)) = true).
    { unfold png_cond. apply Z.ltb_lt. rewrite !buf_length_app.
      pose proof (buf_length_nonneg rest). lia. }
    rewrite Hcond. rewrite (app_assoc sig).
    unfold iccp. rewrite png_body_iCCP by done.
    by destruct (inflateSync compressed). }
  unfold extractFromPNG.
  rewrite (png_while_fuel _ _ _ _ _ Hwhile).
  - by destruct (inflateSync compressed).
  - pose proof (encode_chunks_count before) as Hcount.
    unfold png. rewrite !length_app. unfold buf_length in H12. lia.
Qed.

Lemma extractFromPNG_first_iCCP_witness :
  extractFromPNG inflate_stored png_with_iCCP
  = Some ([], Return (Some (bytes "PROFILE"))).
Proof.
  apply (extractFromPNG_first_iCCP inflate_stored png_signature [png_IHDR]
           (bytes "sRGB") (bytes "PROFILE") (zeros 4) [Byte.xff]).
  - reflexivity.
  - repeat constructor; vm_compute; (lia || discriminate || reflexivity || auto).
  - repeat constructor; discriminate.
  - repeat constructor; discriminate.
  - vm_compute. reflexivity.
Defined.

(** ** The decoder *)

Lemma readUInt32BE_cases (buf : Buffer) (offset : Z) :
  (∃ v, readUInt32BE buf offset = Return v)
  ∨ readUInt32BE buf offset = Throw RangeError.
Proof.
  unfold readUInt32BE.
  destruct (at_index buf offset), (at_index buf (offset + 3)),
    (at_index buf (offset + 1)), (at_index buf (offset + 2)); eauto.
Qed.

Lemma tagMap_lookup (sig attribute : jsstring) :
  tagMap !! sig = Some attribute →
  In sig tag_signatures ∧ In attribute tag_attributes.
Proof.
  unfold tagMap. intros H. apply elem_of_list_to_map_2 in H.
  rewrite !elem_of_cons, elem_of_nil in H.
  destruct H as [H|[H|[H|[H|H]]]]; try done; injection H as H1 H2; subst;
    split; simpl; tauto.
Qed.








Lemma forEach_attr_cases (buffer : Buffer) (attrs : list (Z * jsstring)) :
  ∀ profile,
    (∃ profile', forEach_attr attrs buffer profile = Return profile')
    ∨ forEach_attr attrs buffer profile = Throw RangeError.
Proof.
  induction attrs as [|attr attrs IH]; intros profile; simpl; [eauto|].
  unfold hasContentAtOffset.
  destruct (readUInt32BE_cases buffer attr.1) as [[v ->] | ->]; [|by right].
  simpl. apply IH.
Qed.





(** *** Four-byte codes *)

Lemma slice_four (buf : Buffer) (offset : Z) (b0 b1 b2 b3 : byte) :
  at_index buf offset = Some b0 → at_index buf (offset + 1) = Some b1 →
  at_index buf (offset + 2) = Some b2 → at_index buf (offset + 3) = Some b3 →
  slice buf offset (offset + 4) = [b0; b1; b2; b3].
Proof.
  unfold at_index. intros H0 H1 H2 H3.
  destruct (Z.ltb_spec offset 0); [done|].
  destruct (Z.ltb_spec (offset + 1) 0); [done|].
  destruct (Z.ltb_spec (offset + 2) 0); [done|].
  destruct (Z.ltb_spec (offset + 3) 0); [done|].
  rewrite slice_nonneg by lia.
  replace (Z.to_nat (offset + 4 - offset)) with 4%nat by lia.
  replace (Z.to_nat (offset + 1)) with (S (Z.to_nat offset)) in H1 by lia.
  replace (Z.to_nat (offset + 2)) with (S (S (Z.to_nat offset))) in H2 by lia.
  replace (Z.to_nat (offset + 3)) with (S (S (S (Z.to_nat offset)))) in H3 by lia.
  rewrite (drop_S _ _ _ H0), (drop_S _ _ _ H1), (drop_S _ _ _ H2), (drop_S _ _ _ H3).
  reflexivity.
Qed.

(** A 32-bit read is zero exactly when its four bytes are. *)
Lemma readUInt32BE_code (buf : Buffer) (offset v : Z) :
  readUInt32BE buf offset = Return v →
  ∃ code, slice buf offset (offset + 4) = code ∧ length code = 4%nat
          ∧ (v = 0 ↔ code = zeros 4).
Proof.
  unfold readUInt32BE. intros Hr.
  destruct (at_index buf offset) as [b0|] eqn:H0; [|done].
  destruct (at_index buf (offset + 3)) as [b3|] eqn:H3; [|done].
  destruct (at_index buf (offset + 1)) as [b1|] eqn:H1; [|done].
  destruct (at_index buf (offset + 2)) as [b2|] eqn:H2; [|done].
  injection Hr as <-.
  exists [b0; b1; b2; b3]. split; [by apply slice_four|]. split; [done|].
  pose proof (byte_val_range b0). pose proof (byte_val_range b1).
  pose proof (byte_val_range b2). pose proof (byte_val_range b3).
  split.
  - intros Hz.
    assert (byte_val b0 = 0 ∧ byte_val b1 = 0 ∧ byte_val b2 = 0 ∧ byte_val b3 = 0)
      as (E0 & E1 & E2 & E3) by lia.
    change 0 with (byte_val Byte.x00) in E0, E1, E2, E3.
    apply byte_val_inj in E0, E1, E2, E3. by subst.
  - intros Hc. injection Hc as -> -> -> ->. reflexivity.
Qed.

Lemma getContentAtOffsetAsString_code (buffer : Buffer) (offset : Z) :
  getContentAtOffsetAsString buffer offset
  = code_value (slice buffer offset (offset + 4)).
Proof. reflexivity. Qed.

Lemma forEach_attr_other (buffer : Buffer) (attrs : list (Z * jsstring)) :
  ∀ profile profile',
    forEach_attr attrs buffer profile = Return profile' →
    ∀ key, ¬ In key (map snd attrs) → profile' !! key = profile !! key.
Proof.
  induction attrs as [|[off name] attrs IH]; intros profile profile' Hf key Hkey.
  - simpl in Hf. by injection Hf as <-.
  - cbn [forEach_attr] in Hf. unfold hasContentAtOffset in Hf.
    destruct (readUInt32BE buffer (off, name).1) as [v|e]; [|done].
    cbn [mbind completion_bind mret completion_ret] in Hf.
    rewrite (IH _ _ Hf) by (simpl in Hkey; tauto).
    destruct (negb (v =? 0)); [|done].
    apply lookup_insert_ne. simpl in Hkey. cbn [snd]. intros ->. tauto.
Qed.

Lemma forEach_attr_lookup (buffer : Buffer) (attrs : list (Z * jsstring)) :
  List.NoDup (map snd attrs) →
  ∀ profile profile',
    forEach_attr attrs buffer profile = Return profile' →
    ∀ off name, In (off, name) attrs →
      ∃ v, readUInt32BE buffer off = Return v
           ∧ profile' !! name
             = if v =? 0 then profile !! name
               else Some (VString (getContentAtOffsetAsString buffer off)).
Proof.
  induction attrs as [|[o n] attrs IH]; intros Hnodup profile profile' Hf off name Hin.
  - destruct Hin.
  - simpl in Hnodup. apply List.NoDup_cons_iff in Hnodup as [Hn Hnodup].
    cbn [forEach_attr] in Hf. unfold hasContentAtOffset in Hf. cbn [fst snd] in Hf.
    destruct (readUInt32BE buffer o) as [v|e] eqn:Hread; [|done].
    cbn [mbind completion_bind mret completion_ret] in Hf.
    destruct Hin as [Heq|Hin].
    + injection Heq as <- <-. exists v. split; [done|].
      rewrite (forEach_attr_other _ _ _ _ Hf) by done.
      destruct (v =? 0); [done|]. cbn [negb]. apply lookup_insert_eq.
    + destruct (IH Hnodup _ _ Hf off name Hin) as (v' & Hv' & Hl).
      exists v'. split; [done|]. rewrite Hl.
      destruct (v' =? 0); [|done].
      destruct (negb (v =? 0)); [|done].
      apply lookup_insert_ne. intros ->. apply Hn.
      by apply (in_map snd) in Hin.
Qed.

(** The tag loop writes the four tag attributes only. *)
Lemma tag_body_other (buffer : Buffer) (tagHeaderOffset : Z)
    (profile profile' : gmap jsstring value) :
  tag_body buffer tagHeaderOffset profile = Return profile' →
  ∀ key, ¬ In key tag_attributes → profile' !! key = profile !! key.
Proof.
  unfold tag_body. intros Hb key Hkey.
  destruct (tagMap !! _) as [attribute|] eqn:Htag; [|by injection Hb as <-].
  apply tagMap_lookup in Htag as [_ Hattr].
  assert (Hne : attribute ≠ key) by (by intros ->).
  repeat match type of Hb with
         | context [readUInt32BE ?b ?o] =>
             destruct (readUInt32BE b o); cbn [mbind completion_bind] in Hb;
             [|done]
         | context [if ?c then _ else _] =>
             destruct c; cbn [mbind completion_bind] in Hb; try done
         end;
    injection Hb as <-; rewrite ?lookup_insert_ne by done; done.
Qed.

Lemma tags_for_other (buffer : Buffer) (count : nat) :
  ∀ tagHeaderOffset profile profile',
    tags_for count buffer tagHeaderOffset profile = Return profile' →
    ∀ key, ¬ In key tag_attributes → profile' !! key = profile !! key.
Proof.
  induction count as [|count IH]; intros off profile profile' Ht key Hkey.
  - simpl in Ht. by injection Ht as <-.
  - cbn [tags_for] in Ht.
    destruct (tag_body buffer off profile) as [p1|e] eqn:Hb; [|done].
    cbn [mbind completion_bind] in Ht.
    rewrite (IH _ _ _ Ht) by done. by apply (tag_body_other _ _ _ _ Hb).
Qed.

Lemma parse_attribute (buffer : Buffer) (profile : gmap jsstring value)
    (offset : Z) (name : jsstring) :
  parse buffer = Return profile → In (offset, name) fourByteAttributes →
  ∃ v, readUInt32BE buffer offset = Return v
       ∧ profile !! name
         = if v =? 0 then None
           else Some (VString (getContentAtOffsetAsString buffer offset)).
Proof.
  unfold parse. intros Hp Hin.
  destruct (readUInt32BE buffer 0) as [size|]; [|done].
  cbn [mbind completion_bind] in Hp.
  destruct (negb (size =? buf_length buffer)); [done|].
  destruct (negb (str_eq _ _)); [done|].
  destruct (readUInt32BE buffer 8) as [version|]; [|done].
  cbn [mbind completion_bind] in Hp.
  destruct (readUInt32BE buffer 64) as [intent|]; [|done].
  cbn [mbind completion_bind] in Hp.
  destruct (forEach_attr _ _ _) as [p1|] eqn:Hf; [|done].
  cbn [mbind completion_bind] in Hp.
  destruct (readUInt32BE buffer 128) as [tagCount|]; [|done].
  cbn [mbind completion_bind] in Hp.
  assert (Hname : ¬ In name tag_attributes
                  ∧ name ≠ js "intent" ∧ name ≠ js "version").
  { simpl in Hin.
    repeat (destruct Hin as [Hin|Hin]; [injection Hin as <- <-; vm_compute;
      split_and!; [intros H; repeat (destruct H as [H|H]; [discriminate|]); done
                  | discriminate | discriminate]|]).
    done. }
  destruct Hname as (Htag & Hi & Hv).
  rewrite (tags_for_other _ _ _ _ _ Hp) by done.
  assert (Hnodup : List.NoDup (map snd fourByteAttributes)).
  { vm_compute. repeat (constructor; [intros H;
      repeat (destruct H as [H|H]; [discriminate|]); done|]). constructor. }
  destruct (forEach_attr_lookup buffer fourByteAttributes Hnodup _ _ Hf
              offset name Hin) as (v & Hread & Hl).
  exists v. split; [done|]. rewrite Hl.
  destruct (v =? 0); [|done].
  rewrite lookup_insert_ne by done. rewrite lookup_insert_ne by done. done.
Qed.

(** Bytes below 0x80 decode to themselves. *)
Lemma toString_ascii_bytes (code : Buffer) :
  Forall (λ b, byte_val b < 128) code → toString code = map byte_val code.
Proof.
  unfold toString. induction 1 as [|b code Hb _ IH]; [done|].
  cbn [utf8_decode]. unfold utf8_lead.
  destruct (Z.leb_spec (byte_val b) 127); [|lia].
  simpl. by rewrite IH.
Qed.

Lemma ascii_lower_inv (b : byte) (c : Z) :
  ascii_lower b = c → 97 ≤ c ≤ 122 → b = byte_of c ∨ b = byte_of (c - 32).
Proof.
  unfold ascii_lower. intros Hl Hc.
  destruct ((65 <=? byte_val b) && (byte_val b <=? 90)).
  - right. apply byte_val_inj. rewrite byte_val_of by lia. lia.
  - left. apply byte_val_inj. rewrite byte_val_of by lia. lia.
Qed.

Lemma code_value_mntr (code : Buffer) :
  map ascii_lower code = js "mntr" → code_value code = js "Monitor".
Proof.
  intros Hc.
  destruct code as [|b0 [|b1 [|b2 [|b3 [|]]]]]; try discriminate.
  injection Hc as H0 H1 H2 H3.
  apply ascii_lower_inv in H0, H1, H2, H3; try lia.
  destruct H0 as [-> | ->], H1 as [-> | ->], H2 as [-> | ->], H3 as [-> | ->];
    vm_compute; reflexivity.
Qed.

(** C7, as stated, fails.  In [icc_plain] the manufacturer bytes are
    "HP" followed by two nulls; the decoded attribute keeps the nulls
    ([trim] removes white space only), where the claim has them
    stripped. *)
Lemma code_nulls_counterexample :
  ∃ profile,
    parse icc_plain = Return profile
    ∧ slice icc_plain 48 52 = bytes "HP" ++ zeros 2
    ∧ profile !! js "manufacturer" = Some (VString (js "HP" ++ [0; 0]))
    ∧ code_value_spec (slice icc_plain 48 52) = js "HP"
    ∧ profile !! js "manufacturer"
      ≠ Some (VString (code_value_spec (slice icc_plain 48 52))).
Proof.
  eexists. split; [vm_compute; reflexivity|].
  split_and!; try (vm_compute; reflexivity). vm_compute. discriminate.
Qed.

(** C7, amended.  In the result of a successful decode each of the eight
    four-byte-code attributes is present if and only if its four bytes
    are not all zero; when present, its value is the UTF-8 decoding of
    the four bytes (the bytes themselves when they are below 0x80), with
    white space removed at both ends and nulls kept, replaced by its
    entry in the vocabulary when its lower case is a key there and left
    as it is otherwise; device-class bytes spelling mntr in any letter
    case give Monitor. *)
Theorem four_byte_attributes (buffer : Buffer) (profile : gmap jsstring value) :
  parse buffer = Return profile →
  (∀ offset name, In (offset, name) fourByteAttributes →
     ∃ code, slice buffer offset (offset + 4) = code ∧ length code = 4%nat
       ∧ (code = zeros 4 → profile !! name = None)
       ∧ (code ≠ zeros 4 →
          profile !! name = Some (VString (code_value code)))
       ∧ (Forall (λ b, byte_val b < 128) code →
          code_value code
          = let value := trim (map byte_val code) in
            match valueMap !! toLowerCase value with
            | Some entry => entry
            | None => value
            end))
  ∧ (map ascii_lower (slice buffer 12 16) = js "mntr" →
     profile !! js "deviceClass" = Some (VString (js "Monitor"))).
Proof.
  intros Hp.
  assert (Hattr : ∀ offset name, In (offset, name) fourByteAttributes →
     ∃ code, slice buffer offset (offset + 4) = code ∧ length code = 4%nat
       ∧ (code = zeros 4 → profile !! name = None)
       ∧ (code ≠ zeros 4 →
          profile !! name = Some (VString (code_value code)))).
  { intros offset name Hin.
    destruct (parse_attribute _ _ _ _ Hp Hin) as (v & Hread & Hl).
    destruct (readUInt32BE_code _ _ _ Hread) as (code & Hcode & Hlen & Hz).
    exists code. split_and!; try done.
    - intros Hc. apply Hz in Hc. subst v. by rewrite Hl.
    - intros Hc. rewrite Hl, getContentAtOffsetAsString_code, Hcode.
      destruct (Z.eqb_spec v 0) as [Hv|_]; [|done]. by apply Hz in Hv. }
  split.
  - intros offset name Hin.
    destruct (Hattr offset name Hin) as (code & Hcode & Hlen & Hz & Hnz).
    exists code. split_and!; try done.
    intros Hascii. unfold code_value. by rewrite toString_ascii_bytes.
  - intros Hm.
    destruct (Hattr 12 (js "deviceClass")) as (code & Hcode & _ & _ & Hnz).
    { simpl. tauto. }
    change (12 + 4) with 16 in Hcode. rewrite Hcode in Hm.
    rewrite Hnz; [by rewrite code_value_mntr|].
    intros ->. discriminate.
Qed.

Lemma four_byte_attributes_witness :
  ∃ profile,
    parse icc_plain = Return profile
    ∧ profile !! js "deviceClass" = Some (VString (js "Monitor")).
Proof.
  eexists. split; [vm_compute; reflexivity|].
  refine (proj2 (four_byte_attributes icc_plain _ _) _);
    vm_compute; reflexivity.
Defined.

(** *** Tags *)

(** The code units of [readStringUTF16BE] are the byte pairs, high byte
    first. *)
Lemma utf16be_units_lookup (i : nat) :
  ∀ (data : Buffer) (hi lo : byte),
    data !! (2 * i)%nat = Some hi → data !! (2 * i + 1)%nat = Some lo →
    utf16be_units data !! i = Some (byte_val hi * 256 + byte_val lo).
Proof.
  induction i as [|i IH]; intros data hi lo Hhi Hlo.
  - destruct data as [|a [|b rest]]; try done.
    simpl in Hhi, Hlo. injection Hhi as ->. injection Hlo as ->.
    cbn [utf16be_units]. unfold fromCharCode. simpl. f_equal.
    pose proof (byte_val_range hi). pose proof (byte_val_range lo).
    apply Z.mod_small. lia.
  - destruct data as [|a [|b rest]]; try done.
    cbn [utf16be_units]. unfold fromCharCode. simpl.
    replace (2 * S i)%nat with (S (S (2 * i))) in Hhi by lia.
    replace (2 * S i + 1)%nat with (S (S (2 * i + 1))) in Hlo by lia.
    simpl in Hhi, Hlo. by apply IH.
Qed.

(** The signature of a recognised entry, as the loop reads it. *)
Lemma recognized_signature (buffer : Buffer) (tagHeaderOffset : Z)
    (sig attribute : string) :
  In (sig, attribute) recognized_tags →
  slice buffer tagHeaderOffset (tagHeaderOffset + 4) = bytes sig →
  getContentAtOffsetAsString buffer tagHeaderOffset = js sig
  ∧ tagMap !! js sig = Some (js attribute).
Proof.
  intros Hin Hsig. rewrite getContentAtOffsetAsString_code, Hsig.
  simpl in Hin.
  repeat (destruct Hin as [Hin|Hin];
          [injection Hin as <- <-; split; vm_compute; reflexivity|]).
  done.
Qed.

Lemma tag_type (buffer : Buffer) (tagOffset : Z) (type : string) :
  In type ["desc"; "text"; "mluc"]%string →
  slice buffer tagOffset (tagOffset + 4) = bytes type →
  getContentAtOffsetAsString buffer tagOffset = js type.
Proof.
  intros Hin Hty. rewrite getContentAtOffsetAsString_code, Hty.
  simpl in Hin.
  repeat (destruct Hin as [Hin|Hin]; [subst type; vm_compute; reflexivity|]).
  done.
Qed.

(** C8, as stated, fails.  In [icc_mluc_zero_names] the desc entry has
    its data at offset 144, inside the buffer, beginning with the type
    code mluc, and the value at tagOffset+8 (numberOfNames) is zero; the
    buffer ends at tagOffset+12, so the read of the record size throws
    the runtime's [RangeError]: the attribute is not left absent without
    error.  In [icc_mluc_name_clamped] the first name record declares
    100 bytes at offset 28 of the tag, where the buffer has four bytes
    left: the attribute is the decoding of those four bytes, "Hi", not
    of 100 bytes. *)
Lemma mluc_zero_names_counterexample :
  (slice icc_mluc_zero_names 132 136 = bytes "desc"
   ∧ readUInt32BE icc_mluc_zero_names 136 = Return 144
   ∧ 144 + 4 ≤ buf_length icc_mluc_zero_names
   ∧ slice icc_mluc_zero_names 144 148 = bytes "mluc"
   ∧ readUInt32BE icc_mluc_zero_names (144 + 8) = Return 0
   ∧ readUInt32BE icc_mluc_zero_names (144 + 12) = Throw RangeError
   ∧ parse icc_mluc_zero_names = Throw RangeError
   ∧ ∀ profile, parse icc_mluc_zero_names ≠ Return profile)
  ∧ (slice icc_mluc_name_clamped 132 136 = bytes "desc"
     ∧ readUInt32BE icc_mluc_name_clamped 136 = Return 144
     ∧ slice icc_mluc_name_clamped 144 148 = bytes "mluc"
     ∧ readUInt32BE icc_mluc_name_clamped (144 + 8) = Return 1
     ∧ readUInt32BE icc_mluc_name_clamped (144 + 12) = Return 12
     ∧ readUInt32BE icc_mluc_name_clamped (144 + 20) = Return 100
     ∧ readUInt32BE icc_mluc_name_clamped (144 + 24) = Return 28
     ∧ buf_length icc_mluc_name_clamped = 144 + 28 + 4
     ∧ attribute_of (parse icc_mluc_name_clamped) "description"
       = Some (VString (js "Hi"))).
Proof.
  assert (Hp : parse icc_mluc_zero_names = Throw RangeError)
    by (vm_compute; reflexivity).
  split; split_and!; try (vm_compute; reflexivity); try done.
Qed.

(** C8, amended.  The turn of the tag loop on a recognised entry
    (signature desc, cprt, dmdd or vued) whose data lies at an offset
    within the buffer and begins with the type code mluc.  When the
    buffer ends before tagOffset+16, so that the value at tagOffset+8 or
    the one at tagOffset+12 is not there to read, the turn ends in the
    runtime's [RangeError].  Otherwise both values are read: when the
    value at tagOffset+12 is not 12 the decoder throws the record-size
    reason; otherwise, when the value at tagOffset+8 is zero, the
    profile is left as it was; otherwise, when the buffer ends before
    tagOffset+28, the turn ends in [RangeError], and else the attribute
    is set to the big-endian UTF-16 code units of the bytes, among the
    nameLength bytes (value at tagOffset+20) that start at tagOffset
    plus the value at tagOffset+24, that lie inside the buffer: all of
    them when the range does, those up to the buffer end when it does
    not; the first name record only.  The last part of the statement
    spells out the decoding: unit [i] is byte [2i] times 256 plus byte
    [2i+1]. *)
Theorem mluc_tag (buffer : Buffer) (profile : gmap jsstring value)
    (tagHeaderOffset : Z) (sig attribute : string) (tagOffset tagSize : Z) :
  In (sig, attribute) recognized_tags →
  slice buffer tagHeaderOffset (tagHeaderOffset + 4) = bytes sig →
  readUInt32BE buffer (tagHeaderOffset + 4) = Return tagOffset →
  readUInt32BE buffer (tagHeaderOffset + 8) = Return tagSize →
  tagOffset ≤ buf_length buffer →
  slice buffer tagOffset (tagOffset + 4) = bytes "mluc" →
  (buf_length buffer < tagOffset + 16 →
   tag_body buffer tagHeaderOffset profile = Throw RangeError)
  ∧ (tagOffset + 16 ≤ buf_length buffer →
     ∃ numberOfNames nameRecordSize,
       readUInt32BE buffer (tagOffset + 8) = Return numberOfNames
       ∧ readUInt32BE buffer (tagOffset + 12) = Return nameRecordSize
       ∧ (nameRecordSize ≠ 12 →
          tag_body buffer tagHeaderOffset profile
          = Throw (invalid (js "mluc name record size must be 12 for tag "
                            ++ js sig)))
       ∧ (nameRecordSize = 12 → numberOfNames = 0 →
          tag_body buffer tagHeaderOffset profile = Return profile)
       ∧ (nameRecordSize = 12 → numberOfNames ≠ 0 →
          buf_length buffer < tagOffset + 28 →
          tag_body buffer tagHeaderOffset profile = Throw RangeError)
       ∧ (nameRecordSize = 12 → numberOfNames ≠ 0 →
          tagOffset + 28 ≤ buf_length buffer →
          ∃ nameLength nameOffset,
            readUInt32BE buffer (tagOffset + 20) = Return nameLength
            ∧ readUInt32BE buffer (tagOffset + 24) = Return nameOffset
            ∧ let name := take (Z.to_nat nameLength)
                            (drop (Z.to_nat (tagOffset + nameOffset)) buffer) in
              tag_body buffer tagHeaderOffset profile
              = Return (<[js attribute := VString (utf16be_units name)]> profile)
              ∧ (tagOffset + nameOffset + nameLength ≤ buf_length buffer →
                 length name = Z.to_nat nameLength)
              ∧ (buf_length buffer < tagOffset + nameOffset + nameLength →
                 name = drop (Z.to_nat (tagOffset + nameOffset)) buffer)
              ∧ ∀ (i : nat) hi lo,
                  name !! (2 * i)%nat = Some hi →
                  name !! (2 * i + 1)%nat = Some lo →
                  utf16be_units name !! i
                  = Some (byte_val hi * 256 + byte_val lo))).
Proof.
  intros Hin Hsig Hoff Hsize Hbound Hty.
  destruct (recognized_signature _ _ _ _ Hin Hsig) as [Hs Hmap].
  pose proof (tag_type buffer tagOffset "mluc" ltac:(simpl; tauto) Hty) as Htype.
  pose proof (readUInt32BE_range _ _ _ Hoff) as (Hto & _).
  assert (Hbody : tag_body buffer tagHeaderOffset profile
    = numberOfNames ← readUInt32BE buffer (tagOffset + 8);
      nameRecordSize ← readUInt32BE buffer (tagOffset + 12);
      if negb (nameRecordSize =? 12) then
        Throw (invalid (js "mluc name record size must be 12 for tag " ++ js sig))
      else if 0 <? numberOfNames then
        nameLength ← readUInt32BE buffer (tagOffset + 20);
        nameOffset ← readUInt32BE buffer (tagOffset + 24);
        Return (<[js attribute :=
                   VString (readStringUTF16BE buffer (tagOffset + nameOffset)
                              (tagOffset + nameOffset + nameLength))]> profile)
      else Return profile).
  { unfold tag_body. rewrite Hs, Hmap, Hoff, Hsize.
    cbn [mbind completion_bind].
    destruct (Z.ltb_spec (buf_length buffer) tagOffset); [lia|].
    rewrite Htype.
    change (str_eq (js "mluc") (js "desc")) with false.
    change (str_eq (js "mluc") (js "text")) with false.
    change (str_eq (js "mluc") (js "mluc")) with true.
    cbn [mbind completion_bind andb].
    rewrite bool_decide_eq_true_2 by done.
    reflexivity. }
  split.
  - intros Hshort. rewrite Hbody.
    destruct (readUInt32BE_cases buffer (tagOffset + 8)) as [[n Hn] | Hn];
      rewrite Hn; cbn [mbind completion_bind]; [|done].
    rewrite (readUInt32BE_out buffer (tagOffset + 12)) by lia. done.
  - intros Hlong.
    destruct (readUInt32BE_in buffer (tagOffset + 8)) as (numberOfNames & Hnames & Hn);
      [lia..|].
    destruct (readUInt32BE_in buffer (tagOffset + 12)) as (nameRecordSize & Hrec & _);
      [lia..|].
    exists numberOfNames, nameRecordSize.
    rewrite Hnames, Hrec in Hbody. cbn [mbind completion_bind] in Hbody.
    split_and!; [done|done|..].
    + intros Hne. rewrite Hbody.
      destruct (Z.eqb_spec nameRecordSize 12); [done|reflexivity].
    + intros -> ->. rewrite Hbody. reflexivity.
    + intros -> Hnz Hshort. rewrite Hbody. cbn [negb Z.eqb Pos.eqb].
      destruct (Z.ltb_spec 0 numberOfNames); [|lia].
      destruct (readUInt32BE_cases buffer (tagOffset + 20)) as [[l Hl] | Hl];
        rewrite Hl; cbn [mbind completion_bind]; [|done].
      rewrite (readUInt32BE_out buffer (tagOffset + 24)) by lia. done.
    + intros -> Hnz Hnames_in.
      destruct (readUInt32BE_in buffer (tagOffset + 20)) as (nameLength & Hlen & Hl);
        [lia..|].
      destruct (readUInt32BE_in buffer (tagOffset + 24)) as (nameOffset & Hnoff & Hno);
        [lia..|].
      exists nameLength, nameOffset. split_and!; [done|done|].
      intros name. split_and!.
      * rewrite Hbody. cbn [negb Z.eqb Pos.eqb].
        destruct (Z.ltb_spec 0 numberOfNames); [|lia].
        rewrite Hlen, Hnoff. cbn [mbind completion_bind].
        unfold readStringUTF16BE. rewrite slice_nonneg by lia.
        by replace (tagOffset + nameOffset + nameLength - (tagOffset + nameOffset))
          with nameLength by lia.
      * intros Hin_range. unfold name. rewrite length_take, length_drop.
        unfold buf_length in *. lia.
      * intros Hpast. unfold name. apply take_ge. rewrite length_drop.
        unfold buf_length in *. lia.
      * intros i hi lo. apply utf16be_units_lookup.
Qed.

Lemma mluc_tag_witness :
  tag_body icc_mluc 132 ∅
  = Return (<[js "description" := VString (js "Hi")]> ∅).
Proof.
  assert (S1 : In ("desc", "description")%string recognized_tags)
    by (simpl; tauto).
  assert (S2 : slice icc_mluc 132 (132 + 4) = bytes "desc")
    by (vm_compute; reflexivity).
  assert (S3 : readUInt32BE icc_mluc (132 + 4) = Return 144)
    by (vm_compute; reflexivity).
  assert (S4 : readUInt32BE icc_mluc (132 + 8) = Return 32)
    by (vm_compute; reflexivity).
  assert (S5 : 144 ≤ buf_length icc_mluc) by (vm_compute; discriminate).
  assert (S6 : slice icc_mluc 144 (144 + 4) = bytes "mluc")
    by (vm_compute; reflexivity).
  assert (S7 : 144 + 16 ≤ buf_length icc_mluc) by (vm_compute; discriminate).
  assert (S8 : 144 + 28 ≤ buf_length icc_mluc) by (vm_compute; discriminate).
  assert (R1 : readUInt32BE icc_mluc (144 + 8) = Return 1)
    by (vm_compute; reflexivity).
  assert (R2 : readUInt32BE icc_mluc (144 + 12) = Return 12)
    by (vm_compute; reflexivity).
  assert (R3 : readUInt32BE icc_mluc (144 + 20) = Return 4)
    by (vm_compute; reflexivity).
  assert (R4 : readUInt32BE icc_mluc (144 + 24) = Return 28)
    by (vm_compute; reflexivity).
  destruct (proj2 (mluc_tag icc_mluc ∅ 132 "desc" "description" 144 32
                     S1 S2 S3 S4 S5 S6) S7)
    as (numberOfNames & nameRecordSize & Hn & Hr & _ & _ & _ & Hname).
  rewrite R1 in Hn. rewrite R2 in Hr.
  injection Hn as Hn. injection Hr as Hr. subst numberOfNames nameRecordSize.
  destruct (Hname eq_refl ltac:(lia) S8)
    as (nameLength & nameOffset & Hl & Ho & Hbody & _).
  rewrite R3 in Hl. rewrite R4 in Ho.
  injection Hl as Hl. injection Ho as Ho. subst nameLength nameOffset.
  rewrite Hbody. vm_compute. reflexivity.
Defined.

(** C9, as stated, fails.  In [icc_desc_oversize] the desc entry has its
    header fields inside the buffer and a value range that runs past the
    buffer end, yet decoding does not succeed: the value size 100 exceeds
    the entry's declared size 12, and the decoder throws the
    out-of-bounds reason of that check. *)
Lemma desc_oversize_counterexample :
  slice icc_desc_oversize 132 136 = bytes "desc"
  ∧ readUInt32BE icc_desc_oversize 136 = Return 144
  ∧ readUInt32BE icc_desc_oversize 140 = Return 12
  ∧ slice icc_desc_oversize 144 148 = bytes "desc"
  ∧ readUInt32BE icc_desc_oversize (144 + 8) = Return 100
  ∧ buf_length icc_desc_oversize < 144 + 100 + 11
  ∧ parse icc_desc_oversize
    = Throw (invalid (js "description tag value size out of bounds for desc"))
  ∧ ∀ profile, parse icc_desc_oversize ≠ Return profile.
Proof.
  split_and!; try (vm_compute; reflexivity).
  intros profile. vm_compute. discriminate.
Qed.

(** C9, amended.  The decoder never compares the end of a tag's text
    with the length of the buffer.  The turn of the tag loop on a
    recognised entry whose data starts within the buffer succeeds with
    the attribute cut at the buffer end: for type text, when the eight
    header bytes are inside the buffer and the end of the text range
    (tagOffset + tagSize - 7) is past the buffer end; for type desc,
    when the value size can be read, does not exceed the declared size
    of the entry, and the end of the value range
    (tagOffset + tagValueSize + 11) is past the buffer end.  A desc
    value size above the declared size is rejected with its own
    reason. *)
Theorem text_truncated_at_end (buffer : Buffer) (profile : gmap jsstring value)
    (tagHeaderOffset : Z) (sig attribute : string) (tagOffset tagSize : Z) :
  In (sig, attribute) recognized_tags →
  slice buffer tagHeaderOffset (tagHeaderOffset + 4) = bytes sig →
  readUInt32BE buffer (tagHeaderOffset + 4) = Return tagOffset →
  readUInt32BE buffer (tagHeaderOffset + 8) = Return tagSize →
  tagOffset ≤ buf_length buffer →
  (slice buffer tagOffset (tagOffset + 4) = bytes "text" →
   tagOffset + 8 ≤ buf_length buffer →
   buf_length buffer < tagOffset + tagSize - 7 →
   tag_body buffer tagHeaderOffset profile
   = Return (<[js attribute :=
                VString (toString (drop (Z.to_nat (tagOffset + 8)) buffer))]>
               profile))
  ∧ (∀ tagValueSize,
       slice buffer tagOffset (tagOffset + 4) = bytes "desc" →
       readUInt32BE buffer (tagOffset + 8) = Return tagValueSize →
       (tagValueSize ≤ tagSize →
        buf_length buffer < tagOffset + tagValueSize + 11 →
        tag_body buffer tagHeaderOffset profile
        = Return (<[js attribute :=
                     VString (toString (drop (Z.to_nat (tagOffset + 12)) buffer))]>
                    profile))
       ∧ (tagSize < tagValueSize →
          tag_body buffer tagHeaderOffset profile
          = Throw (invalid (js "description tag value size out of bounds for "
                            ++ js sig)))).
Proof.
  intros Hin Hsig Hoff Hsize Hbound.
  destruct (recognized_signature _ _ _ _ Hin Hsig) as [Hs Hmap].
  pose proof (readUInt32BE_range _ _ _ Hoff) as (Hto & _).
  pose proof (readUInt32BE_range _ _ _ Hsize) as (Hts & _).
  split.
  - intros Hty Hhdr Hpast.
    pose proof (tag_type buffer tagOffset "text" ltac:(simpl; tauto) Hty) as Htype.
    unfold tag_body. rewrite Hs, Hmap, Hoff, Hsize.
    cbn [mbind completion_bind].
    destruct (Z.ltb_spec (buf_length buffer) tagOffset); [lia|].
    rewrite Htype.
    change (str_eq (js "text") (js "desc")) with false.
    change (str_eq (js "text") (js "text")) with true.
    change (str_eq (js "text") (js "mluc")) with false.
    cbn [mbind completion_bind andb].
    rewrite slice_nonneg by lia.
    rewrite take_ge by (rewrite length_drop; unfold buf_length in *; lia).
    reflexivity.
  - intros tagValueSize Hty Hvalue.
    pose proof (tag_type buffer tagOffset "desc" ltac:(simpl; tauto) Hty) as Htype.
    pose proof (readUInt32BE_range _ _ _ Hvalue) as (Hv & _).
    assert (Hbody : tag_body buffer tagHeaderOffset profile
      = if tagSize <? tagValueSize then
          Throw (invalid (js "description tag value size out of bounds for "
                          ++ js sig))
        else
          Return (<[js attribute :=
                     VString (toString (slice buffer (tagOffset + 12)
                                          (tagOffset + tagValueSize + 11)))]>
                    profile)).
    { unfold tag_body. rewrite Hs, Hmap, Hoff, Hsize.
      cbn [mbind completion_bind].
      destruct (Z.ltb_spec (buf_length buffer) tagOffset); [lia|].
      rewrite Htype.
      change (str_eq (js "desc") (js "desc")) with true.
      change (str_eq (js "desc") (js "text")) with false.
      change (str_eq (js "desc") (js "mluc")) with false.
      rewrite Hvalue. cbn [mbind completion_bind andb].
      by destruct (tagSize <? tagValueSize). }
    split.
    + intros Hle Hpast. rewrite Hbody.
      destruct (Z.ltb_spec tagSize tagValueSize); [lia|].
      rewrite slice_nonneg by lia.
      rewrite take_ge by (rewrite length_drop; unfold buf_length in *; lia).
      reflexivity.
    + intros Hgt. rewrite Hbody.
      by destruct (Z.ltb_spec tagSize tagValueSize); [|lia].
Qed.

Lemma text_truncated_at_end_witness :
  tag_body icc_text_truncated 132 ∅
  = Return (<[js "copyright" := VString (js "Copyright")]> ∅).
Proof.
  assert (S1 : In ("cprt", "copyright")%string recognized_tags)
    by (simpl; tauto).
  assert (S2 : slice icc_text_truncated 132 (132 + 4) = bytes "cprt")
    by (vm_compute; reflexivity).
  assert (S3 : readUInt32BE icc_text_truncated (132 + 4) = Return 144)
    by (vm_compute; reflexivity).
  assert (S4 : readUInt32BE icc_text_truncated (132 + 8) = Return 64)
    by (vm_compute; reflexivity).
  assert (S5 : 144 ≤ buf_length icc_text_truncated) by (vm_compute; discriminate).
  assert (T1 : slice icc_text_truncated 144 (144 + 4) = bytes "text")
    by (vm_compute; reflexivity).
  assert (T2 : 144 + 8 ≤ buf_length icc_text_truncated)
    by (vm_compute; discriminate).
  assert (T3 : buf_length icc_text_truncated < 144 + 64 - 7)
    by (vm_compute; reflexivity).
  rewrite (proj1 (text_truncated_at_end icc_text_truncated ∅ 132 "cprt" "copyright"
                    144 64 S1 S2 S3 S4 S5) T1 T2 T3).
  vm_compute. reflexivity.
Defined.

(** ** Scenarios *)

Example decode_plain :
  map (attribute_of (parse icc_plain))
    ["version"; "intent"; "cmm"; "deviceClass"; "colorSpace"; "description"]%string
  = [Some VUndefined; Some (VString (js "Perceptual")); None;
     Some (VString (js "Monitor")); Some (VString (js "RGB")); None].
Proof. vm_compute. reflexivity. Qed.

Example decode_desc_copyright :
  attribute_of (parse icc_desc_copyright) "copyright"
  = Some (VString (js "Copyright")).
Proof. vm_compute. reflexivity. Qed.

Example decode_mluc :
  attribute_of (parse icc_mluc) "description" = Some (VString (js "Hi")).
Proof. vm_compute. reflexivity. Qed.

Example decode_mluc_no_name :
  (∃ profile, parse icc_mluc_no_name = Return profile)
  ∧ attribute_of (parse icc_mluc_no_name) "description" = None.
Proof. split; [eexists|]; vm_compute; reflexivity. Qed.

Example decode_mluc_record_10 :
  parse icc_mluc_record_10
  = Throw (invalid (js "mluc name record size must be 12 for tag desc")).
Proof. vm_compute. reflexivity. Qed.

Example decode_length_mismatch :
  parse (be32 5 ++ zeros 4) = Throw (invalid (js "length mismatch")).
Proof. vm_compute. reflexivity. Qed.

Example decode_missing_signature :
  parse (icc_of (zeros 128)) = Throw (invalid (js "missing signature")).
Proof. vm_compute. reflexivity. Qed.

Example decode_tag_offset_past_end :
  parse icc_tag_offset_past_end
  = Throw (invalid (js "tag offset out of bounds")).
Proof. vm_compute. reflexivity. Qed.

Example extract_png_plain :
  extractFromPNG inflate_stored png_plain
  = Some ([js "No iCCP chunk found"], Return None).
Proof. vm_compute. reflexivity. Qed.

Example extract_png_rejected :
  extractFromPNG inflate_rejects png_with_iCCP
  = Some ([], Throw (Error (js "Failed to decompress ICC profile: incorrect header check"))).
Proof. vm_compute. reflexivity. Qed.

(** * Further properties of the code *)

(** ** extractFromJPEG *)

Lemma startsWith_app (lit rest : jsstring) : startsWith (lit ++ rest) lit = true.
Proof.
  induction lit as [|c lit IH]; [by destruct rest|]. simpl. by rewrite Z.eqb_refl, IH.
Qed.

Lemma startsWith_length (lit : jsstring) :
  ∀ s, startsWith s lit = true → (length lit ≤ length s)%nat.
Proof.
  induction lit as [|p lit IH]; intros s H; simpl; [lia|].
  destruct s as [|c s]; [done|]. simpl in *.
  apply andb_true_iff in H as [_ H]. apply IH in H. lia.
Qed.

Lemma fragment_icc (part : Buffer * Buffer) :
  length part.1 = 3%nat → fragment (icc_segment part) = part.2.
Proof.
  intros H3. unfold fragment, icc_segment. cbn [payload].
  rewrite app_assoc. apply drop_app_length'.
  rewrite length_app, H3. reflexivity.
Qed.

(** The turn on a segment that carries a piece of a profile, whatever
    follows the segment. *)
Lemma jpeg_body_icc_segment (pre rest : Buffer) (part : Buffer * Buffer)
    (buffers : list Buffer) :
  length part.1 = 3%nat → buf_length part.2 + 16 < 65536 →
  jpeg_body (pre ++ encode_segment (icc_segment part) ++ rest)
    (buf_length pre) buffers
  = Return (buf_length (pre ++ encode_segment (icc_segment part)),
            buffers ++ [part.2]).
Proof.
  intros H3 Hd. rewrite jpeg_body_segment_any.
  - rewrite fragment_icc by done.
    unfold icc_segment at 2 3. cbn [marker_code payload].
    rewrite bool_decide_eq_true_2 by done. cbn [andb].
    unfold icc_segment. cbn [payload].
    rewrite <- !app_assoc. unfold asciiSlice. rewrite map_app.
    change (map (λ b, Z.land (byte_val b) 127) (bytes "ICC_PROFILE"))
      with (js "ICC_PROFILE").
    by rewrite startsWith_app.
  - unfold segment_fits, icc_segment. cbn [payload].
    rewrite !buf_length_app. unfold buf_length in *. rewrite H3.
    change (length (bytes "ICC_PROFILE")) with 11%nat. lia.
Qed.

Lemma jpeg_while_icc_segments (tail : Buffer) :
  (length tail ≤ 4)%nat →
  ∀ parts pre buffers,
    Forall (λ part, length part.1 = 3%nat ∧ buf_length part.2 + 16 < 65536) parts →
    jpeg_while (length parts) (pre ++ encode_segments (map icc_segment parts) ++ tail)
      (buf_length pre) buffers
    = Some (Return (buffers ++ map snd parts)).
Proof.
  intros Hlen.
  induction parts as [|part parts IH]; intros pre buffers Hparts.
  - simpl. unfold jpeg_cond.
    destruct (Z.ltb_spec (buf_length pre) (buf_length (pre ++ tail) - 4)) as [Hlt|_].
    + rewrite buf_length_app in Hlt. unfold buf_length in Hlt. lia.
    + by rewrite app_nil_r.
  - inversion Hparts as [|? ? [H3 Hd] Hrest]; subst.
    change (encode_segments (map icc_segment (part :: parts)))
      with (encode_segment (icc_segment part)
            ++ encode_segments (map icc_segment parts)).
    rewrite <- (app_assoc (encode_segment (icc_segment part))).
    change (length (part :: parts)) with (S (length parts)).
    cbn [jpeg_while].
    assert (Hc : jpeg_cond
                   (pre ++ encode_segment (icc_segment part)
                        ++ encode_segments (map icc_segment parts) ++ tail)
                   (buf_length pre) = true).
    { unfold jpeg_cond. apply Z.ltb_lt.
      rewrite !buf_length_app, encode_segment_length.
      change (payload (icc_segment part))
        with (bytes "ICC_PROFILE" ++ part.1 ++ part.2).
      rewrite !buf_length_app.
      pose proof (buf_length_nonneg part.1).
      pose proof (buf_length_nonneg part.2).
      pose proof (buf_length_nonneg (encode_segments (map icc_segment parts))).
      pose proof (buf_length_nonneg tail).
      change (buf_length (bytes "ICC_PROFILE")) with 11. lia. }
    rewrite Hc, jpeg_body_icc_segment by done.
    rewrite (app_assoc pre). rewrite IH by done.
    cbn [map]. by rewrite <- app_assoc.
Qed.

(** X1. Splitting a profile over APP2 ICC_PROFILE segments and
    extracting gives the pieces back, joined in file order, whatever the
    at most four bytes after the last segment are; the three bytes after
    the literal (terminator, sequence number, count) are never looked
    at. *)
Theorem extractFromJPEG_parts (soi tail : Buffer) (parts : list (Buffer * Buffer)) :
  length soi = 2%nat → (length tail ≤ 4)%nat →
  Forall (λ part, length part.1 = 3%nat ∧ buf_length part.2 + 16 < 65536) parts →
  extractFromJPEG (soi ++ encode_segments (map icc_segment parts) ++ tail)
  = Some (Return match parts with
                 | [] => None
                 | _ => Some (concat (map snd parts))
                 end).
Proof.
  intros Hsoi Htail Hparts.
  unfold extractFromJPEG.
  pose proof (jpeg_while_icc_segments tail Htail parts soi [] Hparts) as Hw.
  replace (buf_length soi) with 2 in Hw by (unfold buf_length; lia).
  cbn [app] in Hw.
  rewrite (jpeg_while_fuel _ _ _ _ _ Hw).
  - destruct parts; reflexivity.
  - pose proof (encode_segments_length (map icc_segment parts)) as Hn.
    rewrite length_map in Hn. rewrite !length_app. lia.
Qed.

Lemma extractFromJPEG_parts_witness :
  extractFromJPEG
    ([Byte.xff; Byte.xd8]
     ++ encode_segments
          (map icc_segment [([Byte.x00; Byte.x02; Byte.x02], bytes "first ");
                            ([Byte.x00; Byte.x01; Byte.x02], bytes "second")])
     ++ [Byte.x00; Byte.x01])
  = Some (Return (Some (bytes "first second"))).
Proof.
  apply (extractFromJPEG_parts [Byte.xff; Byte.xd8] [Byte.x00; Byte.x01]
           [([Byte.x00; Byte.x02; Byte.x02], bytes "first ");
            ([Byte.x00; Byte.x01; Byte.x02], bytes "second")]).
  - reflexivity.
  - simpl. lia.
  - repeat constructor; vm_compute; reflexivity.
Defined.

(** X21. For a buffer of two bytes, marker segments laid end to end, and
    after them nothing or at most four bytes that begin with 0xFF (the
    end marker), [extractFromJPEG] returns the concatenation, in file
    order, of the bytes from payload byte 14 to the segment's end of
    every APP2 segment whose first 11 payload bytes read ICC_PROFILE
    after ['ascii'] decoding, and nothing when there is no such segment;
    segments with other markers or other payloads are stepped over.  With
    exactly one such segment the result is exactly that segment's bytes.
    Where the first 11 payload bytes of every segment are below 0x80,
    the segments taken are exactly the APP2 segments whose payload
    begins with the bytes of ICC_PROFILE. *)
Theorem extractFromJPEG_segments (soi tail : Buffer) (segs : list segment) :
  length soi = 2%nat → Forall segment_fits segs → jpeg_tail tail →
  extractFromJPEG (soi ++ encode_segments segs ++ tail)
  = Some (Return
            match List.filter is_icc_segment_ascii segs with
            | [] => None
            | frags => Some (concat (map fragment frags))
            end)
  ∧ (∀ s, List.filter is_icc_segment_ascii segs = [s] →
          extractFromJPEG (soi ++ encode_segments segs ++ tail)
          = Some (Return (Some (drop 14 (payload s)))))
  ∧ (Forall (λ s, Forall (λ b, byte_val b < 128) (take 11 (payload s))) segs →
     List.filter is_icc_segment_ascii segs = List.filter is_icc_segment segs).
Proof.
  intros Hsoi Hfit Htail.
  assert (Hmain : extractFromJPEG (soi ++ encode_segments segs ++ tail)
    = Some (Return
              match List.filter is_icc_segment_ascii segs with
              | [] => None
              | frags => Some (concat (map fragment frags))
              end)).
  { unfold extractFromJPEG.
    pose proof (jpeg_while_segments tail Htail segs soi [] Hfit) as Hw.
    replace (buf_length soi) with 2 in Hw by (unfold buf_length; lia).
    rewrite (jpeg_while_fuel _ _ _ _ _ Hw).
    - simpl. by destruct (List.filter is_icc_segment_ascii segs).
    - pose proof (encode_segments_length segs). rewrite !length_app. lia. }
  split_and!; [done| |].
  - intros s Hs. rewrite Hmain, Hs. simpl. by rewrite app_nil_r.
  - clear. induction 1 as [|s segs Hs _ IH]; [done|].
    simpl. by rewrite IH, is_icc_segment_7bit.
Qed.

Lemma extractFromJPEG_segments_witness :
  extractFromJPEG jpeg_one_fragment = Some (Return (Some (bytes "DATA"))).
Proof.
  refine (proj1 (proj2 (extractFromJPEG_segments [Byte.xff; Byte.xd8]
                          [Byte.xff; Byte.xd9] [jpeg_segment_genuine] _ _ _))
            jpeg_segment_genuine _).
  - reflexivity.
  - repeat constructor.
  - split; [simpl; lia | by right].
  - reflexivity.
Defined.

Lemma slice_length (buf : Buffer) (start end_ : Z) :
  0 ≤ start → 0 ≤ end_ →
  buf_length (slice buf start end_)
  = Z.max 0 (Z.min end_ (buf_length buf) - Z.min start (buf_length buf)).
Proof.
  intros Hs He. rewrite slice_nonneg by done.
  unfold buf_length. rewrite length_take, length_drop. lia.
Qed.

Lemma buf_length_concat_snoc (buffers : list Buffer) (data : Buffer) :
  buf_length (concat (buffers ++ [data]))
  = buf_length (concat buffers) + buf_length data.
Proof.
  rewrite concat_app. simpl. rewrite app_nil_r. apply buf_length_app.
Qed.

(** What the loop has collected stays 20 bytes behind the position (SOI,
    marker, length and the 14-byte header of the first fragment), and a
    fragment is only ever taken from a buffer of 17 bytes or more. *)
Lemma jpeg_while_size (jpeg : Buffer) (fuel : nat) :
  ∀ pos buffers r,
    2 ≤ pos →
    (buf_length (concat buffers) = 0
     ∨ buf_length (concat buffers) + 20 ≤ Z.min pos (buf_length jpeg)) →
    (buffers = [] ∨ 17 ≤ buf_length jpeg) →
    jpeg_while fuel jpeg pos buffers = Some (Return r) →
    (buf_length (concat r) = 0 ∨ buf_length (concat r) + 20 ≤ buf_length jpeg)
    ∧ (r = [] ∨ 17 ≤ buf_length jpeg).
Proof.
  induction fuel as [|fuel IH]; intros pos buffers r Hpos Hsize Hsome Hr;
    simpl in Hr.
  - destruct (jpeg_cond jpeg pos); [done|]. injection Hr as <-.
    split; [lia|done].
  - destruct (jpeg_cond jpeg pos) eqn:Hc.
    2:{ injection Hr as <-. split; [lia|done]. }
    destruct (jpeg_body_Return jpeg pos buffers ltac:(lia) Hc)
      as (marker & len & buffers' & Hm & Hl & Hlen & Hb).
    rewrite Hb in Hr.
    unfold jpeg_body in Hb. rewrite Hm, Hl in Hb.
    cbn [mbind completion_bind] in Hb. injection Hb as Hb.
    subst buffers'.
    refine (IH (pos + len + 2) _ r _ _ _ Hr); [lia| |].
    + destruct (marker =? 65506); [|lia].
      destruct (startsWith _ _); [|lia].
      rewrite buf_length_concat_snoc, slice_length by lia. lia.
    + destruct (marker =? 65506); [|done].
      destruct (startsWith _ _) eqn:Hsig; [|done].
      right. apply startsWith_length in Hsig.
      rewrite toString_ascii_range_nonneg in Hsig by lia.
      unfold asciiSlice in Hsig.
      rewrite length_map, length_take, length_drop in Hsig.
      change (length (js "ICC_PROFILE")) with 11%nat in Hsig.
      unfold buf_length. lia.
Qed.

(** X2. A profile extracted from a JPEG buffer is at least 17 bytes
    shorter than the buffer: SOI, a marker, a length field and the
    literal are never part of it. *)
Theorem extractFromJPEG_size (jpeg profile : Buffer) :
  extractFromJPEG jpeg = Some (Return (Some profile)) →
  (length profile + 17 ≤ length jpeg)%nat.
Proof.
  unfold extractFromJPEG. intros H.
  destruct (jpeg_while (length jpeg) jpeg 2 []) as [[buffers|e]|] eqn:Hw;
    try done.
  destruct (Nat.eqb_spec (length buffers) 0) as [|Hne]; [done|].
  injection H as <-.
  apply jpeg_while_size in Hw as [Hsize Hsome]; [|lia|by left|by left].
  destruct Hsome as [->|H17]; [done|].
  unfold buf_length in *. lia.
Qed.

Lemma extractFromJPEG_size_witness :
  (length (bytes "DATA") + 17 ≤ length jpeg_one_fragment)%nat.
Proof.
  apply (extractFromJPEG_size jpeg_one_fragment (bytes "DATA")).
  vm_compute. reflexivity.
Defined.

(** X3. Buffers too short to hold a segment or a chunk give "none"
    without any read: a JPEG buffer of 6 bytes or fewer (the empty one
    included), a PNG buffer of 8 bytes or fewer. *)
Theorem short_containers (inflateSync : Buffer → jsstring + Buffer)
    (buf : Buffer) :
  ((length buf ≤ 6)%nat → extractFromJPEG buf = Some (Return None))
  ∧ ((length buf ≤ 8)%nat →
     extractFromPNG inflateSync buf
     = Some ([js "No iCCP chunk found"], Return None)).
Proof.
  split; intros Hlen.
  - unfold extractFromJPEG.
    assert (Hc : jpeg_cond buf 2 = false).
    { unfold jpeg_cond, buf_length. apply Z.ltb_ge. lia. }
    by destruct (length buf); simpl; rewrite Hc.
  - unfold extractFromPNG.
    assert (Hc : png_cond buf 8 = false).
    { unfold png_cond, buf_length. apply Z.ltb_ge. lia. }
    by destruct (length buf); simpl; rewrite Hc.
Qed.

Lemma short_containers_witness :
  extractFromJPEG [] = Some (Return None)
  ∧ extractFromPNG inflate_rejects png_signature
    = Some ([js "No iCCP chunk found"], Return None).
Proof.
  split.
  - apply (proj1 (short_containers inflate_rejects [])). simpl. lia.
  - apply (proj2 (short_containers inflate_rejects png_signature)). simpl. lia.
Defined.

(** *** Reads behind a prefix *)

Lemma readUInt16BE_range (buf : Buffer) (offset v : Z) :
  readUInt16BE buf offset = Return v → 0 ≤ v < 65536.
Proof.
  unfold readUInt16BE. intros H.
  destruct (at_index buf offset) as [b0|]; [|done].
  destruct (at_index buf (offset + 1)) as [b1|]; [|done].
  injection H as <-.
  pose proof (byte_val_range b0). pose proof (byte_val_range b1). lia.
Qed.

Lemma readUInt16BE_shift (pre l : Buffer) (offset : Z) :
  buf_length pre ≤ offset →
  readUInt16BE (pre ++ l) offset = readUInt16BE l (offset - buf_length pre).
Proof.
  intros H. unfold readUInt16BE.
  rewrite (at_index_app pre l offset (offset - buf_length pre)) by lia.
  rewrite (at_index_app pre l (offset + 1) (offset - buf_length pre + 1)) by lia.
  reflexivity.
Qed.

Lemma readUInt32BE_shift (pre l : Buffer) (offset : Z) :
  buf_length pre ≤ offset →
  readUInt32BE (pre ++ l) offset = readUInt32BE l (offset - buf_length pre).
Proof.
  intros H. unfold readUInt32BE.
  rewrite (at_index_app pre l offset (offset - buf_length pre)) by lia.
  rewrite (at_index_app pre l (offset + 1) (offset - buf_length pre + 1)) by lia.
  rewrite (at_index_app pre l (offset + 2) (offset - buf_length pre + 2)) by lia.
  rewrite (at_index_app pre l (offset + 3) (offset - buf_length pre + 3)) by lia.
  reflexivity.
Qed.

Lemma slice_shift (pre l : Buffer) (start end_ : Z) :
  buf_length pre ≤ start → buf_length pre ≤ end_ →
  slice (pre ++ l) start end_
  = slice l (start - buf_length pre) (end_ - buf_length pre).
Proof.
  intros Hs He. pose proof (buf_length_nonneg pre).
  rewrite !slice_nonneg by lia.
  rewrite (drop_app_buf pre l start (start - buf_length pre)) by lia.
  by replace (end_ - buf_length pre - (start - buf_length pre))
    with (end_ - start) by lia.
Qed.

Lemma toString_ascii_range_shift (pre l : Buffer) (start end_ : Z) :
  buf_length pre ≤ start →
  toString_ascii_range (pre ++ l) start end_
  = toString_ascii_range l (start - buf_length pre) (end_ - buf_length pre).
Proof.
  intros Hs. pose proof (buf_length_nonneg pre).
  rewrite !toString_ascii_range_nonneg by lia.
  rewrite (drop_app_buf pre l start (start - buf_length pre)) by lia.
  by replace (end_ - buf_length pre - (start - buf_length pre))
    with (end_ - start) by lia.
Qed.

Section Prefix.

Variables (pre pre' l : Buffer).
Hypothesis same_length : length pre = length pre'.

Lemma prefix_buf_length : buf_length pre' = buf_length pre.
Proof using same_length. unfold buf_length. by rewrite same_length. Qed.

Lemma prefix_total_length : buf_length (pre' ++ l) = buf_length (pre ++ l).
Proof using same_length. by rewrite !buf_length_app, prefix_buf_length. Qed.

Lemma jpeg_body_prefix (pos : Z) (buffers : list Buffer) :
  buf_length pre ≤ pos →
  jpeg_body (pre ++ l) pos buffers = jpeg_body (pre' ++ l) pos buffers.
Proof using same_length.
  intros Hpos. pose proof prefix_buf_length as Hn.
  unfold jpeg_body.
  rewrite !(readUInt16BE_shift pre), !(readUInt16BE_shift pre') by lia.
  rewrite Hn.
  destruct (readUInt16BE l (pos - buf_length pre)) as [marker|]; [|done].
  cbn [mbind completion_bind].
  replace (pos + 2 - buf_length pre) with (pos - buf_length pre + 2) by lia.
  destruct (readUInt16BE l (pos - buf_length pre + 2)) as [len|] eqn:Hl; [|done].
  apply readUInt16BE_range in Hl.
  cbn [mbind completion_bind].
  rewrite (toString_ascii_range_shift pre), (toString_ascii_range_shift pre')
    by lia.
  rewrite (slice_shift pre), (slice_shift pre') by lia.
  by rewrite Hn.
Qed.

Lemma jpeg_while_prefix (fuel : nat) :
  ∀ pos buffers,
    0 ≤ pos → buf_length pre ≤ pos →
    jpeg_while fuel (pre ++ l) pos buffers
    = jpeg_while fuel (pre' ++ l) pos buffers.
Proof using same_length.
  induction fuel as [|fuel IH]; intros pos buffers H0 Hpos; simpl;
    unfold jpeg_cond; rewrite prefix_total_length; [done|].
  destruct (pos <? buf_length (pre ++ l) - 4) eqn:Hc; [|done].
  rewrite <- jpeg_body_prefix by done.
  destruct (jpeg_body_Return (pre ++ l) pos buffers H0 Hc)
    as (marker & len & buffers' & _ & _ & Hlen & ->).
  apply IH; lia.
Qed.

Section PNGPrefix.

Variable inflateSync : Buffer → jsstring + Buffer.

Lemma png_body_prefix (offset : Z) :
  buf_length pre ≤ offset →
  png_body inflateSync (pre ++ l) offset = png_body inflateSync (pre' ++ l) offset.
Proof using same_length.
  intros Hoff. pose proof prefix_buf_length as Hn.
  unfold png_body.
  rewrite (readUInt32BE_shift pre), (readUInt32BE_shift pre') by lia.
  rewrite Hn.
  destruct (readUInt32BE l (offset - buf_length pre)) as [chunkLength|] eqn:Hr;
    [|done].
  apply readUInt32BE_range in Hr as (Hr & _).
  cbn [mbind completion_bind].
  rewrite !(slice_shift pre), !(slice_shift pre') by lia.
  by rewrite Hn.
Qed.

Lemma png_while_prefix (fuel : nat) :
  ∀ offset,
    buf_length pre ≤ offset →
    png_while inflateSync fuel (pre ++ l) offset
    = png_while inflateSync fuel (pre' ++ l) offset.
Proof using same_length.
  induction fuel as [|fuel IH]; intros offset Hoff; simpl;
    unfold png_cond; rewrite prefix_total_length; [done|].
  destruct (offset <? buf_length (pre ++ l)); [|done].
  rewrite <- png_body_prefix by done.
  destruct (png_body inflateSync (pre ++ l) offset) as [[offset'| |p]|e] eqn:Hb;
    try done.
  apply png_body_Continue in Hb as (n & _ & Hn & ->).
  apply IH. lia.
Qed.

End PNGPrefix.

End Prefix.

(** X4. [extractFromJPEG] never looks at the first two bytes: whatever
    stands in place of the start-of-image marker, the result is the
    same. *)
Theorem extractFromJPEG_ignores_SOI (soi soi' rest : Buffer) :
  length soi = 2%nat → length soi' = 2%nat →
  extractFromJPEG (soi ++ rest) = extractFromJPEG (soi' ++ rest).
Proof.
  intros H2 H2'. unfold extractFromJPEG.
  rewrite !length_app, H2'. rewrite <- H2 at 1.
  rewrite <- !length_app.
  rewrite (jpeg_while_prefix soi soi' rest);
    [done | congruence | lia | unfold buf_length; lia].
Qed.

Lemma extractFromJPEG_ignores_SOI_witness :
  extractFromJPEG ([Byte.x00; Byte.x00] ++ drop 2 jpeg_one_fragment)
  = Some (Return (Some (bytes "DATA"))).
Proof.
  rewrite (extractFromJPEG_ignores_SOI [Byte.x00; Byte.x00] [Byte.xff; Byte.xd8]);
    [vm_compute; reflexivity | reflexivity | reflexivity].
Defined.

(** X5. [extractFromPNG] never looks at the first eight bytes: the PNG
    signature is skipped, not checked. *)
Theorem extractFromPNG_ignores_signature
    (inflateSync : Buffer → jsstring + Buffer) (sig sig' rest : Buffer) :
  length sig = 8%nat → length sig' = 8%nat →
  extractFromPNG inflateSync (sig ++ rest)
  = extractFromPNG inflateSync (sig' ++ rest).
Proof.
  intros H8 H8'. unfold extractFromPNG.
  rewrite !length_app, H8'. rewrite <- H8 at 1.
  rewrite <- !length_app.
  rewrite (png_while_prefix sig sig' rest);
    [done | congruence | unfold buf_length; lia].
Qed.

Lemma extractFromPNG_ignores_signature_witness :
  extractFromPNG inflate_stored (zeros 8 ++ drop 8 png_with_iCCP)
  = Some ([], Return (Some (bytes "PROFILE"))).
Proof.
  rewrite (extractFromPNG_ignores_signature inflate_stored (zeros 8) png_signature);
    [vm_compute; reflexivity | reflexivity | reflexivity].
Defined.

(** ** extractFromPNG *)

Lemma indexOf_from_spec (data : Buffer) :
  ∀ i, 0 ≤ i →
    (indexOf_from data 0 i = -1 ∧ Forall (λ b, b ≠ Byte.x00) data)
    ∨ (i ≤ indexOf_from data 0 i < i + buf_length data
       ∧ data !! Z.to_nat (indexOf_from data 0 i - i) = Some Byte.x00).
Proof.
  induction data as [|b data IH]; intros i Hi; simpl.
  - left. by split.
  - destruct (Z.eqb_spec (byte_val b) 0) as [Hz|Hnz].
    + right. change 0 with (byte_val Byte.x00) in Hz. apply byte_val_inj in Hz.
      subst b. unfold buf_length. simpl length.
      replace (Z.to_nat (i - i)) with 0%nat by lia. split; [lia|done].
    + destruct (IH (i + 1) ltac:(lia)) as [[Hm Hall]|[Hr Hl]].
      * left. split; [done|]. constructor; [|done]. by intros ->.
      * right. unfold buf_length in *. simpl length. split; [lia|].
        replace (Z.to_nat (indexOf_from data 0 (i + 1) - i))
          with (S (Z.to_nat (indexOf_from data 0 (i + 1) - (i + 1)))) by lia.
        done.
Qed.

Section PNGErrors.

Variable inflateSync : Buffer → jsstring + Buffer.

(** The turn on an IEND chunk leaves the loop. *)
Lemma png_body_IEND (pre rest data crc : Buffer) :
  buf_length data < 2 ^ 32 →
  png_body inflateSync (pre ++ encode_chunk (Chunk (bytes "IEND") data crc) ++ rest)
    (buf_length pre)
  = Return PngBreak.
Proof.
  intros Hlen.
  pose proof (png_chunk_reads pre rest (Chunk (bytes "IEND") data crc)
                eq_refl Hlen) as (Hread & Htype & _).
  cbn [chunk_type chunk_data] in Hread, Htype.
  unfold png_body. rewrite Hread. cbn [mbind completion_bind]. rewrite Htype.
  reflexivity.
Qed.

(** The turn on an iCCP chunk whose data has no zero byte before its
    last byte. *)
Lemma png_body_iCCP_format (pre rest data crc : Buffer) :
  buf_length data < 2 ^ 32 →
  Forall (λ b, b ≠ Byte.x00) (take (length data - 1) data) →
  png_body inflateSync (pre ++ encode_chunk (Chunk (bytes "iCCP") data crc) ++ rest)
    (buf_length pre)
  = Throw (Error (js "Invalid iCCP chunk format")).
Proof.
  intros Hlen Hnz.
  pose proof (png_chunk_reads pre rest (Chunk (bytes "iCCP") data crc)
                eq_refl Hlen) as (Hread & Htype & Hdata).
  cbn [chunk_type chunk_data] in Hread, Htype, Hdata.
  unfold png_body. rewrite Hread. cbn [mbind completion_bind].
  rewrite Htype, Hdata.
  change (str_eq (toString_ascii (bytes "iCCP")) (js "IEND")) with false.
  change (str_eq (toString_ascii (bytes "iCCP")) (js "iCCP")) with true.
  cbn iota. unfold indexOf.
  destruct (indexOf_from_spec data 0 ltac:(lia)) as [[-> _]|[Hr Hl]]; [done|].
  destruct (Z.eqb_spec (indexOf_from data 0 0) (-1)); [done|].
  destruct (Z.eqb_spec (indexOf_from data 0 0) (buf_length data - 1)); [done|].
  exfalso.
  rewrite Z.sub_0_r in Hl.
  assert (Hin : take (length data - 1) data !! Z.to_nat (indexOf_from data 0 0)
                = Some Byte.x00).
  { rewrite lookup_take_lt; [done|]. unfold buf_length in *. lia. }
  apply list_elem_of_lookup_2 in Hin.
  rewrite Forall_forall in Hnz. by apply (Hnz _ Hin).
Qed.

(** The turn on an iCCP chunk whose compression-method byte is not 0:
    the decompressor is not called. *)
Lemma png_body_iCCP_method (pre rest name compressed crc : Buffer) (method : byte) :
  Forall (λ b, b ≠ Byte.x00) name → method ≠ Byte.x00 →
  buf_length (name ++ [Byte.x00; method] ++ compressed) < 2 ^ 32 →
  png_body inflateSync
    (pre ++ encode_chunk (Chunk (bytes "iCCP")
                            (name ++ [Byte.x00; method] ++ compressed) crc)
         ++ rest)
    (buf_length pre)
  = Throw (Error (js "Unsupported compression method")).
Proof.
  intros Hname Hmethod Hlen.
  pose proof (png_chunk_reads pre rest
                (Chunk (bytes "iCCP") (name ++ [Byte.x00; method] ++ compressed) crc)
                eq_refl Hlen) as (Hread & Htype & Hdata).
  cbn [chunk_type chunk_data] in Hread, Htype, Hdata.
  pose proof (buf_length_nonneg name) as Hn.
  pose proof (buf_length_nonneg compressed) as Hc.
  assert (Hlen' : buf_length (name ++ [Byte.x00; method] ++ compressed)
                  = buf_length name + 2 + buf_length compressed).
  { rewrite !buf_length_app. unfold buf_length at 2. simpl. lia. }
  assert (Hnull : indexOf (name ++ [Byte.x00; method] ++ compressed) 0
                  = buf_length name).
  { unfold indexOf.
    change (name ++ [Byte.x00; method] ++ compressed)
      with (name ++ Byte.x00 :: method :: compressed).
    rewrite indexOf_from_first by done. lia. }
  assert (Hm : at_index (name ++ [Byte.x00; method] ++ compressed)
                 (buf_length name + 1) = Some method).
  { by rewrite (at_index_app name _ _ 1) by lia. }
  remember (name ++ [Byte.x00; method] ++ compressed) as data eqn:Edata.
  remember (pre ++ encode_chunk (Chunk (bytes "iCCP") data crc) ++ rest)
    as png eqn:Epng.
  clear Epng Edata.
  unfold png_body. rewrite Hread. cbn [mbind completion_bind].
  rewrite Htype, Hdata, Hnull, Hm.
  change (str_eq (toString_ascii (bytes "iCCP")) (js "IEND")) with false.
  change (str_eq (toString_ascii (bytes "iCCP")) (js "iCCP")) with true.
  cbn iota.
  destruct (Z.eqb_spec (buf_length name) (-1)); [lia|].
  destruct (Z.eqb_spec (buf_length name) (buf_length data - 1)); [lia|].
  cbn [orb fmap option_fmap option_map].
  rewrite bool_decide_eq_false_2; [done|].
  intros [= Hz]. apply Hmethod, byte_val_inj. by rewrite Hz.
Qed.

(** The scan up to a chunk: the chunks before it are stepped over, and
    what the turn on it gives (other than going on) is the result. *)
Lemma png_while_at (before : list chunk) (sig rest : Buffer) (c : chunk)
    (r : completion (option Buffer)) :
  length sig = 8%nat →
  Forall chunk_wf before →
  Forall (λ c, chunk_type c ≠ bytes "IEND" ∧ chunk_type c ≠ bytes "iCCP") before →
  match png_body inflateSync (sig ++ encode_chunks before ++ encode_chunk c ++ rest)
          (buf_length (sig ++ encode_chunks before)) with
  | Return (PngContinue _) => False
  | Return PngBreak => r = Return None
  | Return (PngReturn p) => r = Return (Some p)
  | Throw e => r = Throw e
  end →
  png_while inflateSync
    (length (sig ++ encode_chunks before ++ encode_chunk c ++ rest))
    (sig ++ encode_chunks before ++ encode_chunk c ++ rest) 8
  = Some r.
Proof.
  intros Hsig Hwf Hty Hbody.
  set (png := sig ++ encode_chunks before ++ encode_chunk c ++ rest) in *.
  assert (H4 : 4 ≤ buf_length (encode_chunk c)).
  { rewrite encode_chunk_length.
    pose proof (buf_length_nonneg (chunk_type c)).
    pose proof (buf_length_nonneg (chunk_data c)).
    pose proof (buf_length_nonneg (chunk_crc c)). lia. }
  assert (Hw : png_while inflateSync (length before + 1) png 8 = Some r).
  { replace 8 with (buf_length sig) by (unfold buf_length; lia).
    unfold png. rewrite png_while_skip by done. fold png.
    cbn [png_while].
    assert (Hcond : png_cond png (buf_length (sig ++ encode_chunks before)) = true).
    { unfold png_cond, png. apply Z.ltb_lt. rewrite !buf_length_app.
      pose proof (buf_length_nonneg rest). lia. }
    rewrite Hcond.
    destruct (png_body inflateSync png _) as [[?| |p]|e]; by subst. }
  apply (png_while_fuel _ _ _ _ _ Hw).
  pose proof (encode_chunks_count before).
  unfold png. rewrite !length_app. unfold buf_length in H4. lia.
Qed.

End PNGErrors.

(** X6. The scan ends at the first IEND chunk with "none": an iCCP chunk
    placed after IEND (or anything else there) is never reached. *)
Theorem extractFromPNG_stops_at_IEND (inflateSync : Buffer → jsstring + Buffer)
    (sig : Buffer) (before : list chunk) (data crc rest : Buffer) :
  length sig = 8%nat →
  Forall chunk_wf before →
  Forall (λ c, chunk_type c ≠ bytes "IEND" ∧ chunk_type c ≠ bytes "iCCP") before →
  buf_length data < 2 ^ 32 →
  extractFromPNG inflateSync
    (sig ++ encode_chunks before
         ++ encode_chunk (Chunk (bytes "IEND") data crc) ++ rest)
  = Some ([js "No iCCP chunk found"], Return None).
Proof.
  intros Hsig Hwf Hty Hlen. unfold extractFromPNG.
  rewrite (png_while_at inflateSync before sig rest _ (Return None)); try done.
  rewrite (app_assoc sig). by rewrite png_body_IEND.
Qed.

Lemma extractFromPNG_stops_at_IEND_witness :
  extractFromPNG inflate_stored png_iCCP_after_IEND
  = Some ([js "No iCCP chunk found"], Return None).
Proof.
  apply (extractFromPNG_stops_at_IEND inflate_stored png_signature [png_IHDR]
           [] (zeros 4)).
  - reflexivity.
  - repeat constructor; vm_compute; (lia || discriminate || reflexivity || auto).
  - repeat constructor; discriminate.
  - vm_compute. reflexivity.
Defined.

(** X7. An iCCP chunk whose data has no zero byte before its last byte
    (no terminator of the profile name, or no room for the
    compression-method byte after it; empty data included) makes
    [extractFromPNG] throw "Invalid iCCP chunk format". *)
Theorem extractFromPNG_invalid_format (inflateSync : Buffer → jsstring + Buffer)
    (sig : Buffer) (before : list chunk) (data crc rest : Buffer) :
  length sig = 8%nat →
  Forall chunk_wf before →
  Forall (λ c, chunk_type c ≠ bytes "IEND" ∧ chunk_type c ≠ bytes "iCCP") before →
  buf_length data < 2 ^ 32 →
  Forall (λ b, b ≠ Byte.x00) (take (length data - 1) data) →
  extractFromPNG inflateSync
    (sig ++ encode_chunks before
         ++ encode_chunk (Chunk (bytes "iCCP") data crc) ++ rest)
  = Some ([], Throw (Error (js "Invalid iCCP chunk format"))).
Proof.
  intros Hsig Hwf Hty Hlen Hnz. unfold extractFromPNG.
  rewrite (png_while_at inflateSync before sig rest _
             (Throw (Error (js "Invalid iCCP chunk format")))); try done.
  rewrite (app_assoc sig). by rewrite png_body_iCCP_format.
Qed.

Lemma extractFromPNG_invalid_format_witness :
  extractFromPNG inflate_stored png_iCCP_no_terminator
  = Some ([], Throw (Error (js "Invalid iCCP chunk format"))).
Proof.
  apply (extractFromPNG_invalid_format inflate_stored png_signature [png_IHDR]
           (bytes "sRGB") (zeros 4) []).
  - reflexivity.
  - repeat constructor; vm_compute; (lia || discriminate || reflexivity || auto).
  - repeat constructor; discriminate.
  - vm_compute. reflexivity.
  - repeat constructor; discriminate.
Defined.

(** X8. An iCCP chunk whose compression-method byte (the byte after the
    first zero byte) is not 0 makes [extractFromPNG] throw "Unsupported
    compression method", whatever the decompressor would do with the
    payload. *)
Theorem extractFromPNG_unsupported_method
    (inflateSync : Buffer → jsstring + Buffer)
    (sig : Buffer) (before : list chunk) (name compressed crc rest : Buffer)
    (method : byte) :
  length sig = 8%nat →
  Forall chunk_wf before →
  Forall (λ c, chunk_type c ≠ bytes "IEND" ∧ chunk_type c ≠ bytes "iCCP") before →
  Forall (λ b, b ≠ Byte.x00) name → method ≠ Byte.x00 →
  buf_length (name ++ [Byte.x00; method] ++ compressed) < 2 ^ 32 →
  extractFromPNG inflateSync
    (sig ++ encode_chunks before
         ++ encode_chunk (Chunk (bytes "iCCP")
                            (name ++ [Byte.x00; method] ++ compressed) crc)
         ++ rest)
  = Some ([], Throw (Error (js "Unsupported compression method"))).
Proof.
  intros Hsig Hwf Hty Hname Hmethod Hlen. unfold extractFromPNG.
  rewrite (png_while_at inflateSync before sig rest _
             (Throw (Error (js "Unsupported compression method")))); try done.
  rewrite (app_assoc sig). by rewrite png_body_iCCP_method.
Qed.

Lemma extractFromPNG_unsupported_method_witness :
  extractFromPNG inflate_stored png_iCCP_method_1
  = Some ([], Throw (Error (js "Unsupported compression method"))).
Proof.
  apply (extractFromPNG_unsupported_method inflate_stored png_signature [png_IHDR]
           (bytes "sRGB") (bytes "PROFILE") (zeros 4) [] Byte.x01).
  - reflexivity.
  - repeat constructor; vm_compute; (lia || discriminate || reflexivity || auto).
  - repeat constructor; discriminate.
  - repeat constructor; discriminate.
  - discriminate.
  - vm_compute. reflexivity.
Defined.

Section PNGOutcome.

Variable inflateSync : Buffer → jsstring + Buffer.

Lemma png_while_outcome (png : Buffer) (fuel : nat) :
  ∀ offset c,
    png_while inflateSync fuel png offset = Some c →
    c = Return None
    ∨ (∃ compressed iccProfile,
         inflateSync compressed = inr iccProfile ∧ c = Return (Some iccProfile))
    ∨ c = Throw RangeError
    ∨ c = Throw (Error (js "Invalid iCCP chunk format"))
    ∨ c = Throw (Error (js "Unsupported compression method"))
    ∨ (∃ compressed message,
         inflateSync compressed = inl message
         ∧ c = Throw (Error (js "Failed to decompress ICC profile: " ++ message))).
Proof.
  induction fuel as [|fuel IH]; intros offset c Hw; simpl in Hw.
  - destruct (png_cond png offset); [done|]. left. congruence.
  - destruct (png_cond png offset); [|left; congruence].
    unfold png_body in Hw.
    destruct (readUInt32BE_cases png offset) as [[chunkLength Hr] | Hr];
      rewrite Hr in Hw; cbn [mbind completion_bind] in Hw.
    2:{ right. right. left. congruence. }
    destruct (str_eq _ (js "IEND")); [left; congruence|].
    destruct (str_eq _ (js "iCCP")); [|by apply (IH _ _ Hw)].
    destruct (_ || _).
    { do 3 right. left. congruence. }
    destruct (negb _).
    { do 4 right. left. congruence. }
    destruct (inflateSync _) as [message|iccProfile] eqn:Hi.
    + do 5 right. eexists _, message. split; [exact Hi|congruence].
    + right. left. eexists _, iccProfile. split; [exact Hi|congruence].
Qed.

End PNGOutcome.

(** X9. On every buffer [extractFromPNG] ends in one of six ways:
    "none" after logging "No iCCP chunk found"; the output of the
    decompressor; the runtime's [RangeError]; or one of its own three
    errors, the last carrying the decompressor's message.  The line is
    logged exactly when the result is "none". *)
Theorem extractFromPNG_outcome (inflateSync : Buffer → jsstring + Buffer)
    (png : Buffer) :
  ∃ r, extractFromPNG inflateSync png = Some r ∧ png_outcome inflateSync r.
Proof.
  unfold extractFromPNG.
  destruct (png_while_Some inflateSync png (length png) 8) as [c Hc];
    [unfold buf_length; lia|].
  rewrite Hc. apply png_while_outcome in Hc.
  unfold png_outcome.
  destruct Hc as [-> | [(z & p & Hi & ->) | [-> | [-> | [-> | (z & m & Hi & ->)]]]]];
    eexists; (split; [reflexivity|]); eauto 10.
Qed.

(** ** The decoder *)

Lemma forEach_attr_Forall (P : jsstring → value → Prop) (buffer : Buffer)
    (attrs : list (Z * jsstring)) :
  (∀ off name s, In (off, name) attrs → P name (VString s)) →
  ∀ profile profile',
    map_Forall P profile →
    forEach_attr attrs buffer profile = Return profile' →
    map_Forall P profile'.
Proof.
  induction attrs as [|[off name] attrs IH]; intros HP profile profile' Hall Hf.
  - simpl in Hf. by injection Hf as <-.
  - cbn [forEach_attr] in Hf. unfold hasContentAtOffset in Hf.
    destruct (readUInt32BE buffer (off, name).1) as [v|e]; [|done].
    cbn [mbind completion_bind mret completion_ret] in Hf.
    apply (IH (λ o n s Hin, HP o n s (or_intror Hin)) _ _) in Hf; [done|].
    destruct (negb (v =? 0)); [|done].
    apply map_Forall_insert_2; [|done]. apply (HP off). by left.
Qed.

Lemma tag_body_Forall (P : jsstring → value → Prop) (buffer : Buffer)
    (tagHeaderOffset : Z) (profile profile' : gmap jsstring value) :
  (∀ name s, In name tag_attributes → P name (VString s)) →
  map_Forall P profile →
  tag_body buffer tagHeaderOffset profile = Return profile' →
  map_Forall P profile'.
Proof.
  unfold tag_body. intros HP Hall Hb.
  destruct (tagMap !! _) as [attribute|] eqn:Htag; [|by injection Hb as <-].
  apply tagMap_lookup in Htag as [_ Hattr].
  repeat match type of Hb with
         | context [readUInt32BE ?b ?o] =>
             destruct (readUInt32BE b o); cbn [mbind completion_bind] in Hb;
             [|done]
         | context [if ?c then _ else _] =>
             destruct c; cbn [mbind completion_bind] in Hb; try done
         end;
    injection Hb as <-; repeat (apply map_Forall_insert_2; [by apply HP|]); done.
Qed.

Lemma tags_for_Forall (P : jsstring → value → Prop) (buffer : Buffer)
    (count : nat) :
  (∀ name s, In name tag_attributes → P name (VString s)) →
  ∀ tagHeaderOffset profile profile',
    map_Forall P profile →
    tags_for count buffer tagHeaderOffset profile = Return profile' →
    map_Forall P profile'.
Proof.
  intros HP. induction count as [|count IH]; intros off profile profile' Hall Ht.
  - simpl in Ht. by injection Ht as <-.
  - cbn [tags_for] in Ht.
    destruct (tag_body buffer off profile) as [p1|e] eqn:Hb; [|done].
    cbn [mbind completion_bind] in Ht.
    apply (IH _ _ _ (tag_body_Forall P _ _ _ _ HP Hall Hb) Ht).
Qed.

(** The steps of [parse] behind a returned profile. *)
Lemma parse_Return (buffer : Buffer) (profile : gmap jsstring value) :
  parse buffer = Return profile →
  ∃ version intent p1 tagCount,
    readUInt32BE buffer 0 = Return (buf_length buffer)
    ∧ toString (slice buffer 36 40) = js "acsp"
    ∧ readUInt32BE buffer 8 = Return version
    ∧ readUInt32BE buffer 64 = Return intent
    ∧ forEach_attr fourByteAttributes buffer
        (<[js "intent" := get intentMap intent]>
           (<[js "version" := get versionMap version]> ∅)) = Return p1
    ∧ readUInt32BE buffer 128 = Return tagCount
    ∧ tags_for (Z.to_nat tagCount) buffer 132 p1 = Return profile.
Proof.
  unfold parse. intros Hp.
  destruct (readUInt32BE buffer 0) as [size|]; [|done].
  cbn [mbind completion_bind] in Hp.
  destruct (Z.eqb_spec size (buf_length buffer)) as [Hsize|]; [|done].
  rewrite Hsize. clear Hsize size.
  cbn [negb] in Hp. unfold str_eq in Hp.
  destruct (decide (toString (slice buffer 36 40) = js "acsp")) as [Hsig|Hsig].
  2:{ by rewrite bool_decide_eq_false_2 in Hp. }
  rewrite bool_decide_eq_true_2 in Hp by done. cbn [negb] in Hp.
  destruct (readUInt32BE buffer 8) as [version|]; [|done].
  cbn [mbind completion_bind] in Hp.
  destruct (readUInt32BE buffer 64) as [intent|]; [|done].
  cbn [mbind completion_bind] in Hp.
  destruct (forEach_attr _ _ _) as [p1|] eqn:Hf; [|done].
  cbn [mbind completion_bind] in Hp.
  destruct (readUInt32BE buffer 128) as [tagCount|]; [|done].
  cbn [mbind completion_bind] in Hp.
  by exists version, intent, p1, tagCount.
Qed.

(** X10. A decoded profile has no other keys than the fourteen
    attribute names, and every value is a string, except that version
    and intent can be [undefined]. *)
Theorem decoded_fields (buffer : Buffer) (profile : gmap jsstring value)
    (key : jsstring) (v : value) :
  parse buffer = Return profile → profile !! key = Some v →
  In key recognized_fields
  ∧ (v = VUndefined → key = js "version" ∨ key = js "intent").
Proof.
  intros Hp Hl.
  destruct (parse_Return _ _ Hp)
    as (version & intent & p1 & tagCount & _ & _ & _ & _ & Hf & _ & Ht).
  assert (Hall : map_Forall field_ok profile).
  { apply (tags_for_Forall field_ok _ _) with (3:=Ht).
    - intros name s Hin. split; [|done]. unfold recognized_fields.
      apply in_or_app. right. apply in_or_app. by right.
    - apply (forEach_attr_Forall field_ok _ _) with (3:=Hf).
      + intros off name s Hin. split; [|done]. unfold recognized_fields.
        apply in_or_app. right. apply in_or_app. left.
        by apply (in_map snd) in Hin.
      + apply map_Forall_insert_2; [split; [simpl; tauto|tauto]|].
        apply map_Forall_insert_2; [split; [simpl; tauto|tauto]|].
        apply map_Forall_empty. }
  exact (Hall key v Hl).
Qed.

Lemma decoded_fields_witness :
  In (js "deviceClass") recognized_fields.
Proof.
  assert (Hp : parse icc_plain = Return
                 (match parse icc_plain with Return p => p | Throw _ => ∅ end))
    by (vm_compute; reflexivity).
  assert (Hl : match parse icc_plain with Return p => p | Throw _ => ∅ end
               !! js "deviceClass" = Some (VString (js "Monitor")))
    by (vm_compute; reflexivity).
  exact (proj1 (decoded_fields icc_plain _ _ _ Hp Hl)).
Defined.

(** X11. A decoded profile always has the keys version and intent: the
    entries of the two tables for the 32-bit values at offsets 8 and 64,
    [undefined] exactly when the value is none of the six version codes,
    respectively not between 0 and 3; an unknown code is no error. *)
Theorem version_and_intent (buffer : Buffer) (profile : gmap jsstring value) :
  parse buffer = Return profile →
  ∃ version intent,
    readUInt32BE buffer 8 = Return version
    ∧ readUInt32BE buffer 64 = Return intent
    ∧ profile !! js "version" = Some (get versionMap version)
    ∧ profile !! js "intent" = Some (get intentMap intent)
    ∧ (get versionMap version = VUndefined
       ↔ ¬ In version [0x02000000; 0x02100000; 0x02400000;
                       0x04000000; 0x04200000; 0x04300000])
    ∧ (get intentMap intent = VUndefined ↔ ¬ (0 ≤ intent ≤ 3)).
Proof.
  intros Hp.
  destruct (parse_Return _ _ Hp)
    as (version & intent & p1 & tagCount & _ & _ & Hv & Hi & Hf & _ & Ht).
  exists version, intent. split_and!; try done.
  - rewrite (tags_for_other _ _ _ _ _ Ht), (forEach_attr_other _ _ _ _ Hf).
    + rewrite lookup_insert_ne by done. apply lookup_insert_eq.
    + vm_compute. intros H. repeat (destruct H as [H|H]; [discriminate|]). done.
    + vm_compute. intros H. repeat (destruct H as [H|H]; [discriminate|]). done.
  - rewrite (tags_for_other _ _ _ _ _ Ht), (forEach_attr_other _ _ _ _ Hf).
    + apply lookup_insert_eq.
    + vm_compute. intros H. repeat (destruct H as [H|H]; [discriminate|]). done.
    + vm_compute. intros H. repeat (destruct H as [H|H]; [discriminate|]). done.
  - unfold get, versionMap.
    destruct (list_to_map _ !! version) as [s|] eqn:Hl.
    + split; [done|]. intros Hn. exfalso. apply Hn.
      apply elem_of_list_to_map_2 in Hl.
      rewrite !elem_of_cons, elem_of_nil in Hl. simpl.
      destruct Hl as [H|[H|[H|[H|[H|[H|H]]]]]]; try done;
        injection H as -> _; tauto.
    + split; [|done]. intros _ Hin.
      apply not_elem_of_list_to_map in Hl. apply Hl.
      cbn [fmap list_fmap fst]. by apply list_elem_of_In.
  - unfold get, intentMap.
    destruct (list_to_map _ !! intent) as [s|] eqn:Hl.
    + split; [done|]. intros Hn. exfalso. apply Hn.
      apply elem_of_list_to_map_2 in Hl.
      rewrite !elem_of_cons, elem_of_nil in Hl.
      destruct Hl as [H|[H|[H|[H|H]]]]; try done; injection H as -> _; lia.
    + split; [|done]. intros _ Hin.
      apply not_elem_of_list_to_map in Hl. apply Hl.
      cbn [fmap list_fmap fst]. rewrite !elem_of_cons.
      assert (intent = 0 ∨ intent = 1 ∨ intent = 2 ∨ intent = 3) by lia. tauto.
Qed.

Lemma version_and_intent_witness :
  ∃ profile version intent,
    parse icc_plain = Return profile
    ∧ profile !! js "version" = Some (get versionMap version)
    ∧ profile !! js "intent" = Some (get intentMap intent).
Proof.
  assert (Hp : parse icc_plain = Return
                 (match parse icc_plain with Return p => p | Throw _ => ∅ end))
    by (vm_compute; reflexivity).
  destruct (version_and_intent _ _ Hp) as (version & intent & _ & _ & Hv & Hi & _).
  eexists _, version, intent. split_and!; [exact Hp|exact Hv|exact Hi].
Defined.

(** Decoding never gives more code units than there are bytes. *)
Lemma utf8_lead_length (v : Z) :
  (length (utf8_lead v).1
   + match (utf8_lead v).2 with Some _ => 1 | None => 0 end ≤ 1)%nat.
Proof.
  unfold utf8_lead.
  destruct (v <=? 127); [simpl; lia|].
  destruct ((194 <=? v) && (v <=? 223)); [simpl; lia|].
  destruct ((224 <=? v) && (v <=? 239)); [simpl; lia|].
  destruct ((240 <=? v) && (v <=? 244)); simpl; lia.
Qed.

Lemma utf8_decode_length (buf : Buffer) :
  ∀ st, (length (utf8_decode st buf)
         ≤ length buf + match st with Some _ => 1 | None => 0 end)%nat.
Proof.
  induction buf as [|b buf IH]; intros st.
  - destruct st; simpl; lia.
  - cbn [utf8_decode].
    pose proof (utf8_lead_length (byte_val b)) as Hlead.
    destruct (utf8_lead (byte_val b)) as [out st'] eqn:El.
    cbn [fst snd] in Hlead.
    destruct st as [p|].
    + destruct ((lower p <=? byte_val b) && (byte_val b <=? upper p)).
      * destruct (needed p) as [|[|n]].
        -- rewrite length_app. specialize (IH None). unfold code_units.
           destruct (_ <? _); simpl in *; lia.
        -- rewrite length_app. specialize (IH None). unfold code_units.
           destruct (_ <? _); simpl in *; lia.
        -- specialize (IH (Some (Pending (S n)
                                   (Z.lor (Z.shiftl (code_point p) 6)
                                      (Z.land (byte_val b) 63)) 128 191))).
           simpl in *. lia.
      * simpl. rewrite length_app. specialize (IH st').
        destruct st'; simpl in *; lia.
    + rewrite length_app. specialize (IH st').
      destruct st'; simpl in *; lia.
Qed.

Lemma toString_length (buf : Buffer) :
  (length (toString buf) ≤ length buf)%nat.
Proof. pose proof (utf8_decode_length buf None). simpl in *. unfold toString. lia. Qed.

(** X12. Every buffer of 4 to 39 bytes is rejected with one of the two
    reasons of the structural checks, never with a [RangeError]: the
    signature is read through a slice, which is clamped, so a buffer
    that ends before offset 40 has a missing signature. *)
Theorem decode_under_40_bytes (buffer : Buffer) :
  4 ≤ buf_length buffer < 40 →
  (parse buffer = Throw (invalid (js "length mismatch"))
   ∧ readUInt32BE buffer 0 ≠ Return (buf_length buffer))
  ∨ (parse buffer = Throw (invalid (js "missing signature"))
     ∧ readUInt32BE buffer 0 = Return (buf_length buffer)).
Proof.
  intros Hlen. unfold parse.
  destruct (readUInt32BE_in buffer 0) as (size & Hsize & _); [lia..|].
  rewrite Hsize. cbn [mbind completion_bind].
  destruct (Z.eqb_spec size (buf_length buffer)) as [->|Hne].
  - right. split; [|done]. cbn [negb]. unfold str_eq.
    rewrite bool_decide_eq_false_2; [done|].
    intros Hsig. pose proof (toString_length (slice buffer 36 40)) as Hl.
    rewrite Hsig in Hl. change (length (js "acsp")) with 4%nat in Hl.
    pose proof (slice_length buffer 36 40 ltac:(lia) ltac:(lia)) as Hs.
    unfold buf_length in *. lia.
  - left. split; [done|]. congruence.
Qed.

Lemma decode_under_40_bytes_witness :
  parse icc_four_bytes = Throw (invalid (js "missing signature")).
Proof.
  destruct (decode_under_40_bytes icc_four_bytes) as [[_ Hne]|[Hp _]];
    [unfold buf_length; simpl; lia | | exact Hp].
  exfalso. apply Hne. vm_compute. reflexivity.
Defined.

(** *** Which error for which cause *)

Lemma invalid_inj (r r' : jsstring) : invalid r = invalid r' → r = r'.
Proof. unfold invalid. by intros [= H]. Qed.

Lemma tag_body_throws (buffer : Buffer) (tagHeaderOffset : Z)
    (profile : gmap jsstring value) (e : exn) :
  tag_body buffer tagHeaderOffset profile = Throw e →
  e = RangeError ∨ ∃ reason, In reason tag_reasons ∧ e = invalid reason.
Proof.
  unfold tag_body. intros Hb.
  destruct (tagMap !! _) as [attribute|] eqn:Htag; [|done].
  apply tagMap_lookup in Htag as [Hsig _].
  repeat match type of Hb with
         | mbind _ (readUInt32BE ?b ?o) = _ =>
             destruct (readUInt32BE_cases b o) as [[? Hread] | Hread];
             rewrite Hread in Hb; clear Hread;
             cbn [mbind completion_bind] in Hb; [|left; congruence]
         | mbind _ (mbind _ (readUInt32BE ?b ?o)) = _ =>
             destruct (readUInt32BE_cases b o) as [[? Hread] | Hread];
             rewrite Hread in Hb; clear Hread;
             cbn [mbind completion_bind] in Hb; [|left; congruence]
         | mbind _ (if ?c then _ else _) = _ =>
             destruct c; cbn [mbind completion_bind] in Hb; try done
         | (if ?c then _ else _) = _ =>
             destruct c; cbn [mbind completion_bind] in Hb; try done
         end;
    try done; right;
    apply (f_equal (λ c, match c with Throw x => x | Return _ => e end)) in Hb;
    cbv beta iota in Hb; subst e; eexists; (split; [|reflexivity]);
    unfold tag_reasons;
    first
      [ by (simpl; tauto)
      | by (apply in_or_app; right; apply in_or_app; left;
            apply (in_map (λ sig, js "description tag value size out of bounds for "
                                  ++ sig)))
      | by (apply in_or_app; right; apply in_or_app; right;
            apply (in_map (λ sig, js "mluc name record size must be 12 for tag "
                                  ++ sig))) ].
Qed.

Lemma tags_for_throws (buffer : Buffer) (count : nat) :
  ∀ tagHeaderOffset profile e,
    tags_for count buffer tagHeaderOffset profile = Throw e →
    e = RangeError ∨ ∃ reason, In reason tag_reasons ∧ e = invalid reason.
Proof.
  induction count as [|count IH]; intros off profile e Ht; [done|].
  cbn [tags_for] in Ht.
  destruct (tag_body buffer off profile) as [p1|e1] eqn:Hb.
  - by apply (IH _ _ _ Ht).
  - cbn [mbind completion_bind] in Ht. injection Ht as <-.
    by apply (tag_body_throws _ _ _ _ Hb).
Qed.

(** X13. The two structural reasons name their cause exactly: "length
    mismatch" is thrown if and only if the first four bytes can be read
    and differ from the buffer length, "missing signature" if and only
    if they equal it and bytes 36 to 39 do not decode to acsp. *)
Theorem structural_reasons (buffer : Buffer) :
  (parse buffer = Throw (invalid (js "length mismatch"))
   ↔ ∃ size, readUInt32BE buffer 0 = Return size ∧ size ≠ buf_length buffer)
  ∧ (parse buffer = Throw (invalid (js "missing signature"))
     ↔ readUInt32BE buffer 0 = Return (buf_length buffer)
       ∧ toString (slice buffer 36 40) ≠ js "acsp").
Proof.
  assert (Hlate : ∀ reason,
    In reason [js "length mismatch"; js "missing signature"] →
    readUInt32BE buffer 0 = Return (buf_length buffer) →
    toString (slice buffer 36 40) = js "acsp" →
    parse buffer ≠ Throw (invalid reason)).
  { intros reason Hreason Hsize Hsig Hp. unfold parse in Hp.
    rewrite Hsize in Hp. cbn [mbind completion_bind] in Hp.
    rewrite Z.eqb_refl, Hsig in Hp.
    change (str_eq (js "acsp") (js "acsp")) with true in Hp. cbn [negb] in Hp.
    destruct (readUInt32BE_cases buffer 8) as [[version Hv] | Hv];
      rewrite Hv in Hp; cbn [mbind completion_bind] in Hp; [|done].
    destruct (readUInt32BE_cases buffer 64) as [[intent Hi] | Hi];
      rewrite Hi in Hp; cbn [mbind completion_bind] in Hp; [|done].
    destruct (forEach_attr_cases buffer fourByteAttributes
                (<[js "intent" := get intentMap intent]>
                   (<[js "version" := get versionMap version]> ∅)))
      as [[p1 Hf] | Hf]; rewrite Hf in Hp; cbn [mbind completion_bind] in Hp;
      [|done].
    destruct (readUInt32BE_cases buffer 128) as [[tagCount Ht] | Ht];
      rewrite Ht in Hp; cbn [mbind completion_bind] in Hp; [|done].
    apply tags_for_throws in Hp as [Hp|(r & Hr & Hp)]; [done|].
    apply invalid_inj in Hp. subst r.
    destruct Hreason as [<-|[<-|[]]]; vm_compute in Hr;
      repeat (destruct Hr as [Hr|Hr]; [discriminate|]); done. }
  split; split.
  - intros Hp.
    destruct (readUInt32BE_cases buffer 0) as [[size Hsize] | Hsize].
    2:{ unfold parse in Hp. by rewrite Hsize in Hp. }
    exists size. split; [done|]. intros ->.
    destruct (decide (toString (slice buffer 36 40) = js "acsp")) as [Hsig|Hsig].
    + apply (Hlate (js "length mismatch")); simpl; tauto.
    + unfold parse in Hp. rewrite Hsize in Hp. cbn [mbind completion_bind] in Hp.
      rewrite Z.eqb_refl in Hp. unfold str_eq in Hp.
      rewrite bool_decide_eq_false_2 in Hp by done. cbn [negb] in Hp.
      apply (f_equal (λ c, match c with Throw e => e | Return _ => RangeError end))
        in Hp.
      apply invalid_inj in Hp. discriminate.
  - intros (size & Hsize & Hne). unfold parse. rewrite Hsize.
    cbn [mbind completion_bind].
    by destruct (Z.eqb_spec size (buf_length buffer)).
  - intros Hp.
    destruct (readUInt32BE_cases buffer 0) as [[size Hsize] | Hsize].
    2:{ unfold parse in Hp. by rewrite Hsize in Hp. }
    destruct (Z.eq_dec size (buf_length buffer)) as [->|Hne].
    + split; [done|]. intros Hsig.
      apply (Hlate (js "missing signature")); simpl; tauto.
    + unfold parse in Hp. rewrite Hsize in Hp. cbn [mbind completion_bind] in Hp.
      destruct (Z.eqb_spec size (buf_length buffer)); [done|]. cbn [negb] in Hp.
      apply (f_equal (λ c, match c with Throw e => e | Return _ => RangeError end))
        in Hp.
      apply invalid_inj in Hp. discriminate.
  - intros [Hsize Hsig]. unfold parse. rewrite Hsize.
    cbn [mbind completion_bind]. rewrite Z.eqb_refl. cbn [negb].
    unfold str_eq. by rewrite bool_decide_eq_false_2.
Qed.

Lemma structural_reasons_witness :
  parse (be32 5 ++ zeros 4) = Throw (invalid (js "length mismatch"))
  ∧ parse icc_four_bytes = Throw (invalid (js "missing signature")).
Proof.
  split.
  - apply (proj1 (structural_reasons (be32 5 ++ zeros 4))).
    exists 5. split; [vm_compute; reflexivity|vm_compute; discriminate].
  - apply (proj2 (structural_reasons icc_four_bytes)).
    split; [vm_compute; reflexivity|vm_compute; discriminate].
Defined.

(** *** The tag table *)

Lemma getContentAtOffsetAsString_past_end (buffer : Buffer) (offset : Z) :
  buf_length buffer ≤ offset → getContentAtOffsetAsString buffer offset = [].
Proof.
  intros H. pose proof (buf_length_nonneg buffer).
  rewrite getContentAtOffsetAsString_code, slice_nonneg by lia.
  rewrite drop_ge by (unfold buf_length in *; lia).
  by rewrite take_nil.
Qed.

Lemma tags_for_skip (buffer : Buffer) (profile : gmap jsstring value)
    (count : nat) :
  ∀ tagHeaderOffset,
    (∀ i, (i < count)%nat →
          tagMap !! getContentAtOffsetAsString buffer
                      (tagHeaderOffset + 12 * Z.of_nat i) = None) →
    tags_for count buffer tagHeaderOffset profile = Return profile.
Proof.
  induction count as [|count IH]; intros off Hskip; [done|].
  cbn [tags_for]. unfold tag_body at 1.
  pose proof (Hskip 0%nat ltac:(lia)) as H0.
  rewrite Z.mul_0_r, Z.add_0_r in H0. rewrite H0.
  cbn [mbind completion_bind]. apply IH.
  intros i Hi. specialize (Hskip (S i) ltac:(lia)).
  by replace (off + 12 + 12 * Z.of_nat i) with (off + 12 * Z.of_nat (S i)) by lia.
Qed.

Lemma forEach_attr_Return (buffer : Buffer) (attrs : list (Z * jsstring)) :
  Forall (λ attr, 0 ≤ attr.1 ∧ attr.1 + 4 ≤ buf_length buffer) attrs →
  ∀ profile, ∃ profile', forEach_attr attrs buffer profile = Return profile'.
Proof.
  induction 1 as [|attr attrs [H0 Hin] _ IH]; intros profile; [by eexists|].
  cbn [forEach_attr]. unfold hasContentAtOffset.
  destruct (readUInt32BE_in buffer attr.1 H0 Hin) as (v & -> & _).
  cbn [mbind completion_bind mret completion_ret]. apply IH.
Qed.

(** X14. A buffer of 132 bytes or more that passes the two structural
    checks decodes without error whenever no entry of the tag table,
    as far as the table lies inside the buffer, has a recognised
    signature: the entries are skipped whatever their offsets and sizes
    say, entries past the buffer end read as an empty signature, and
    the tag count itself is never checked.  The result has none of the
    four tag attributes. *)
Theorem decode_without_recognized_tags (buffer : Buffer) (tagCount : Z) :
  132 ≤ buf_length buffer →
  readUInt32BE buffer 0 = Return (buf_length buffer) →
  toString (slice buffer 36 40) = js "acsp" →
  readUInt32BE buffer 128 = Return tagCount →
  (∀ i, 0 ≤ i < tagCount → 132 + 12 * i < buf_length buffer →
        tagMap !! getContentAtOffsetAsString buffer (132 + 12 * i) = None) →
  ∃ profile,
    parse buffer = Return profile
    ∧ ∀ attribute, In attribute tag_attributes → profile !! attribute = None.
Proof.
  intros Hlen Hsize Hsig Hcount Hskip.
  destruct (readUInt32BE_in buffer 8) as (version & Hv & _); [lia..|].
  destruct (readUInt32BE_in buffer 64) as (intent & Hi & _); [lia..|].
  destruct (forEach_attr_Return buffer fourByteAttributes)
    with (profile := <[js "intent" := get intentMap intent]>
                       (<[js "version" := get versionMap version]>
                          (∅ : gmap jsstring value)))
    as [p1 Hf].
  { unfold fourByteAttributes. repeat (constructor; [simpl; lia|]). constructor. }
  exists p1. split.
  - unfold parse. rewrite Hsize. cbn [mbind completion_bind].
    rewrite Z.eqb_refl, Hsig.
    change (str_eq (js "acsp") (js "acsp")) with true. cbn [negb].
    rewrite Hv. cbn [mbind completion_bind].
    rewrite Hi. cbn [mbind completion_bind].
    rewrite Hf. cbn [mbind completion_bind].
    rewrite Hcount. cbn [mbind completion_bind].
    apply tags_for_skip. intros i Hi'.
    destruct (Z.lt_ge_cases (132 + 12 * Z.of_nat i) (buf_length buffer)).
    + apply Hskip; lia.
    + by rewrite getContentAtOffsetAsString_past_end.
  - intros attribute Hattr.
    rewrite (forEach_attr_other _ _ _ _ Hf).
    + rewrite !lookup_insert_ne; [done|..];
        intros <-; simpl in Hattr;
        repeat (destruct Hattr as [Hattr|Hattr]; [discriminate|]); done.
    + intros Hin. simpl in Hattr, Hin.
      repeat (destruct Hattr as [Hattr|Hattr];
              [subst attribute;
               repeat (destruct Hin as [Hin|Hin]; [discriminate|]); done|]).
      done.
Qed.

Lemma decode_without_recognized_tags_witness :
  (∃ profile, parse icc_count_without_table = Return profile
              ∧ ∀ attribute, In attribute tag_attributes →
                             profile !! attribute = None)
  ∧ (∃ profile, parse icc_unknown_tag = Return profile
                ∧ ∀ attribute, In attribute tag_attributes →
                               profile !! attribute = None).
Proof.
  split.
  - assert (H1 : 132 ≤ buf_length icc_count_without_table)
      by (vm_compute; discriminate).
    assert (H2 : readUInt32BE icc_count_without_table 0
                 = Return (buf_length icc_count_without_table))
      by (vm_compute; reflexivity).
    assert (H3 : toString (slice icc_count_without_table 36 40) = js "acsp")
      by (vm_compute; reflexivity).
    assert (H4 : readUInt32BE icc_count_without_table 128 = Return 1000)
      by (vm_compute; reflexivity).
    refine (decode_without_recognized_tags icc_count_without_table 1000
              H1 H2 H3 H4 _).
    intros i Hi Hin. exfalso. revert Hin.
    change (buf_length icc_count_without_table) with 132. lia.
  - assert (H1 : 132 ≤ buf_length icc_unknown_tag) by (vm_compute; discriminate).
    assert (H2 : readUInt32BE icc_unknown_tag 0
                 = Return (buf_length icc_unknown_tag))
      by (vm_compute; reflexivity).
    assert (H3 : toString (slice icc_unknown_tag 36 40) = js "acsp")
      by (vm_compute; reflexivity).
    assert (H4 : readUInt32BE icc_unknown_tag 128 = Return 1)
      by (vm_compute; reflexivity).
    refine (decode_without_recognized_tags icc_unknown_tag 1 H1 H2 H3 H4 _).
    intros i Hi _. assert (i = 0) as -> by lia. vm_compute. reflexivity.
Defined.

(** X15. The bounds check on a recognised entry: a data offset above
    the buffer length is rejected with "tag offset out of bounds"; a
    data offset equal to the buffer length passes the check and the
    entry is skipped, since the type code read there is empty; so is an
    entry whose type code is none of desc, text and mluc. *)
Theorem tag_offset_check (buffer : Buffer) (profile : gmap jsstring value)
    (tagHeaderOffset : Z) (sig attribute : string) (tagOffset tagSize : Z) :
  In (sig, attribute) recognized_tags →
  slice buffer tagHeaderOffset (tagHeaderOffset + 4) = bytes sig →
  readUInt32BE buffer (tagHeaderOffset + 4) = Return tagOffset →
  readUInt32BE buffer (tagHeaderOffset + 8) = Return tagSize →
  (buf_length buffer < tagOffset →
   tag_body buffer tagHeaderOffset profile
   = Throw (invalid (js "tag offset out of bounds")))
  ∧ (tagOffset = buf_length buffer →
     tag_body buffer tagHeaderOffset profile = Return profile)
  ∧ (tagOffset ≤ buf_length buffer →
     ¬ In (getContentAtOffsetAsString buffer tagOffset)
         [js "desc"; js "text"; js "mluc"] →
     tag_body buffer tagHeaderOffset profile = Return profile).
Proof.
  intros Hin Hsig Hoff Hsize.
  destruct (recognized_signature _ _ _ _ Hin Hsig) as [Hs Hmap].
  assert (Hother : tagOffset ≤ buf_length buffer →
     ¬ In (getContentAtOffsetAsString buffer tagOffset)
         [js "desc"; js "text"; js "mluc"] →
     tag_body buffer tagHeaderOffset profile = Return profile).
  { intros Hle Hty. unfold tag_body. rewrite Hs, Hmap, Hoff, Hsize.
    cbn [mbind completion_bind].
    destruct (Z.ltb_spec (buf_length buffer) tagOffset); [lia|].
    unfold str_eq.
    rewrite (bool_decide_eq_false_2 (_ = js "desc")),
      (bool_decide_eq_false_2 (_ = js "text")),
      (bool_decide_eq_false_2 (_ = js "mluc")); [done|..];
      intros Heq; apply Hty; rewrite Heq; cbn [In]; auto. }
  split_and!; [|intros ->|done].
  - intros Hgt. unfold tag_body. rewrite Hs, Hmap, Hoff, Hsize.
    cbn [mbind completion_bind].
    by destruct (Z.ltb_spec (buf_length buffer) tagOffset); [|lia].
  - apply Hother; [lia|].
    rewrite getContentAtOffsetAsString_past_end by lia.
    simpl. intros [H|[H|[H|H]]]; done.
Qed.

Lemma tag_offset_check_witness :
  tag_body icc_tag_offset_past_end 132 ∅
  = Throw (invalid (js "tag offset out of bounds"))
  ∧ tag_body icc_tag_offset_at_end 132 ∅ = Return ∅.
Proof.
  split.
  - apply (proj1 (tag_offset_check icc_tag_offset_past_end ∅ 132
                    "desc" "description" 4096 16
                    ltac:(simpl; tauto) ltac:(vm_compute; reflexivity)
                    ltac:(vm_compute; reflexivity) ltac:(vm_compute; reflexivity))).
    vm_compute. reflexivity.
  - apply (proj1 (proj2 (tag_offset_check icc_tag_offset_at_end ∅ 132
                    "desc" "description" 144 16
                    ltac:(simpl; tauto) ltac:(vm_compute; reflexivity)
                    ltac:(vm_compute; reflexivity) ltac:(vm_compute; reflexivity)))).
    vm_compute. reflexivity.
Defined.

(** *** Text of a tag *)

Lemma slice_negative_end (buf : Buffer) (start end_ : Z) :
  0 ≤ start → end_ < 0 →
  slice buf start end_
  = take (Z.to_nat (buf_length buf + end_ - start)) (drop (Z.to_nat start) buf).
Proof.
  intros Hs He. unfold slice, adjust_offset.
  destruct (Z.ltb_spec start 0); [lia|].
  destruct (Z.ltb_spec end_ 0); [|lia].
  destruct (Z.le_gt_cases (buf_length buf) start) as [Hge|Hlt].
  - rewrite (Z.min_r start) by lia.
    rewrite !drop_ge by (unfold buf_length in *; lia). by rewrite !take_nil.
  - rewrite (Z.min_l start) by lia. f_equal. lia.
Qed.

(** X16. Which bytes become the text of a recognised entry whose data
    starts within the buffer.  Type desc, with a value size that does
    not exceed the declared size: the (value size - 1) bytes from
    tagOffset + 12, the terminator left out.  Type text, with
    tagOffset + tagSize at least 7: the (tagSize - 15) bytes from
    tagOffset + 8, so the last seven bytes of the declared size are
    never part of the text.  In both cases fewer bytes if the buffer
    ends before, and the bytes themselves as characters when they are
    below 0x80. *)
Theorem text_of_tag (buffer : Buffer) (profile : gmap jsstring value)
    (tagHeaderOffset : Z) (sig attribute : string) (tagOffset tagSize : Z) :
  In (sig, attribute) recognized_tags →
  slice buffer tagHeaderOffset (tagHeaderOffset + 4) = bytes sig →
  readUInt32BE buffer (tagHeaderOffset + 4) = Return tagOffset →
  readUInt32BE buffer (tagHeaderOffset + 8) = Return tagSize →
  tagOffset ≤ buf_length buffer →
  (∀ tagValueSize,
     slice buffer tagOffset (tagOffset + 4) = bytes "desc" →
     readUInt32BE buffer (tagOffset + 8) = Return tagValueSize →
     tagValueSize ≤ tagSize →
     let text := take (Z.to_nat (tagValueSize - 1))
                   (drop (Z.to_nat (tagOffset + 12)) buffer) in
     tag_body buffer tagHeaderOffset profile
     = Return (<[js attribute := VString (toString text)]> profile)
     ∧ (Forall (λ b, byte_val b < 128) text → toString text = map byte_val text))
  ∧ (slice buffer tagOffset (tagOffset + 4) = bytes "text" →
     7 ≤ tagOffset + tagSize →
     let text := take (Z.to_nat (tagSize - 15))
                   (drop (Z.to_nat (tagOffset + 8)) buffer) in
     tag_body buffer tagHeaderOffset profile
     = Return (<[js attribute := VString (toString text)]> profile)
     ∧ (Forall (λ b, byte_val b < 128) text → toString text = map byte_val text)).
Proof.
  intros Hin Hsig Hoff Hsize Hbound.
  destruct (recognized_signature _ _ _ _ Hin Hsig) as [Hs Hmap].
  pose proof (readUInt32BE_range _ _ _ Hoff) as (Hto & _).
  pose proof (readUInt32BE_range _ _ _ Hsize) as (Hts & _).
  split.
  - intros tagValueSize Hty Hvalue Hle text.
    pose proof (tag_type buffer tagOffset "desc" ltac:(simpl; tauto) Hty) as Htype.
    pose proof (readUInt32BE_range _ _ _ Hvalue) as (Hv & _).
    split; [|apply toString_ascii_bytes].
    unfold tag_body. rewrite Hs, Hmap, Hoff, Hsize.
    cbn [mbind completion_bind].
    destruct (Z.ltb_spec (buf_length buffer) tagOffset); [lia|].
    rewrite Htype.
    change (str_eq (js "desc") (js "desc")) with true.
    change (str_eq (js "desc") (js "text")) with false.
    change (str_eq (js "desc") (js "mluc")) with false.
    rewrite Hvalue. cbn [mbind completion_bind andb].
    destruct (Z.ltb_spec tagSize tagValueSize); [lia|].
    cbn [mbind completion_bind].
    rewrite slice_nonneg by lia. unfold text.
    by replace (tagOffset + tagValueSize + 11 - (tagOffset + 12))
      with (tagValueSize - 1) by lia.
  - intros Hty H7 text.
    pose proof (tag_type buffer tagOffset "text" ltac:(simpl; tauto) Hty) as Htype.
    split; [|apply toString_ascii_bytes].
    unfold tag_body. rewrite Hs, Hmap, Hoff, Hsize.
    cbn [mbind completion_bind].
    destruct (Z.ltb_spec (buf_length buffer) tagOffset); [lia|].
    rewrite Htype.
    change (str_eq (js "text") (js "desc")) with false.
    change (str_eq (js "text") (js "text")) with true.
    change (str_eq (js "text") (js "mluc")) with false.
    cbn [mbind completion_bind andb].
    rewrite slice_nonneg by lia. unfold text.
    by replace (tagOffset + tagSize - 7 - (tagOffset + 8))
      with (tagSize - 15) by lia.
Qed.

Lemma text_of_tag_witness :
  tag_body icc_desc_copyright 132 ∅
  = Return (<[js "copyright" := VString (js "Copyright")]> ∅)
  ∧ tag_body icc_text_copyright 132 ∅
    = Return (<[js "copyright" := VString (js "Copyright")]> ∅).
Proof.
  split.
  - destruct (proj1 (text_of_tag icc_desc_copyright ∅ 132 "cprt" "copyright" 144 22
                       ltac:(simpl; tauto) ltac:(vm_compute; reflexivity)
                       ltac:(vm_compute; reflexivity) ltac:(vm_compute; reflexivity)
                       ltac:(vm_compute; discriminate))
                10 ltac:(vm_compute; reflexivity) ltac:(vm_compute; reflexivity)
                ltac:(lia)) as [Hb _].
    rewrite Hb. vm_compute. reflexivity.
  - destruct (proj2 (text_of_tag icc_text_copyright ∅ 132 "cprt" "copyright" 144 24
                       ltac:(simpl; tauto) ltac:(vm_compute; reflexivity)
                       ltac:(vm_compute; reflexivity) ltac:(vm_compute; reflexivity)
                       ltac:(vm_compute; discriminate))
                ltac:(vm_compute; reflexivity) ltac:(lia)) as [Hb _].
    rewrite Hb. vm_compute. reflexivity.
Defined.

(** X17. A text entry with tagOffset + tagSize below 7 gives the slice a
    negative end, which counts from the end of the buffer: the attribute
    is then the text from tagOffset + 8 up to 7 - tagOffset - tagSize
    bytes before the buffer end, far more than the entry declares. *)
Theorem text_with_negative_end (buffer : Buffer) (profile : gmap jsstring value)
    (tagHeaderOffset : Z) (sig attribute : string) (tagOffset tagSize : Z) :
  In (sig, attribute) recognized_tags →
  slice buffer tagHeaderOffset (tagHeaderOffset + 4) = bytes sig →
  readUInt32BE buffer (tagHeaderOffset + 4) = Return tagOffset →
  readUInt32BE buffer (tagHeaderOffset + 8) = Return tagSize →
  slice buffer tagOffset (tagOffset + 4) = bytes "text" →
  tagOffset + tagSize < 7 →
  tag_body buffer tagHeaderOffset profile
  = Return (<[js attribute :=
               VString (toString
                          (take (Z.to_nat (buf_length buffer + tagSize - 15))
                             (drop (Z.to_nat (tagOffset + 8)) buffer)))]>
              profile).
Proof.
  intros Hin Hsig Hoff Hsize Hty H7.
  destruct (recognized_signature _ _ _ _ Hin Hsig) as [Hs Hmap].
  pose proof (readUInt32BE_range _ _ _ Hoff) as (Hto & _).
  pose proof (readUInt32BE_range _ _ _ Hsize) as (Hts & _).
  pose proof (tag_type buffer tagOffset "text" ltac:(simpl; tauto) Hty) as Htype.
  assert (Hbound : tagOffset ≤ buf_length buffer).
  { pose proof (slice_length buffer tagOffset (tagOffset + 4)
                  ltac:(lia) ltac:(lia)) as Hl.
    rewrite Hty in Hl. change (buf_length (bytes "text")) with 4 in Hl. lia. }
  unfold tag_body. rewrite Hs, Hmap, Hoff, Hsize.
  cbn [mbind completion_bind].
  destruct (Z.ltb_spec (buf_length buffer) tagOffset); [lia|].
  rewrite Htype.
  change (str_eq (js "text") (js "desc")) with false.
  change (str_eq (js "text") (js "text")) with true.
  change (str_eq (js "text") (js "mluc")) with false.
  cbn [mbind completion_bind andb].
  rewrite slice_negative_end by lia.
  by replace (buf_length buffer + (tagOffset + tagSize - 7) - (tagOffset + 8))
    with (buf_length buffer + tagSize - 15) by lia.
Qed.

Lemma text_with_negative_end_witness :
  tag_body icc_text_at_cmm 132 ∅
  = Return (<[js "copyright" :=
               VString (toString (take 129 (drop 12 icc_text_at_cmm)))]> ∅).
Proof.
  rewrite (text_with_negative_end icc_text_at_cmm ∅ 132 "cprt" "copyright" 4 0
             ltac:(simpl; tauto) ltac:(vm_compute; reflexivity)
             ltac:(vm_compute; reflexivity) ltac:(vm_compute; reflexivity)
             ltac:(vm_compute; reflexivity) ltac:(lia)).
  reflexivity.
Defined.

(** *** readStringUTF16BE *)

Lemma utf16be_units_facts (n : nat) :
  ∀ data : Buffer, (length data ≤ n)%nat →
    length (utf16be_units data) = ((length data + 1) / 2)%nat
    ∧ Forall (λ u, 0 ≤ u < 65536) (utf16be_units data)
    ∧ (Nat.Odd (length data) → last (utf16be_units data) = Some 0).
Proof.
  induction n as [|n IH]; intros data Hn.
  - destruct data; [|simpl in Hn; lia]. simpl. split_and!; try done.
    intros [k Hk]. lia.
  - destruct data as [|hi [|lo rest]].
    + simpl. split_and!; try done. intros [k Hk]. lia.
    + simpl. split_and!; try done. repeat constructor; lia.
    + destruct (IH rest) as (Hlen & Hall & Hodd); [simpl in Hn; lia|].
      cbn [utf16be_units]. unfold fromCharCode. cbn [app]. split_and!.
      * simpl length. rewrite Hlen.
        replace (S (S (length rest)) + 1)%nat with (length rest + 1 + 1 * 2)%nat
          by lia.
        rewrite Nat.div_add by lia. lia.
      * constructor; [|done]. apply Z.mod_pos_bound. lia.
      * intros Ho. assert (Ho' : Nat.Odd (length rest)).
        { destruct Ho as [k Hk]. exists (k - 1)%nat. simpl in Hk. lia. }
        specialize (Hodd Ho').
        destruct (utf16be_units rest); [done|]. exact Hodd.
Qed.

(** X18. [readStringUTF16BE] never fails: on the bytes of the clamped
    range it gives one code unit for every two bytes, rounded up, each
    a 16-bit value; with an odd number of bytes the last byte is lost
    and the string ends with the code unit 0. *)
Theorem readStringUTF16BE_units (buffer : Buffer) (start end_ : Z) :
  let data := slice buffer start end_ in
  let value := readStringUTF16BE buffer start end_ in
  length value = ((length data + 1) / 2)%nat
  ∧ Forall (λ u, 0 ≤ u < 65536) value
  ∧ (Nat.Odd (length data) → last value = Some 0).
Proof.
  intros data value. unfold value, readStringUTF16BE. fold data.
  by apply (utf16be_units_facts (length data)).
Qed.

Lemma readStringUTF16BE_units_witness :
  last (readStringUTF16BE (bytes "abc") 0 3) = Some 0.
Proof.
  apply (readStringUTF16BE_units (bytes "abc") 0 3). by exists 1%nat.
Defined.

(** *** Values of the four-byte codes *)

Lemma trimStart_head (s : jsstring) (c : Z) :
  head (trimStart s) = Some c → is_white_space c = false.
Proof.
  induction s as [|x s IH]; [done|]. simpl.
  destruct (is_white_space x) eqn:Hx; [done|]. simpl. by intros [= <-].
Qed.

Lemma trimStart_suffix (s : jsstring) : ∃ w, s = w ++ trimStart s.
Proof.
  induction s as [|x s [w IH]]; [by exists []|]. simpl.
  destruct (is_white_space x); [|by exists []].
  exists (x :: w). simpl. by rewrite <- IH.
Qed.

Lemma last_rev (s : jsstring) : last (rev s) = head s.
Proof. destruct s as [|x s]; [done|]. simpl. apply last_snoc. Qed.

Lemma head_rev (s : jsstring) : head (rev s) = last s.
Proof. rewrite <- (rev_involutive s) at 2. by rewrite last_rev. Qed.

Lemma trim_ends (s : jsstring) (c : Z) :
  head (trim s) = Some c ∨ last (trim s) = Some c → is_white_space c = false.
Proof.
  unfold trim. intros [Hh|Hl].
  - destruct (trimStart_suffix (rev (trimStart s))) as [w Hw].
    apply (f_equal (@rev Z)) in Hw. rewrite rev_involutive, rev_app_distr in Hw.
    apply (trimStart_head s). rewrite Hw.
    destruct (rev (trimStart (rev (trimStart s)))); [done|]. exact Hh.
  - rewrite last_rev in Hl. by apply trimStart_head in Hl.
Qed.

(** X19. The value read for a four-byte code, or for a tag signature or
    type, never begins or ends with white space: it is a trimmed string
    or an entry of the vocabulary. *)
Theorem code_value_trimmed (buffer : Buffer) (offset c : Z) :
  head (getContentAtOffsetAsString buffer offset) = Some c
  ∨ last (getContentAtOffsetAsString buffer offset) = Some c →
  is_white_space c = false.
Proof.
  unfold getContentAtOffsetAsString.
  destruct (valueMap !! _) as [name|] eqn:Hl; [|apply trim_ends].
  unfold valueMap in Hl. apply elem_of_list_to_map_2 in Hl.
  rewrite !elem_of_cons, elem_of_nil in Hl.
  intros Hends.
  repeat (destruct Hl as [Hl|Hl];
          [injection Hl as _ ->; vm_compute in Hends;
           destruct Hends as [[= <-]|[= <-]]; reflexivity|]).
  done.
Qed.

Lemma code_value_trimmed_witness :
  is_white_space 66 = false.
Proof.
  apply (code_value_trimmed (bytes "RGB ") 0 66). right. vm_compute. reflexivity.
Defined.

(** *** Exact matches *)

(** A sequence left open never decodes to ASCII with one unit a byte. *)
Lemma utf8_pending_not_ascii (rest : Buffer) (p : pending) (s : jsstring) :
  utf8_decode (Some p) rest = s →
  Forall (λ u, 0 ≤ u < 128) s →
  (length rest + 1 ≤ length s)%nat → False.
Proof.
  intros Hd Hascii Hlen. destruct rest as [|b rest].
  - simpl in Hd. subst s. inversion Hascii as [|? ? Hu _]; subst.
    unfold replacement in Hu. lia.
  - cbn [utf8_decode] in Hd.
    destruct ((lower p <=? byte_val b) && (byte_val b <=? upper p)).
    + destruct (needed p) as [|[|n]].
      * unfold code_units in Hd. destruct (_ <? _) eqn:Hcp.
        -- pose proof (toString_length rest) as Hr. unfold toString in Hr.
           subst s. simpl in Hlen. lia.
        -- apply Z.ltb_ge in Hcp. subst s.
           inversion Hascii as [|? ? Hu _]; subst.
           pose proof (Z.shiftr_nonneg
                         (Z.lor (Z.shiftl (code_point p) 6) (Z.land (byte_val b) 63)
                          - 65536) 10) as [_ Hs].
           specialize (Hs ltac:(lia)). lia.
      * unfold code_units in Hd. destruct (_ <? _) eqn:Hcp.
        -- pose proof (toString_length rest) as Hr. unfold toString in Hr.
           subst s. simpl in Hlen. lia.
        -- apply Z.ltb_ge in Hcp. subst s.
           inversion Hascii as [|? ? Hu _]; subst.
           pose proof (Z.shiftr_nonneg
                         (Z.lor (Z.shiftl (code_point p) 6) (Z.land (byte_val b) 63)
                          - 65536) 10) as [_ Hs].
           specialize (Hs ltac:(lia)). lia.
      * pose proof (utf8_decode_length rest
                      (Some (Pending (S n)
                               (Z.lor (Z.shiftl (code_point p) 6)
                                  (Z.land (byte_val b) 63)) 128 191))) as Hr.
        rewrite Hd in Hr. simpl in Hlen, Hr. lia.
    + destruct (utf8_lead (byte_val b)) as [out st']. subst s.
      inversion Hascii as [|? ? Hu _]; subst. unfold replacement in Hu. lia.
Qed.

(** A buffer that decodes to as many ASCII characters as it has bytes
    consists of those characters. *)
Lemma utf8_ascii_exact (buf : Buffer) :
  ∀ s, utf8_decode None buf = s →
       Forall (λ u, 0 ≤ u < 128) s →
       (length buf ≤ length s)%nat →
       map byte_val buf = s.
Proof.
  induction buf as [|b buf IH]; intros s Hd Hascii Hlen.
  - simpl in Hd. by subst.
  - cbn [utf8_decode] in Hd. unfold utf8_lead in Hd.
    destruct (byte_val b <=? 127).
    { simpl in Hd. subst s. simpl. f_equal.
      inversion Hascii; subst. apply IH; [done|done|simpl in Hlen; lia]. }
    exfalso.
    repeat match type of Hd with
           | context [if ?c then _ else _] => destruct c
           end;
      cbn [app] in Hd;
      first [ apply (utf8_pending_not_ascii _ _ _ Hd Hascii);
              simpl in Hlen; lia
            | subst s; inversion Hascii as [|? ? Hu _]; subst;
              unfold replacement in Hu; lia ].
Qed.

Lemma toString_exact (buf : Buffer) (lit : string) :
  Forall (λ u, 0 ≤ u < 128) (js lit) →
  (length buf ≤ length (js lit))%nat →
  toString buf = js lit → buf = bytes lit.
Proof.
  intros Hascii Hlen Hd. apply map_byte_val_inj. rewrite <- js_bytes.
  by apply utf8_ascii_exact.
Qed.

Lemma trimStart_length (s : jsstring) :
  (length (trimStart s) ≤ length s)%nat
  ∧ (length (trimStart s) = length s → trimStart s = s).
Proof.
  destruct (trimStart_suffix s) as [w Hw].
  assert (Hl : length s = (length w + length (trimStart s))%nat).
  { rewrite Hw at 1. apply length_app. }
  split; [lia|]. intros Heq. destruct w; [done|]. simpl in Hl. lia.
Qed.

Lemma trim_length (s : jsstring) :
  (length (trim s) ≤ length s)%nat ∧ (length (trim s) = length s → trim s = s).
Proof.
  unfold trim. rewrite length_rev.
  destruct (trimStart_length s) as [H1 E1].
  destruct (trimStart_length (rev (trimStart s))) as [H2 E2].
  rewrite length_rev in H2, E2.
  split; [lia|]. intros Heq.
  rewrite E2 by lia. rewrite rev_involutive. apply E1. lia.
Qed.

(** X20. Signatures are matched byte for byte.  A buffer is decoded only
    if its bytes 36 to 39 are exactly "acsp", and a tag-table entry is
    taken as recognised only if its four signature bytes are exactly
    desc, cprt, dmdd or vued: no other letter case, no padding and no
    other byte sequence decodes to them. *)
Theorem signatures_exact (buffer : Buffer) :
  (∀ profile, parse buffer = Return profile →
              slice buffer 36 40 = bytes "acsp")
  ∧ (∀ offset attribute,
       0 ≤ offset →
       tagMap !! getContentAtOffsetAsString buffer offset = Some attribute →
       ∃ sig name, In (sig, name) recognized_tags ∧ attribute = js name
                   ∧ slice buffer offset (offset + 4) = bytes sig).
Proof.
  split.
  - intros profile Hp.
    destruct (parse_Return _ _ Hp) as (_ & _ & _ & _ & _ & Hsig & _).
    apply toString_exact; [repeat constructor; lia| |done].
    pose proof (slice_length buffer 36 40 ltac:(lia) ltac:(lia)) as Hl.
    unfold buf_length in Hl. change (length (js "acsp")) with 4%nat. lia.
  - intros offset attribute Hoff Htag.
    assert (Hlen : (length (slice buffer offset (offset + 4)) ≤ 4)%nat).
    { pose proof (slice_length buffer offset (offset + 4) ltac:(lia) ltac:(lia)) as Hl.
      unfold buf_length in Hl. lia. }
    rewrite getContentAtOffsetAsString_code in Htag. unfold code_value in Htag.
    set (code := slice buffer offset (offset + 4)) in *.
    destruct (valueMap !! _) as [entry|] eqn:Hv.
    { exfalso. unfold valueMap in Hv. apply elem_of_list_to_map_2 in Hv.
      rewrite !elem_of_cons, elem_of_nil in Hv.
      repeat (destruct Hv as [Hv|Hv];
              [injection Hv as _ ->; vm_compute in Htag; discriminate|]).
      done. }
    pose proof (toString_length code) as Hts.
    destruct (trim_length (toString code)) as [Htl Hte].
    assert (Hexact : ∀ sig : string,
              length (js sig) = 4%nat →
              Forall (λ u, 0 ≤ u < 128) (js sig) →
              trim (toString code) = js sig → code = bytes sig).
    { intros sig H4 Hascii Heq. apply toString_exact; [done|lia|].
      rewrite <- Heq. symmetry. apply Hte. rewrite Heq in Htl |- *. lia. }
    unfold tagMap in Htag. apply elem_of_list_to_map_2 in Htag.
    rewrite !elem_of_cons, elem_of_nil in Htag.
    destruct Htag as [H|[H|[H|[H|H]]]]; try done; injection H as Hs ->.
    + exists "desc"%string, "description"%string.
      split_and!; [simpl; tauto|done|].
      apply Hexact; [done|repeat constructor; lia|done].
    + exists "cprt"%string, "copyright"%string.
      split_and!; [simpl; tauto|done|].
      apply Hexact; [done|repeat constructor; lia|done].
    + exists "dmdd"%string, "deviceModelDescription"%string.
      split_and!; [simpl; tauto|done|].
      apply Hexact; [done|repeat constructor; lia|done].
    + exists "vued"%string, "viewingConditionsDescription"%string.
      split_and!; [simpl; tauto|done|].
      apply Hexact; [done|repeat constructor; lia|done].
Qed.

Lemma signatures_exact_witness :
  slice icc_plain 36 40 = bytes "acsp"
  ∧ ∃ sig name, In (sig, name) recognized_tags
      ∧ slice icc_mluc 132 (132 + 4) = bytes sig.
Proof.
  split.
  - apply (proj1 (signatures_exact icc_plain)
             (match parse icc_plain with Return p => p | Throw _ => ∅ end)).
    vm_compute. reflexivity.
  - destruct (proj2 (signatures_exact icc_mluc) 132 (js "description")
                ltac:(lia) ltac:(vm_compute; reflexivity))
      as (sig & name & Hin & _ & Hs).
    by exists sig, name.
Defined.
